(** * bigolchungus: the search-and-verify engine of [bigolchungus.cpp]

    A shallow embedding of [read_target_bytes], [ref_search_nonce],
    [print_hash] and [main] and the properties of the search loop, the
    verification guard, the option switch, the header intake and the
    start-nonce selection.

    Conventions.  A [uint8_t] is a [Z] in [0, 2^8), a [uint32_t] a [Z] in
    [0, 2^32), a [uint64_t] and a [size_t] a [Z] in [0, 2^64) (LP64, as
    the [%ld]/[%lx] formats of the source assume); unsigned arithmetic is
    written with its wrap-around.  A buffer is a [list Z] of bytes and a
    pointer into it is the buffer with an offset.  Reads and writes
    outside a buffer are undefined in C++: they are [None] here.
    [assert] is compiled in (no [NDEBUG]): an assertion that fails ends
    the process.  The loop [while (true)] is run for a number of turns;
    a run that has not ended by then is still [Running]. *)

From Stdlib Require Import ZArith List String Ascii Bool Lia.
From stdpp Require Import base tactics option numbers list.

Local Open Scope Z_scope.

(** ** Machine integers *)

Module Word.

Definition wrap8 (z : Z) : Z := z mod 2 ^ 8.
Definition wrap32 (z : Z) : Z := z mod 2 ^ 32.
Definition wrap64 (z : Z) : Z := z mod 2 ^ 64.

Definition INT_MIN : Z := - 2 ^ 31.
Definition INT_MAX : Z := 2 ^ 31 - 1.

(** [int] with the two's complement wrap-around of the targets the
    program is built for. *)
Definition wrap_int (z : Z) : Z := (z + 2 ^ 31) mod 2 ^ 32 - 2 ^ 31.

(** Conversion of a (possibly negative) [int] to [size_t] or
    [uint64_t]: reduction modulo 2^64. *)
Definition size_t_of_int (i : Z) : Z := wrap64 i.

End Word.

Import Word.

(** ** Object representation of a [uint64_t]

    [blake2s_update(&state, &nonce, 8)] and [fread(&start_nonce, 1, 8, f)]
    go through the eight bytes a [uint64_t] occupies in memory.  On the
    little-endian hosts the program runs on, byte [i] holds bits
    [8i .. 8i+7]. *)

Definition uint64_byte (n : Z) (i : Z) : Z := Z.land (Z.shiftr n (8 * i)) 255.

Definition uint64_bytes (n : Z) : list Z :=
  map (uint64_byte n) (seqZ 0 8).

(** The value held by an object with the bytes [bs] (each entry counts
    as the byte it is modulo 256). *)
Fixpoint uint64_of_bytes (bs : list Z) : Z :=
  match bs with
  | [] => 0
  | b :: bs' => b mod 256 + 256 * uint64_of_bytes bs'
  end.

(** ** Memory reads and writes through a pointer *)

(** [len] bytes starting [off] bytes into [mem]. *)
Definition mem_read (mem : list Z) (off len : Z) : option (list Z) :=
  if decide (0 <= off /\ 0 <= len /\ off + len <= Z.of_nat (length mem))
  then Some (take (Z.to_nat len) (drop (Z.to_nat off) mem))
  else None.

(** [mem[off] = v]. *)
Definition mem_write (mem : list Z) (off : Z) (v : Z) : option (list Z) :=
  if decide (0 <= off < Z.of_nat (length mem))
  then Some (<[Z.to_nat off := v]> mem)
  else None.

(** [memset(mem + off, v, len)]. *)
Definition memset (mem : list Z) (off : Z) (v : Z) (len : Z) : option (list Z) :=
  if decide (0 <= off /\ 0 <= len /\ off + len <= Z.of_nat (length mem))
  then Some (take (Z.to_nat off) mem ++ replicate (Z.to_nat len) v
               ++ drop (Z.to_nat (off + len)) mem)
  else None.

(** ** What the run leaves behind *)

Inductive exception := invalid_argument | out_of_range.

(** How the process ends.  [Running] is a search loop that has used up
    the windows it was given and is still searching. *)
Inductive termination :=
| Returned (status : Z)
| Exited (status : Z)
| AssertFailed
| Uncaught (e : exception)
| Undefined
| Running.

(** [windows]: the calls made to the backend, in order, each with its
    start nonce and the value it returned; [stdout]: the nonce and the
    hash count of the result line, if it was printed (the rate printed
    after them depends on the wall clock).  The diagnostics on standard
    error are logging and are left out. *)
Record run := {
  windows : list (Z * Z);
  stdout : option (Z * Z);
  ending : termination;
}.

Definition fatal (t : termination) : run :=
  {| windows := []; stdout := None; ending := t |}.

(** The nonce on the result line, [printf("%016" PRIx64, found)]:
    sixteen hexadecimal digits in lower case, most significant first. *)
Definition hex_digit (d : Z) : ascii :=
  ascii_of_N (Z.to_N (if d <? 10 then 48 + d else 87 + d)).

Definition hex16_digits (v : Z) : list Z :=
  map (fun i => (v / 16 ^ i) mod 16) (rev (seqZ 0 16)).

Definition hex16 (v : Z) : string :=
  string_of_list_ascii (map hex_digit (hex16_digits v)).

(** [print_hash], called in the diagnostic of a bad nonce: the text it
    writes to standard error.  The cast of [buf + i * 8] to a pointer to
    [uint64_t] reads the eight bytes at offset [8 i] as the [uint64_t]
    they represent; the format writes it with sixteen digits and a
    space. *)
Definition read_uint64 (mem : list Z) (off : Z) : option Z :=
  bytes ← mem_read mem off 8;
  Some (uint64_of_bytes bytes).

Definition print_hash (buf : list Z) : option string :=
  out ← foldl (fun out i =>
                 out ← out;
                 word ← read_uint64 buf (i * 8);
                 Some (out ++ hex16 word ++ " ")%string)
              (Some EmptyString) [3; 2; 1; 0];
  Some (out ++ String "010" EmptyString)%string.

(** ** Command line: [std::stoi] and the [getopt] switch *)

Definition ascii_code (c : ascii) : Z := Z.of_N (N_of_ascii c).

(** [isspace] in the C locale. *)
Definition isspace (c : ascii) : bool :=
  let n := ascii_code c in (n =? 32) || ((9 <=? n) && (n <=? 13)).

(** The value of a character as a digit, as [strtol] reads it. *)
Definition digit_value (c : ascii) : option Z :=
  let n := ascii_code c in
  if (48 <=? n) && (n <=? 57) then Some (n - 48)
  else if (97 <=? n) && (n <=? 122) then Some (n - 87)
  else if (65 <=? n) && (n <=? 90) then Some (n - 55)
  else None.

Definition is_digit (base : Z) (c : ascii) : bool :=
  match digit_value c with
  | Some v => v <? base
  | None => false
  end.

Fixpoint skip_spaces (s : string) : string :=
  match s with
  | String c r => if isspace c then skip_spaces r else s
  | EmptyString => s
  end.

Definition read_sign (s : string) : bool * string :=
  match s with
  | String "-" r => (true, r)
  | String "+" r => (false, r)
  | _ => (false, s)
  end.

(** In base 16 a leading [0x] or [0X] is skipped when a digit follows. *)
Definition skip_prefix (base : Z) (s : string) : string :=
  match s with
  | String "0" (String x (String d r)) =>
      if (base =? 16) && ((ascii_code x =? 120) || (ascii_code x =? 88))
         && is_digit base d
      then String d r else s
  | _ => s
  end.

(** The longest run of digits, accumulated from [acc]; [None] when no
    digit has been read ([any] tells whether one was read before). *)
Fixpoint read_digits (base : Z) (s : string) (acc : Z) (any : bool) : option Z :=
  match s with
  | String c r =>
      match digit_value c with
      | Some v =>
          if v <? base then read_digits base r (acc * base + v) true
          else if any then Some acc else None
      | None => if any then Some acc else None
      end
  | EmptyString => if any then Some acc else None
  end.

(** [strtol] without the clamping to [long]: [stoi] rejects every value
    outside [int], clamped or not. *)
Definition strtol (s : string) (base : Z) : option Z :=
  let '(neg, s) := read_sign (skip_spaces s) in
  match read_digits base (skip_prefix base s) 0 false with
  | Some v => Some (if neg then - v else v)
  | None => None
  end.

(** [std::stoi(str, 0, base)]. *)
Definition stoi (str : string) (base : Z) : exception + Z :=
  match strtol str base with
  | None => inl invalid_argument
  | Some v => if (INT_MIN <=? v) && (v <=? INT_MAX) then inr v else inl out_of_range
  end.

(** The local variables of [main] the options set.  [nonceOverride] is
    [Some] exactly when [nonceOverridden] is set. *)
Record config := {
  quiet : bool;
  deviceOverride : Z;
  platformOverride : Z;
  localWorkSize : Z;
  workSetSize : Z;
  globalSize : Z;
  nonceOverride : option Z;
  kernelPath : option string;
  alternativeNonce : bool;
}.

Definition default_config : config :=
  {| quiet := true;
     deviceOverride := 0;
     platformOverride := -1;
     localWorkSize := 256;
     workSetSize := 64;
     globalSize := 1024 * 1024 * 16;
     nonceOverride := None;
     kernelPath := None;
     alternativeNonce := false |}.

Definition with_int (str : string) (base : Z) (k : Z -> config)
  : termination + config :=
  match stoi str base with
  | inl e => inl (Uncaught e)
  | inr v => inr (k v)
  end.

(** The body of the [switch] for the option character [opt] that
    [getopt] returned with argument [optarg]. *)
Definition handle_option (c : config) (opt : ascii) (optarg : string)
  : termination + config :=
  match opt with
  | "d"%char => with_int optarg 10 (fun v =>
      {| quiet := quiet c; deviceOverride := v;
         platformOverride := platformOverride c;
         localWorkSize := localWorkSize c; workSetSize := workSetSize c;
         globalSize := globalSize c; nonceOverride := nonceOverride c;
         kernelPath := kernelPath c; alternativeNonce := alternativeNonce c |})
  | "p"%char => with_int optarg 10 (fun v =>
      {| quiet := quiet c; deviceOverride := deviceOverride c;
         platformOverride := v;
         localWorkSize := localWorkSize c; workSetSize := workSetSize c;
         globalSize := globalSize c; nonceOverride := nonceOverride c;
         kernelPath := kernelPath c; alternativeNonce := alternativeNonce c |})
  | "l"%char => with_int optarg 10 (fun v =>
      {| quiet := quiet c; deviceOverride := deviceOverride c;
         platformOverride := platformOverride c;
         localWorkSize := v; workSetSize := workSetSize c;
         globalSize := globalSize c; nonceOverride := nonceOverride c;
         kernelPath := kernelPath c; alternativeNonce := alternativeNonce c |})
  | "w"%char => with_int optarg 10 (fun v =>
      {| quiet := quiet c; deviceOverride := deviceOverride c;
         platformOverride := platformOverride c;
         localWorkSize := localWorkSize c; workSetSize := v;
         globalSize := globalSize c; nonceOverride := nonceOverride c;
         kernelPath := kernelPath c; alternativeNonce := alternativeNonce c |})
  | "g"%char => with_int optarg 10 (fun v =>
      {| quiet := quiet c; deviceOverride := deviceOverride c;
         platformOverride := platformOverride c;
         localWorkSize := localWorkSize c; workSetSize := workSetSize c;
         globalSize := v; nonceOverride := nonceOverride c;
         kernelPath := kernelPath c; alternativeNonce := alternativeNonce c |})
  | "k"%char => inr
      {| quiet := quiet c; deviceOverride := deviceOverride c;
         platformOverride := platformOverride c;
         localWorkSize := localWorkSize c; workSetSize := workSetSize c;
         globalSize := globalSize c; nonceOverride := nonceOverride c;
         kernelPath := Some optarg; alternativeNonce := alternativeNonce c |}
  | "f"%char => inr
      {| quiet := quiet c; deviceOverride := deviceOverride c;
         platformOverride := platformOverride c;
         localWorkSize := localWorkSize c; workSetSize := workSetSize c;
         globalSize := globalSize c; nonceOverride := nonceOverride c;
         kernelPath := kernelPath c; alternativeNonce := true |}
  | "v"%char => inr
      {| quiet := false; deviceOverride := deviceOverride c;
         platformOverride := platformOverride c;
         localWorkSize := localWorkSize c; workSetSize := workSetSize c;
         globalSize := globalSize c; nonceOverride := nonceOverride c;
         kernelPath := kernelPath c; alternativeNonce := alternativeNonce c |}
  | "n"%char => with_int optarg 16 (fun v =>
      {| quiet := quiet c; deviceOverride := deviceOverride c;
         platformOverride := platformOverride c;
         localWorkSize := localWorkSize c; workSetSize := workSetSize c;
         globalSize := globalSize c; nonceOverride := Some (size_t_of_int v);
         kernelPath := kernelPath c; alternativeNonce := alternativeNonce c |})
  | "h"%char | "?"%char => inl (Exited 1)
  | _ => inr c
  end.

(** The [while ((opt = getopt(...)) != -1)] loop over what [getopt]
    returns, in order. *)
Fixpoint parse_options (c : config) (opts : list (ascii * string))
  : termination + config :=
  match opts with
  | [] => inr c
  | (opt, optarg) :: opts =>
      match handle_option c opt optarg with
      | inl t => inl t
      | inr c => parse_options c opts
      end
  end.

(** ** The hash function and the comparator

    [blake2s_ref.h] and [common.h] are not among the translated sources:
    the digest function, the comparator and the hex digit reader are
    parameters.  The incremental interface absorbs the bytes it is
    given; [blake2s_final] hashes what has been absorbed. *)

(** Modelled from the spec: the constant [BLAKE2S_OUTBYTES] of the absent
    [blake2s_ref.h]; the digest is a 32-byte value. *)
Definition BLAKE2S_OUTBYTES : Z := 32.

Record blake2s_state := {
  outlen : Z;
  absorbed : list Z;
}.

Definition blake2s_init (outlen : Z) : blake2s_state :=
  {| outlen := outlen; absorbed := [] |}.

Definition blake2s_update (st : blake2s_state) (mem : list Z) (off len : Z)
  : option blake2s_state :=
  data ← mem_read mem off len;
  Some {| outlen := outlen st; absorbed := absorbed st ++ data |}.

(** The backend of [opencl_backend.hpp], also absent: an object with a
    constructor and the two calls [main] makes. *)
Class OpenclBackend (B : Type) := {
  backend_new : Z -> bool -> Z -> Z -> option string -> bool -> B;
  start_search : B -> Z -> Z -> Z -> list Z -> list Z -> B;
  continue_search : B -> Z -> Z * B;
}.

(** The two ways the nonce is embedded: [-f] selects [Suffix]. *)
Inductive embedding := Prefix | Suffix.

Definition mode_of (alternativeNonce : bool) : embedding :=
  if alternativeNonce then Suffix else Prefix.

Section Engine.

Variable blake2s : Z -> list Z -> list Z.
Variable compare_uint256 : list Z -> list Z -> Z.
Variable hexchar2int : ascii -> Z.

Definition blake2s_final (st : blake2s_state) (outlen : Z) : list Z :=
  blake2s outlen (absorbed st).

(** *** The Hash Oracle, as the specification words it

    "In prefix mode, the digest function is applied to the 8 bytes of
    nonce followed by header bytes [8, length).  In suffix mode, it is
    applied to header bytes [0, length-8) followed by the 8 bytes of
    nonce."  [header] is the header of [length header] bytes. *)

Definition oracle_message (mode : embedding) (nonce : Z) (header : list Z)
  : list Z :=
  match mode with
  | Prefix => uint64_bytes nonce ++ drop 8 header
  | Suffix => take (length header - 8) header ++ uint64_bytes nonce
  end.

Definition hash_oracle (mode : embedding) (nonce : Z) (header : list Z)
  : list Z :=
  blake2s BLAKE2S_OUTBYTES (oracle_message mode nonce header).

(** *** [ref_search_nonce] *)

(** The state after the two [blake2s_update] calls of the loop body. *)
Definition ref_hash_state (nonce : Z) (buf : list Z) (last_block_size : Z)
  : option blake2s_state :=
  let state := blake2s_init BLAKE2S_OUTBYTES in
  state ← blake2s_update state (uint64_bytes nonce) 0 8;
  blake2s_update state buf 0 (wrap32 (wrap32 (320 - 64 + last_block_size) - 8)).

Definition ref_hash (nonce : Z) (buf : list Z) (last_block_size : Z)
  : option (list Z) :=
  state ← ref_hash_state nonce buf last_block_size;
  Some (blake2s_final state BLAKE2S_OUTBYTES).

(** The iterations of the [for] loop, in order: the nonce hashed and
    the index written. *)
Definition ref_iterations (gid start_nonce work_set : Z) : list (Z * Z) :=
  let nonce0 := wrap64 (start_nonce + wrap64 (gid * work_set)) in
  map (fun i => (wrap64 (nonce0 + i), wrap64 (wrap64 (gid * work_set) + i)))
      (seqZ 0 work_set).

(** The nonces one lane hashes and the indices it writes, in order, and
    the nonces the lanes [0 .. global_size - 1] hash, lane after lane. *)
Definition ref_nonces (gid start_nonce work_set : Z) : list Z :=
  map fst (ref_iterations gid start_nonce work_set).

Definition ref_slots (gid start_nonce work_set : Z) : list Z :=
  map snd (ref_iterations gid start_nonce work_set).

Definition window_nonces (start_nonce global_size work_set : Z) : list Z :=
  concat (map (fun gid => ref_nonces gid start_nonce work_set)
              (seqZ 0 global_size)).

Definition ref_body (buf : list Z) (last_block_size : Z) (target_hash : list Z)
    (result : option (list Z)) (it : Z * Z) : option (list Z) :=
  result_ptr ← result;
  hash ← ref_hash (fst it) buf last_block_size;
  mem_write result_ptr (snd it) (wrap8 (compare_uint256 target_hash hash)).

Definition ref_search_nonce (gid start_nonce work_set : Z) (buf : list Z)
    (last_block_size : Z) (target_hash : list Z) (result_ptr : list Z)
  : option (list Z) :=
  foldl (ref_body buf last_block_size target_hash) (Some result_ptr)
        (ref_iterations gid start_nonce work_set).

(** *** The verification guard of [main] *)

Definition guard_hash_state (alternativeNonce : bool) (buf : list Z)
    (bufsize : Z) (found : Z) : option blake2s_state :=
  let state := blake2s_init BLAKE2S_OUTBYTES in
  if alternativeNonce then
    state ← blake2s_update state buf 0 (wrap64 (bufsize - 8));
    blake2s_update state (uint64_bytes found) 0 8
  else
    state ← blake2s_update state (uint64_bytes found) 0 8;
    blake2s_update state buf 8 (wrap64 (bufsize - 8)).

Definition guard_hash (alternativeNonce : bool) (buf : list Z)
    (bufsize : Z) (found : Z) : option (list Z) :=
  state ← guard_hash_state alternativeNonce buf bufsize found;
  Some (blake2s_final state BLAKE2S_OUTBYTES).

(** *** The search loop of [main] *)

Context {B : Type} `{OpenclBackend B}.

(** What the loop reads and never changes. *)
Record search_env := {
  env_alternativeNonce : bool;
  env_buf : list Z;
  env_bufsize : Z;
  env_target_hash : list Z;
  env_nonce_step_size : Z;
}.

Record search_state := {
  start_nonce : Z;
  steps : Z;
  backend : B;
}.

(** One turn of [while (true)]: the backend's answer together with
    either the next state or the way the process ends. *)
Definition search_iteration (e : search_env) (s : search_state)
  : (Z * Z) * (search_state + option (Z * Z) * termination) :=
  let steps := wrap_int (steps s + 1) in
  let '(found, backend) := continue_search (backend s) (start_nonce s) in
  let found := wrap64 found in
  ((start_nonce s, found),
   if negb (found =? 0) then
     match guard_hash (env_alternativeNonce e) (env_buf e) (env_bufsize e) found with
     | None => inr (None, Undefined)
     | Some hash =>
         if compare_uint256 (env_target_hash e) hash =? -1
         then inr (None, Exited (-1))
         else
           let numHashes := wrap64 (size_t_of_int steps * env_nonce_step_size e) in
           inr (Some (found, numHashes), Returned 0)
     end
   else
     inl {| start_nonce := wrap64 (start_nonce s + env_nonce_step_size e);
            steps := steps;
            backend := backend |}).

Fixpoint search_loop (fuel : nat) (e : search_env) (s : search_state) : run :=
  match fuel with
  | O => {| windows := []; stdout := None; ending := Running |}
  | S fuel =>
      match search_iteration e s with
      | (w, inl s') =>
          let r := search_loop fuel e s' in
          {| windows := w :: windows r; stdout := stdout r; ending := ending r |}
      | (w, inr (out, t)) =>
          {| windows := [w]; stdout := out; ending := t |}
      end
  end.

(** *** [read_target_bytes] *)

Definition char_at (str : string) (i : Z) : ascii :=
  match String.get (Z.to_nat i) str with
  | Some c => c
  | None => "000"%char
  end.

Definition read_target_bytes (str : string) : termination + list Z :=
  if decide (Z.of_nat (String.length str) = 64) then
    inr (map (fun i =>
                let c1 := wrap8 (hexchar2int (char_at str (2 * i))) in
                let c2 := wrap8 (hexchar2int (char_at str (2 * i + 1))) in
                wrap8 (Z.lor (Z.shiftl c1 4) c2))
             (seqZ 0 32))
  else inl AssertFailed.

(** *** [main] *)

(** What the process is started with: [argc]; the option characters
    and arguments [getopt] hands out; the operand [argv[optind]], if
    there is one; the bytes on standard input; the bytes a read of
    [/dev/urandom] delivers, or [None] when it cannot be opened; what
    the stack holds where [buf] is placed. *)
Record process_input := {
  argc : Z;
  options : list (ascii * string);
  operand : option string;
  stdin : list Z;
  urandom : option (list Z);
  stack : nat -> Z;
}.

Definition BUF_SIZE : Z := 4 * 1024.

(** [buf] after [fread(buf, 1, BUF_SIZE, stdin)], and the count
    returned. *)
Definition fread_buf (inp : process_input) : list Z * Z :=
  let data := take (Z.to_nat BUF_SIZE) (stdin inp) in
  (data ++ map (stack inp) (seq (length data) (Z.to_nat BUF_SIZE - length data)),
   Z.of_nat (length data)).

(** From [fread] to the [memset]: the buffer, [bufsize] and
    [last_block_size]. *)
Definition read_header (inp : process_input) : termination + list Z * Z * Z :=
  let '(buf, bufsize) := fread_buf inp in
  if negb (8 <=? bufsize) then inl AssertFailed
  else if negb (bufsize <? BUF_SIZE) then inl AssertFailed
  else if negb ((320 - 64 + 1 <=? bufsize) && (bufsize <=? 320)) then inl AssertFailed
  else
    let last_block_size := wrap32 (bufsize - (320 - 64)) in
    match memset buf (256 + last_block_size) 0 (wrap32 (64 - last_block_size)) with
    | None => inl Undefined
    | Some buf => inr (buf, bufsize, last_block_size)
    end.

(** [start_nonce] before the loop.  [fread(&start_nonce, 1, 8, urandom)]
    overwrites the leading bytes of the variable, initialised to 0,
    with the bytes it gets; its result is not looked at.  A null
    stream is passed on to [fread]. *)
Definition initial_start_nonce (c : config) (urandom : option (list Z))
  : option Z :=
  match nonceOverride c with
  | Some n => Some n
  | None =>
      match urandom with
      | None => None
      | Some bytes =>
          let got := take 8 bytes in
          Some (uint64_of_bytes (got ++ drop (length got) (uint64_bytes 0)))
      end
  end.

(** [main] up to the loop: the ways it ends early, or what the loop
    starts from. *)
Definition setup (inp : process_input) : termination + search_env * search_state :=
  if argc inp =? 1 then inl (Exited 1) else
  match parse_options default_config (options inp) with
  | inl t => inl t
  | inr c =>
  match operand inp with
  | None => inl Undefined
  | Some str =>
  match read_target_bytes str with
  | inl t => inl t
  | inr target_hash =>
  match read_header inp with
  | inl t => inl t
  | inr (buf, bufsize, last_block_size) =>
  let global_size := size_t_of_int (globalSize c) in
  let local_size := size_t_of_int (localWorkSize c) in
  let workset_size := size_t_of_int (workSetSize c) in
  let nonce_step_size := wrap64 (global_size * workset_size) in
  match initial_start_nonce c (urandom inp) with
  | None => inl Undefined
  | Some start_nonce =>
  let backend :=
    backend_new nonce_step_size (quiet c) (deviceOverride c)
                (platformOverride c) (kernelPath c) (alternativeNonce c) in
  let backend :=
    start_search backend global_size local_size workset_size buf target_hash in
  inr ({| env_alternativeNonce := alternativeNonce c;
          env_buf := buf;
          env_bufsize := bufsize;
          env_target_hash := target_hash;
          env_nonce_step_size := nonce_step_size |},
       {| start_nonce := start_nonce; steps := 0; backend := backend |})
  end end end end end.

Definition main (fuel : nat) (inp : process_input) : run :=
  match setup inp with
  | inl t => fatal t
  | inr (e, s) => search_loop fuel e s
  end.

End Engine.

(** ** A reference instance of the parameters

    Concrete values for what the translated sources leave out, so that
    the program can be run on inputs. *)

(** Modelled from the spec: the "fixed cryptographic digest function" of
    the absent [blake2s_ref.h] whose calls the source names. It is
    BLAKE2s as RFC 7693 defines it, unkeyed, on the whole message. *)
Module Blake2s.

Definition IV : list Z :=
  [0x6A09E667; 0xBB67AE85; 0x3C6EF372; 0xA54FF53A;
   0x510E527F; 0x9B05688C; 0x1F83D9AB; 0x5BE0CD19].

Definition SIGMA : list (list nat) :=
  [[0; 1; 2; 3; 4; 5; 6; 7; 8; 9; 10; 11; 12; 13; 14; 15];
   [14; 10; 4; 8; 9; 15; 13; 6; 1; 12; 0; 2; 11; 7; 5; 3];
   [11; 8; 12; 0; 5; 2; 15; 13; 10; 14; 3; 6; 7; 1; 9; 4];
   [7; 9; 3; 1; 13; 12; 11; 14; 2; 6; 5; 10; 4; 0; 15; 8];
   [9; 0; 5; 7; 2; 4; 10; 15; 14; 1; 11; 12; 6; 8; 3; 13];
   [2; 12; 6; 10; 0; 11; 8; 3; 4; 13; 7; 5; 15; 14; 1; 9];
   [12; 5; 1; 15; 14; 13; 4; 10; 0; 7; 6; 3; 9; 2; 8; 11];
   [13; 11; 7; 14; 12; 1; 3; 9; 5; 0; 15; 4; 8; 6; 2; 10];
   [6; 15; 14; 9; 11; 3; 0; 8; 12; 2; 13; 7; 1; 4; 10; 5];
   [10; 2; 8; 4; 7; 6; 1; 5; 15; 11; 9; 14; 3; 12; 13; 0]]%nat.

Definition rotr32 (x n : Z) : Z :=
  Z.lor (Z.shiftr x n) (wrap32 (Z.shiftl x (32 - n))).

Definition word (v : list Z) (i : nat) : Z := nth i v 0.

Definition G (v : list Z) (a b c d : nat) (x y : Z) : list Z :=
  let va := wrap32 (word v a + word v b + x) in
  let vd := rotr32 (Z.lxor (word v d) va) 16 in
  let vc := wrap32 (word v c + vd) in
  let vb := rotr32 (Z.lxor (word v b) vc) 12 in
  let va := wrap32 (va + vb + y) in
  let vd := rotr32 (Z.lxor vd va) 8 in
  let vc := wrap32 (vc + vd) in
  let vb := rotr32 (Z.lxor vb vc) 7 in
  <[a := va]> (<[b := vb]> (<[c := vc]> (<[d := vd]> v))).

Definition round (m : list Z) (v : list Z) (s : list nat) : list Z :=
  let x i := word m (nth i s 0%nat) in
  let v := G v 0 4 8 12 (x 0%nat) (x 1%nat) in
  let v := G v 1 5 9 13 (x 2%nat) (x 3%nat) in
  let v := G v 2 6 10 14 (x 4%nat) (x 5%nat) in
  let v := G v 3 7 11 15 (x 6%nat) (x 7%nat) in
  let v := G v 0 5 10 15 (x 8%nat) (x 9%nat) in
  let v := G v 1 6 11 12 (x 10%nat) (x 11%nat) in
  let v := G v 2 7 8 13 (x 12%nat) (x 13%nat) in
  G v 3 4 9 14 (x 14%nat) (x 15%nat).

(** The sixteen little-endian words of a 64-byte block. *)
Definition block_words (block : list Z) : list Z :=
  map (fun i : nat =>
         word block (4 * i) + 2 ^ 8 * word block (4 * i + 1)
         + 2 ^ 16 * word block (4 * i + 2) + 2 ^ 24 * word block (4 * i + 3))
      (seq 0 16).

(** The compression function [F]. *)
Definition compress (h : list Z) (block : list Z) (t : Z) (last : bool) : list Z :=
  let v := h ++ IV in
  let v := <[12%nat := Z.lxor (word v 12) (wrap32 t)]> v in
  let v := <[13%nat := Z.lxor (word v 13) (wrap32 (Z.shiftr t 32))]> v in
  let v := if last then <[14%nat := Z.lxor (word v 14) 0xFFFFFFFF]> v else v in
  let v := foldl (round (block_words block)) v SIGMA in
  map (fun i : nat => Z.lxor (word h i) (Z.lxor (word v i) (word v (i + 8))))
      (seq 0 8).

Fixpoint absorb (fuel : nat) (h : list Z) (data : list Z) (t : Z) : list Z :=
  match fuel with
  | O => h
  | S fuel =>
      if Z.of_nat (length data) <=? 64
      then compress h (data ++ replicate (64 - length data) 0)
                    (t + Z.of_nat (length data)) true
      else absorb fuel (compress h (take 64 data) (t + 64) false)
                  (drop 64 data) (t + 64)
  end.

Definition hash (outlen : Z) (data : list Z) : list Z :=
  let h := <[0%nat := Z.lxor (word IV 0) (Z.lxor 0x01010000 outlen)]> IV in
  let h := absorb (S (length data)) h data 0 in
  take (Z.to_nat outlen)
       (flat_map (fun w => map (fun i => Z.land (Z.shiftr w (8 * i)) 255) (seqZ 0 4)) h).

End Blake2s.

Module Reference.

(** Modelled from the spec: [compare_uint256] of the absent [common.h].
    Both values are read as big-endian 256-bit numbers, from the most
    significant byte on, stopping at the first byte that differs; the
    candidate passes when it is at most the target.  [main] takes -1
    for a candidate that does not pass. *)
Fixpoint compare_uint256 (target hash : list Z) : Z :=
  match target, hash with
  | t :: target, h :: hash =>
      if t <? h then -1
      else if h <? t then 1
      else compare_uint256 target hash
  | _, _ => 0
  end.

(** Modelled from the spec: [hexchar2int] of the absent [common.h], the
    value of a hexadecimal digit. *)
Definition hexchar2int (c : ascii) : Z :=
  match digit_value c with
  | Some v => if v <? 16 then v else 0
  | None => 0
  end.

(** Modelled from the spec: a backend in place of the absent
    [opencl_backend.hpp], built from the Hash Oracle.  A dispatch
    evaluates the oracle on every nonce of the window
    [start_nonce, start_nonce + global_size * workset_size), lane after
    lane and in increasing order within a lane, and returns the first
    nonce that passes the comparator, or the sentinel 0.  The header
    length is not among the arguments of the two calls: the backend is
    set up for headers of [header_length] bytes. *)
Record state := {
  mode : embedding;
  global_size : Z;
  workset_size : Z;
  header : list Z;
  target : list Z;
}.

Definition passes (b : state) (nonce : Z) : bool :=
  negb (compare_uint256 (target b)
          (hash_oracle Blake2s.hash (mode b) nonce (header b)) =? -1).

Definition dispatchWindow (b : state) (start_nonce : Z) : Z :=
  match
    find (passes b)
         (map (fun i => wrap64 (start_nonce + i))
              (seqZ 0 (global_size b * workset_size b)))
  with
  | Some nonce => nonce
  | None => 0
  end.

Definition backend (header_length : Z) : OpenclBackend state :=
  {| backend_new _ _ _ _ _ alternativeNonce :=
       {| mode := mode_of alternativeNonce; global_size := 0;
          workset_size := 0; header := []; target := [] |};
     start_search b global_size _ workset_size buf target_hash :=
       {| mode := mode b; global_size := global_size;
          workset_size := workset_size;
          header := take (Z.to_nat header_length) buf;
          target := target_hash |};
     continue_search b start_nonce := (dispatchWindow b start_nonce, b) |}.

(** [main] run on the reference instances. *)
Definition run_main (header_length : Z) (fuel : nat) (inp : process_input) : run :=
  @main Blake2s.hash compare_uint256 hexchar2int state (backend header_length)
        fuel inp.

(** A backend that answers every dispatch with the same value, as an
    incorrect executor might. *)
Definition faulty_backend (answer : Z) : OpenclBackend unit :=
  {| backend_new _ _ _ _ _ _ := tt;
     start_search b _ _ _ _ _ := b;
     continue_search b _ := (answer, b) |}.

Definition run_faulty (answer : Z) (fuel : nat) (inp : process_input) : run :=
  @main Blake2s.hash compare_uint256 hexchar2int unit (faulty_backend answer)
        fuel inp.

End Reference.

(** Inputs to run the program on: a header of the minimum valid length,
    257 zero bytes, on standard input, a target of 64 hex digits as the
    operand, and options. *)
Module Scenario.

Definition header : list Z := replicate 257 0.

Definition target_max : string :=
  "ffffffffffffffffffffffffffffffffffffffffffffffffffffffffffffffff".

Definition target_zero : string :=
  "0000000000000000000000000000000000000000000000000000000000000000".

Definition input (opts : list (ascii * string)) (target : string)
    (urandom : option (list Z)) : process_input :=
  {| argc := 2 + 2 * Z.of_nat (length opts);
     options := opts;
     operand := Some target;
     stdin := header;
     urandom := urandom;
     stack := fun _ => 0xAA |}.

(** [-g 1 -w 1]: windows of one nonce. *)
Definition one_nonce_windows : list (ascii * string) :=
  [("g"%char, "1"%string); ("w"%char, "1"%string)].

(** [-n 0 -g 1 -w 1] with a target every digest satisfies. *)
Definition zero_override : process_input :=
  input (("n"%char, "0"%string) :: one_nonce_windows) target_max None.

(** [-n 80000000 -g 1 -w 1]. *)
Definition override_2_31 : process_input :=
  input (("n"%char, "80000000"%string) :: one_nonce_windows) target_max None.

(** [-g 1 -w 1], a target no digest of a searched nonce satisfies, and
    eight [ff] bytes from the entropy source. *)
Definition top_entropy : process_input :=
  input one_nonce_windows target_zero (Some (replicate 8 255)).

(** The same with an entropy source that opens and delivers nothing. *)
Definition empty_entropy : process_input :=
  input one_nonce_windows target_zero (Some []).

(** [-g -1 -w 2]. *)
Definition negative_global_size : process_input :=
  input [("g"%char, "-1"%string); ("w"%char, "2"%string)] target_max
        (Some (replicate 8 0)).

(** The configuration [-g 1 -w 1] leaves, with the nonce override [n]. *)
Definition config_one_nonce (n : option Z) : config :=
  {| quiet := true; deviceOverride := 0; platformOverride := -1;
     localWorkSize := 256; workSetSize := 1; globalSize := 1;
     nonceOverride := n; kernelPath := None; alternativeNonce := false |}.

(** [-v -h]. *)
Definition verbose_then_help : process_input :=
  input [("v"%char, ""%string); ("h"%char, ""%string)] target_max None.

(** [-w abc]. *)
Definition work_set_abc : process_input :=
  input [("w"%char, "abc"%string)] target_max None.

(** [-n -1 -g 1 -w 1], with an entropy source that cannot be opened. *)
Definition override_minus_one : process_input :=
  input (("n"%char, "-1"%string) :: one_nonce_windows) target_zero None.

(** [-n 00000000000000ff -g 1 -w 1]: the override written as the result
    line writes a nonce. *)
Definition override_printed : process_input :=
  input (("n"%char, hex16 255) :: one_nonce_windows) target_zero None.

(** [-n 5 -g 0 -w 1], and the configuration it leaves. *)
Definition zero_global_size : process_input :=
  input [("n"%char, "5"%string); ("g"%char, "0"%string); ("w"%char, "1"%string)]
        target_zero None.

Definition config_zero_global_size : config :=
  {| quiet := true; deviceOverride := 0; platformOverride := -1;
     localWorkSize := 256; workSetSize := 1; globalSize := 0;
     nonceOverride := Some 5; kernelPath := None; alternativeNonce := false |}.

(** [-v] and nothing after it: [argv[optind]] is the null pointer that
    ends [argv]. *)
Definition no_operand : process_input :=
  {| argc := 2;
     options := [("v"%char, ""%string)];
     operand := None;
     stdin := header;
     urandom := Some (replicate 8 0);
     stack := fun _ => 0xAA |}.

(** A target whose bytes are 0, 1, ..., 31, and the values of its
    digits. *)
Definition target_counting : string :=
  "000102030405060708090a0b0c0d0e0f101112131415161718191a1b1c1d1e1f".

Definition target_counting_digits : list Z :=
  flat_map (fun b => [b / 16; b mod 16]) (seqZ 0 32).

End Scenario.

(** * Properties *)

(** ** Wrap-around *)

Lemma wrap64_range z : 0 <= wrap64 z < 2 ^ 64.
Proof. unfold wrap64. apply Z.mod_pos_bound. lia. Qed.

Lemma wrap64_small z : 0 <= z < 2 ^ 64 -> wrap64 z = z.
Proof. intros H. unfold wrap64. apply Z.mod_small. exact H. Qed.

Lemma wrap64_add_l a b : wrap64 (wrap64 a + b) = wrap64 (a + b).
Proof. unfold wrap64. apply Zplus_mod_idemp_l. Qed.

(** Adding offsets below 2^64 to a base is injective modulo 2^64. *)
Lemma wrap64_add_inj s a b :
  0 <= a < 2 ^ 64 -> 0 <= b < 2 ^ 64 ->
  wrap64 (s + a) = wrap64 (s + b) -> a = b.
Proof.
  unfold wrap64. intros Ha Hb H.
  assert (E : (a - b) mod 2 ^ 64 = 0).
  { replace (a - b) with ((s + a) - (s + b)) by lia.
    rewrite Zminus_mod, H, Z.sub_diag. reflexivity. }
  apply Z.mod_divide in E; [|lia].
  destruct E as [q E]. nia.
Qed.

(** ** The bytes of a [uint64_t] *)

Lemma uint64_bytes_unfold n :
  uint64_bytes n =
  [uint64_byte n 0; uint64_byte n 1; uint64_byte n 2; uint64_byte n 3;
   uint64_byte n 4; uint64_byte n 5; uint64_byte n 6; uint64_byte n 7].
Proof. reflexivity. Qed.

Lemma uint64_bytes_length n : length (uint64_bytes n) = 8%nat.
Proof. reflexivity. Qed.

Lemma uint64_byte_div n i :
  0 <= i -> uint64_byte n i = (n / 256 ^ i) mod 256.
Proof.
  intros Hi. unfold uint64_byte.
  change 255 with (Z.ones 8).
  rewrite Z.land_ones by lia.
  rewrite Z.shiftr_div_pow2 by lia.
  replace (2 ^ (8 * i)) with (256 ^ i); [reflexivity|].
  change 256 with (2 ^ 8). rewrite <- Z.pow_mul_r by lia. reflexivity.
Qed.

Lemma uint64_bytes_lookup n (i : nat) :
  (i < 8)%nat -> uint64_bytes n !! i = Some ((n / 256 ^ Z.of_nat i) mod 256).
Proof.
  intros Hi. rewrite <- uint64_byte_div by lia.
  do 8 (destruct i as [|i]; [reflexivity|]). lia.
Qed.

(** Reading the eight bytes back gives the value: the serialization
    determines the nonce. *)
Lemma uint64_of_bytes_bytes n :
  0 <= n < 2 ^ 64 -> uint64_of_bytes (uint64_bytes n) = n.
Proof.
  intros Hn. rewrite uint64_bytes_unfold. cbn [uint64_of_bytes].
  rewrite !uint64_byte_div by lia.
  rewrite !Z.mod_mod by lia.
  change (256 ^ 0) with 1. change (256 ^ 1) with 256.
  change (256 ^ 2) with 65536. change (256 ^ 3) with 16777216.
  change (256 ^ 4) with 4294967296. change (256 ^ 5) with 1099511627776.
  change (256 ^ 6) with 281474976710656. change (256 ^ 7) with 72057594037927936.
  change (2 ^ 64) with 18446744073709551616 in Hn.
  Z.div_mod_to_equations. lia.
Qed.

Lemma uint64_bytes_inj n1 n2 :
  0 <= n1 < 2 ^ 64 -> 0 <= n2 < 2 ^ 64 ->
  uint64_bytes n1 = uint64_bytes n2 -> n1 = n2.
Proof.
  intros H1 H2 E.
  rewrite <- (uint64_of_bytes_bytes n1), <- (uint64_of_bytes_bytes n2) by assumption.
  congruence.
Qed.

Lemma uint64_of_bytes_range bs :
  0 <= uint64_of_bytes bs < 256 ^ Z.of_nat (length bs).
Proof.
  induction bs as [|b bs IH].
  - simpl. lia.
  - cbn [uint64_of_bytes length]. rewrite Nat2Z.inj_succ, Z.pow_succ_r by lia.
    pose proof (Z.mod_pos_bound b 256). lia.
Qed.

(** The eight bytes are the base-256 digits of the value, least
    significant first. *)
Lemma uint64_bytes_sum n :
  0 <= n < 2 ^ 64 ->
  Forall (fun b => 0 <= b < 256) (uint64_bytes n)
  /\ n = uint64_byte n 0 + 2 ^ 8 * uint64_byte n 1 + 2 ^ 16 * uint64_byte n 2
         + 2 ^ 24 * uint64_byte n 3 + 2 ^ 32 * uint64_byte n 4
         + 2 ^ 40 * uint64_byte n 5 + 2 ^ 48 * uint64_byte n 6
         + 2 ^ 56 * uint64_byte n 7.
Proof.
  intros Hn. rewrite uint64_bytes_unfold, !uint64_byte_div by lia. split.
  - repeat (constructor; [apply Z.mod_pos_bound; lia|]). constructor.
  - change (256 ^ 0) with 1. change (256 ^ 1) with 256.
    change (256 ^ 2) with 65536. change (256 ^ 3) with 16777216.
    change (256 ^ 4) with 4294967296. change (256 ^ 5) with 1099511627776.
    change (256 ^ 6) with 281474976710656.
    change (256 ^ 7) with 72057594037927936.
    change (2 ^ 8) with 256. change (2 ^ 16) with 65536.
    change (2 ^ 24) with 16777216. change (2 ^ 32) with 4294967296.
    change (2 ^ 40) with 1099511627776. change (2 ^ 48) with 281474976710656.
    change (2 ^ 56) with 72057594037927936.
    change (2 ^ 64) with 18446744073709551616 in Hn.
    Z.div_mod_to_equations. lia.
Qed.

(** ** Reads *)

Lemma mem_read_Some mem off len :
  0 <= off -> 0 <= len -> off + len <= Z.of_nat (length mem) ->
  mem_read mem off len = Some (take (Z.to_nat len) (drop (Z.to_nat off) mem)).
Proof. intros. unfold mem_read. rewrite decide_True by lia. reflexivity. Qed.

Lemma mem_write_Some mem off v :
  0 <= off < Z.of_nat (length mem) ->
  mem_write mem off v = Some (<[Z.to_nat off := v]> mem).
Proof. intros. unfold mem_write. rewrite decide_True by lia. reflexivity. Qed.

Lemma mem_read_uint64 n : mem_read (uint64_bytes n) 0 8 = Some (uint64_bytes n).
Proof. reflexivity. Qed.

Section Hashing.

Variable blake2s : Z -> list Z -> list Z.

(** What [ref_search_nonce] feeds the hash function for one nonce. *)
Lemma ref_hash_state_eq nonce buf last_block_size :
  0 <= last_block_size <= 64 ->
  248 + last_block_size <= Z.of_nat (length buf) ->
  ref_hash_state nonce buf last_block_size =
  Some {| outlen := BLAKE2S_OUTBYTES;
          absorbed := uint64_bytes nonce
                        ++ take (Z.to_nat (248 + last_block_size)) buf |}.
Proof.
  intros Hl Hb. unfold ref_hash_state, blake2s_update, blake2s_init.
  rewrite mem_read_uint64. cbn [mbind option_bind outlen absorbed].
  assert (E : wrap32 (wrap32 (320 - 64 + last_block_size) - 8) = 248 + last_block_size).
  { unfold wrap32. rewrite (Z.mod_small (320 - 64 + last_block_size)) by lia.
    rewrite Z.mod_small by lia. lia. }
  rewrite E, mem_read_Some by lia.
  reflexivity.
Qed.

(** What the verification guard feeds the hash function. *)
Lemma guard_hash_state_eq alt buf bufsize found :
  8 <= bufsize < 2 ^ 64 ->
  bufsize <= Z.of_nat (length buf) ->
  guard_hash_state alt buf bufsize found =
  Some {| outlen := BLAKE2S_OUTBYTES;
          absorbed := oracle_message (mode_of alt) found
                        (take (Z.to_nat bufsize) buf) |}.
Proof.
  intros Hs Hb. unfold guard_hash_state, blake2s_update, blake2s_init.
  rewrite wrap64_small by lia.
  destruct alt; cbn [mode_of oracle_message].
  - rewrite (mem_read_Some buf) by lia. cbn [mbind option_bind outlen absorbed].
    rewrite mem_read_uint64. cbn [mbind option_bind outlen absorbed app].
    rewrite length_take_le by lia. rewrite take_take.
    change (Z.to_nat 0) with 0%nat. rewrite drop_0. do 4 f_equal. lia.
  - rewrite mem_read_uint64. cbn [mbind option_bind outlen absorbed app].
    rewrite (mem_read_Some buf) by lia. cbn [mbind option_bind outlen absorbed].
    do 3 f_equal. change (Z.to_nat 8) with 8%nat.
    rewrite take_drop_commute. do 2 f_equal. lia.
Qed.

(** The guard computes the Hash Oracle on the header. *)
Lemma guard_hash_oracle alt buf bufsize found :
  8 <= bufsize < 2 ^ 64 ->
  bufsize <= Z.of_nat (length buf) ->
  guard_hash blake2s alt buf bufsize found =
  Some (hash_oracle blake2s (mode_of alt) found (take (Z.to_nat bufsize) buf)).
Proof.
  intros Hs Hb. unfold guard_hash.
  rewrite guard_hash_state_eq by assumption. reflexivity.
Qed.

Lemma ref_hash_eq nonce buf last_block_size :
  0 <= last_block_size <= 64 ->
  248 + last_block_size <= Z.of_nat (length buf) ->
  ref_hash blake2s nonce buf last_block_size =
  Some (blake2s BLAKE2S_OUTBYTES
          (uint64_bytes nonce ++ take (Z.to_nat (248 + last_block_size)) buf)).
Proof.
  intros Hl Hb. unfold ref_hash.
  rewrite ref_hash_state_eq by assumption. reflexivity.
Qed.

(** C10.  At the verification guard, in both embedding modes, and in
    [ref_search_nonce], the eight nonce bytes given to the hash function
    are the little-endian serialization of the 64-bit nonce: eight bytes
    [b0 .. b7], each below 256, with
    [nonce = b0 + 2^8 b1 + ... + 2^56 b7], least significant first (byte
    [i] is [nonce / 256^i mod 256]).  The digest the guard compares, in
    the loop of [main], and the digest whose verdict a lane writes are
    the hash function applied to the stream that holds these bytes: the
    header bytes [0, L - 8) followed by them in suffix mode, they
    followed by header bytes [8, L) in prefix mode, they followed by
    [L - 8] bytes of the buffer in [ref_search_nonce].  Two nonces give
    the same input stream exactly when they are equal; and the digest
    depends on the nonce through these bytes only. *)
Theorem nonce_bytes_little_endian (alt : bool) (buf : list Z) (bufsize n1 n2 : Z) :
  257 <= bufsize <= 320 ->
  bufsize <= Z.of_nat (length buf) ->
  0 <= n1 < 2 ^ 64 ->
  0 <= n2 < 2 ^ 64 ->
  let guard_stream n :=
    if alt
    then take (Z.to_nat (bufsize - 8)) buf ++ uint64_bytes n
    else uint64_bytes n ++ take (Z.to_nat (bufsize - 8)) (drop 8 buf) in
  let ref_stream n := uint64_bytes n ++ take (Z.to_nat (bufsize - 8)) buf in
  (exists b0 b1 b2 b3 b4 b5 b6 b7,
     uint64_bytes n1 = [b0; b1; b2; b3; b4; b5; b6; b7]
     /\ Forall (fun b => 0 <= b < 256) [b0; b1; b2; b3; b4; b5; b6; b7]
     /\ n1 = b0 + 2 ^ 8 * b1 + 2 ^ 16 * b2 + 2 ^ 24 * b3 + 2 ^ 32 * b4
             + 2 ^ 40 * b5 + 2 ^ 48 * b6 + 2 ^ 56 * b7)
  /\ (forall i : nat, (i < 8)%nat ->
        uint64_bytes n1 !! i = Some ((n1 / 256 ^ Z.of_nat i) mod 256))
  /\ length (uint64_bytes n1) = 8%nat
  /\ guard_hash_state alt buf bufsize n1 =
     Some {| outlen := BLAKE2S_OUTBYTES; absorbed := guard_stream n1 |}
  /\ ref_hash_state n1 buf (bufsize - 256) =
     Some {| outlen := BLAKE2S_OUTBYTES; absorbed := ref_stream n1 |}
  /\ guard_hash blake2s alt buf bufsize n1
     = Some (blake2s BLAKE2S_OUTBYTES (guard_stream n1))
  /\ ref_hash blake2s n1 buf (bufsize - 256)
     = Some (blake2s BLAKE2S_OUTBYTES (ref_stream n1))
  /\ (forall (compare_uint256 : list Z -> list Z -> Z)
             (target result : list Z) (slot : Z),
        ref_body blake2s compare_uint256 buf (bufsize - 256) target
                 (Some result) (n1, slot)
        = mem_write result slot
            (wrap8 (compare_uint256 target
                      (blake2s BLAKE2S_OUTBYTES (ref_stream n1)))))
  /\ (forall (compare_uint256 : list Z -> list Z -> Z)
             (target result : list Z),
        ref_search_nonce blake2s compare_uint256 0 n1 1 buf (bufsize - 256)
                         target result
        = mem_write result 0
            (wrap8 (compare_uint256 target
                      (blake2s BLAKE2S_OUTBYTES (ref_stream n1)))))
  /\ (forall (compare_uint256 : list Z -> list Z -> Z)
             (B : Type) (ops : OpenclBackend B)
             (e : search_env) (s : search_state) (b : B),
        env_alternativeNonce e = alt ->
        env_buf e = buf ->
        env_bufsize e = bufsize ->
        continue_search (backend s) (start_nonce s) = (n1, b) ->
        n1 <> 0 ->
        forall fuel,
          search_loop blake2s compare_uint256 (S fuel) e s
          = {| windows := [(start_nonce s, n1)];
               stdout :=
                 if compare_uint256 (env_target_hash e)
                      (blake2s BLAKE2S_OUTBYTES (guard_stream n1)) =? -1
                 then None
                 else Some (n1, wrap64 (size_t_of_int (wrap_int (steps s + 1))
                                        * env_nonce_step_size e));
               ending :=
                 if compare_uint256 (env_target_hash e)
                      (blake2s BLAKE2S_OUTBYTES (guard_stream n1)) =? -1
                 then Exited (-1)
                 else Returned 0 |})
  /\ (guard_stream n1 = guard_stream n2 <-> n1 = n2)
  /\ (ref_stream n1 = ref_stream n2 <-> n1 = n2)
  /\ (guard_hash_state alt buf bufsize n1 = guard_hash_state alt buf bufsize n2
      <-> n1 = n2)
  /\ (ref_hash_state n1 buf (bufsize - 256) = ref_hash_state n2 buf (bufsize - 256)
      <-> n1 = n2)
  /\ (forall m m' : Z, uint64_bytes m = uint64_bytes m' ->
        guard_hash blake2s alt buf bufsize m = guard_hash blake2s alt buf bufsize m'
        /\ ref_hash blake2s m buf (bufsize - 256)
           = ref_hash blake2s m' buf (bufsize - 256)).
Proof.
  intros Hs Hb H1 H2 guard_stream ref_stream.
  assert (G : forall n, guard_hash_state alt buf bufsize n =
     Some {| outlen := BLAKE2S_OUTBYTES; absorbed := guard_stream n |}).
  { intros n. rewrite guard_hash_state_eq by lia. unfold guard_stream.
    destruct alt; cbn [mode_of oracle_message]; do 3 f_equal.
    - rewrite length_take_le by lia. rewrite take_take. f_equal. lia.
    - rewrite take_drop_commute. do 2 f_equal. lia. }
  assert (R : forall n, ref_hash_state n buf (bufsize - 256) =
     Some {| outlen := BLAKE2S_OUTBYTES; absorbed := ref_stream n |}).
  { intros n. rewrite ref_hash_state_eq by lia. unfold ref_stream.
    do 5 f_equal. lia. }
  assert (GH : forall n, guard_hash blake2s alt buf bufsize n
                         = Some (blake2s BLAKE2S_OUTBYTES (guard_stream n))).
  { intros n. unfold guard_hash. rewrite G. reflexivity. }
  assert (RH : forall n, ref_hash blake2s n buf (bufsize - 256)
                         = Some (blake2s BLAKE2S_OUTBYTES (ref_stream n))).
  { intros n. unfold ref_hash. rewrite R. reflexivity. }
  assert (GI : guard_stream n1 = guard_stream n2 <-> n1 = n2).
  { split; [|intros ->; reflexivity]. unfold guard_stream. intros E.
    apply uint64_bytes_inj; try assumption.
    destruct alt; [eapply app_inv_head, E|eapply app_inv_tail, E]. }
  assert (RI : ref_stream n1 = ref_stream n2 <-> n1 = n2).
  { split; [|intros ->; reflexivity]. unfold ref_stream. intros E.
    apply uint64_bytes_inj; try assumption. eapply app_inv_tail, E. }
  split.
  { destruct (uint64_bytes_sum n1 H1) as [Hr Hsum].
    exists (uint64_byte n1 0), (uint64_byte n1 1), (uint64_byte n1 2),
      (uint64_byte n1 3), (uint64_byte n1 4), (uint64_byte n1 5),
      (uint64_byte n1 6), (uint64_byte n1 7).
    split; [apply uint64_bytes_unfold|]. split; [exact Hr|exact Hsum]. }
  split; [intros i Hi; apply uint64_bytes_lookup, Hi|].
  split; [apply uint64_bytes_length|].
  split; [apply G|]. split; [apply R|].
  split; [apply GH|]. split; [apply RH|].
  assert (RB : forall cmp target result slot,
            ref_body blake2s cmp buf (bufsize - 256) target (Some result) (n1, slot)
            = mem_write result slot
                (wrap8 (cmp target (blake2s BLAKE2S_OUTBYTES (ref_stream n1))))).
  { intros cmp target result slot. unfold ref_body.
    cbn [mbind option_bind fst snd]. rewrite RH. reflexivity. }
  split; [exact RB|].
  split.
  { intros cmp target result. unfold ref_search_nonce, ref_iterations.
    change (seqZ 0 1) with [0]. cbn [map foldl].
    change (wrap64 (wrap64 (0 * 1) + 0)) with 0.
    change (wrap64 (0 * 1)) with 0.
    rewrite !Z.add_0_r, !(wrap64_small n1 H1). apply RB. }
  split.
  { intros cmp B ops e s b Ea Eb Es Hc Hn fuel.
    cbn [search_loop]. unfold search_iteration.
    rewrite Hc, (wrap64_small n1 H1). apply Z.eqb_neq in Hn. rewrite Hn.
    cbn [negb]. rewrite Ea, Eb, Es, GH.
    destruct (cmp (env_target_hash e) _ =? -1); reflexivity. }
  split; [exact GI|]. split; [exact RI|].
  split; [|split].
  - rewrite !G. rewrite <- GI. split; [|intros ->; reflexivity].
    intros E. apply (f_equal (from_option absorbed [])) in E. exact E.
  - rewrite !R. rewrite <- RI. split; [|intros ->; reflexivity].
    intros E. apply (f_equal (from_option absorbed [])) in E. exact E.
  - intros m m' E. rewrite !GH, !RH. unfold guard_stream, ref_stream.
    rewrite E. split; reflexivity.
Qed.

(** C2, as the code has it.  For every nonce, mode and header of valid
    length [L] the digest the verification guard of [main] recomputes is
    the Hash Oracle's: in prefix mode the hash function applied to the
    nonce's 8 bytes followed by header bytes [8, L), in suffix mode to
    header bytes [0, L-8) followed by the nonce's 8 bytes.
    [ref_search_nonce] has no mode: it applies the hash function to the
    nonce's 8 bytes followed by [L - 8] bytes of its buffer. *)
Theorem guard_matches_hash_oracle (alt : bool) (buf : list Z) (bufsize nonce : Z) :
  257 <= bufsize <= 320 ->
  bufsize <= Z.of_nat (length buf) ->
  let header := take (Z.to_nat bufsize) buf in
  guard_hash blake2s alt buf bufsize nonce
  = Some (hash_oracle blake2s (mode_of alt) nonce header)
  /\ hash_oracle blake2s Prefix nonce header
     = blake2s BLAKE2S_OUTBYTES (uint64_bytes nonce ++ drop 8 header)
  /\ hash_oracle blake2s Suffix nonce header
     = blake2s BLAKE2S_OUTBYTES
         (take (Z.to_nat (bufsize - 8)) header ++ uint64_bytes nonce)
  /\ Z.of_nat (length (drop 8 header)) = bufsize - 8
  /\ (forall i : nat, Z.of_nat i < bufsize - 8 ->
        drop 8 header !! i = buf !! (8 + i)%nat)
  /\ Z.of_nat (length (take (Z.to_nat (bufsize - 8)) header)) = bufsize - 8
  /\ (forall i : nat, Z.of_nat i < bufsize - 8 ->
        take (Z.to_nat (bufsize - 8)) header !! i = buf !! i)
  /\ exists tail,
       ref_hash blake2s nonce buf (bufsize - 256)
       = Some (blake2s BLAKE2S_OUTBYTES (uint64_bytes nonce ++ tail))
       /\ Z.of_nat (length tail) = bufsize - 8.
Proof.
  intros Hs Hb header.
  split; [apply guard_hash_oracle; lia|].
  split.
  { reflexivity. }
  split.
  { unfold hash_oracle, oracle_message. do 3 f_equal.
    unfold header. rewrite length_take. lia. }
  split.
  { unfold header. rewrite length_drop, length_take. lia. }
  split.
  { intros i Hi. unfold header. rewrite lookup_drop, lookup_take_lt by lia.
    reflexivity. }
  split.
  { unfold header. rewrite !length_take. lia. }
  split.
  { intros i Hi. unfold header. rewrite !lookup_take_lt by lia. reflexivity. }
  exists (take (Z.to_nat (bufsize - 8)) buf). split.
  - rewrite ref_hash_eq by lia. do 4 f_equal. lia.
  - rewrite length_take. lia.
Qed.

End Hashing.

(** C2, where the statement fails.  On the header of 257 bytes
    [01 00 ... 00] and nonce 0, [ref_search_nonce] hashes the nonce
    followed by header bytes [0, 249), first byte [01], where the Hash
    Oracle in prefix mode, and the guard of [main], hash the nonce
    followed by header bytes [8, 257), all zero.  Its digest is neither
    the oracle's in prefix mode nor the oracle's in suffix mode, and the
    lane writes 255, for a digest above the target, although the oracle's
    digest is the target itself. *)
Lemma ref_search_nonce_hashes_header_start :
  ref_hash_state 0 (1 :: replicate 319 0) 1
  = Some {| outlen := 32; absorbed := replicate 8 0 ++ 1 :: replicate 248 0 |}
  /\ oracle_message Prefix 0 (1 :: replicate 256 0)
     = replicate 8 0 ++ replicate 249 0
  /\ ref_hash Blake2s.hash 0 (1 :: replicate 319 0) 1
     <> Some (hash_oracle Blake2s.hash Prefix 0 (1 :: replicate 256 0))
  /\ ref_hash Blake2s.hash 0 (1 :: replicate 319 0) 1
     <> Some (hash_oracle Blake2s.hash Suffix 0 (1 :: replicate 256 0))
  /\ guard_hash Blake2s.hash false (1 :: replicate 319 0) 257 0
     = Some (hash_oracle Blake2s.hash Prefix 0 (1 :: replicate 256 0))
  /\ ref_search_nonce Blake2s.hash Reference.compare_uint256 0 0 1
       (1 :: replicate 319 0) 1
       (hash_oracle Blake2s.hash Prefix 0 (1 :: replicate 256 0)) [7]
     = Some [255].
Proof.
  split; [vm_compute; reflexivity|].
  split; [vm_compute; reflexivity|].
  split; [vm_compute; intros E; discriminate E|].
  split; [vm_compute; intros E; discriminate E|].
  split; [vm_compute; reflexivity|].
  vm_compute; reflexivity.
Qed.

(** ** [ref_search_nonce]: the nonces of a lane and of a window *)

Lemma seqZ_shift m n : seqZ m n = map (fun j => m + j) (seqZ 0 n).
Proof.
  rewrite <- (Z.add_0_r m) at 1. rewrite <- fmap_add_seqZ. reflexivity.
Qed.

Lemma ref_iterations_eq gid start K :
  0 <= gid -> 0 <= K -> gid * K + K <= 2 ^ 64 ->
  ref_iterations gid start K
  = map (fun j => (wrap64 (start + (gid * K + j)), gid * K + j)) (seqZ 0 K).
Proof.
  intros Hg HK Hb. unfold ref_iterations.
  apply map_ext_in. intros j Hj.
  apply list_elem_of_In, elem_of_seqZ in Hj.
  assert (0 <= gid * K) by nia.
  rewrite (wrap64_small (gid * K)) by lia.
  rewrite wrap64_add_l, (wrap64_small (gid * K + j)) by lia.
  f_equal. f_equal. lia.
Qed.

Lemma ref_nonces_eq gid start K :
  0 <= gid -> 0 <= K -> gid * K + K <= 2 ^ 64 ->
  ref_nonces gid start K = map (fun j => wrap64 (start + (gid * K + j))) (seqZ 0 K).
Proof.
  intros. unfold ref_nonces. rewrite ref_iterations_eq by assumption.
  rewrite map_map. reflexivity.
Qed.

Lemma ref_slots_eq gid start K :
  0 <= gid -> 0 <= K -> gid * K + K <= 2 ^ 64 ->
  ref_slots gid start K = seqZ (gid * K) K.
Proof.
  intros. unfold ref_slots. rewrite ref_iterations_eq by assumption.
  rewrite map_map, (seqZ_shift (gid * K)). reflexivity.
Qed.

(** Lane after lane, the lanes go through the window in order. *)
Lemma window_nonces_eq start G K :
  0 <= G -> 0 <= K -> G * K <= 2 ^ 64 ->
  window_nonces start G K = map (fun t => wrap64 (start + t)) (seqZ 0 (G * K)).
Proof.
  intros HG HK. rewrite <- (Z2Nat.id G HG). clear HG.
  induction (Z.to_nat G) as [|g IH]; intros Hb.
  - reflexivity.
  - unfold window_nonces in *.
    rewrite seqZ_S, map_app, concat_app. cbn [map concat].
    rewrite app_nil_r, Z.add_0_l.
    rewrite IH by nia.
    rewrite ref_nonces_eq by nia.
    replace (Z.of_nat (S g) * K) with (Z.of_nat g * K + K) by lia.
    rewrite seqZ_app, map_app by nia.
    f_equal. rewrite Z.add_0_l, (seqZ_shift (Z.of_nat g * K)), map_map.
    reflexivity.
Qed.

Lemma window_nonces_NoDup start G K :
  0 <= G -> 0 <= K -> G * K <= 2 ^ 64 -> NoDup (window_nonces start G K).
Proof.
  intros HG HK Hb. rewrite window_nonces_eq by assumption.
  apply (NoDup_fmap_2_strong (fun t => wrap64 (start + t))); [|apply NoDup_seqZ].
  intros a b Ha%elem_of_seqZ Hb'%elem_of_seqZ E.
  eapply wrap64_add_inj; [| |exact E]; lia.
Qed.

Lemma elem_of_window_nonces start G K n :
  0 <= G -> 0 <= K -> G * K <= 2 ^ 64 ->
  n ∈ window_nonces start G K <-> exists t, 0 <= t < G * K /\ n = wrap64 (start + t).
Proof.
  intros HG HK Hb. rewrite window_nonces_eq by assumption.
  change (map ?f ?l) with (f <$> l). rewrite list_elem_of_fmap.
  split.
  - intros (t & -> & Ht%elem_of_seqZ). exists t. split; [lia|reflexivity].
  - intros (t & Ht & ->). exists t. split; [reflexivity|].
    apply elem_of_seqZ. lia.
Qed.

Lemma window_nonces_no_wrap start G K :
  0 <= start -> 0 <= G -> 0 <= K -> start + G * K <= 2 ^ 64 ->
  window_nonces start G K = seqZ start (G * K).
Proof.
  intros HS HG HK Hb. rewrite window_nonces_eq by nia.
  rewrite (seqZ_shift start).
  apply map_ext_in. intros t Ht%list_elem_of_In%elem_of_seqZ.
  apply wrap64_small. lia.
Qed.

Section RefSearch.

Variable blake2s : Z -> list Z -> list Z.
Variable compare_uint256 : list Z -> list Z -> Z.

(** The loop writes, for each iteration, the comparator's verdict on the
    digest of its nonce at its index, and nothing else. *)
Lemma ref_fold_writes (nonce_of : Z -> Z) base buf lbs target result (k : nat) :
  0 <= base ->
  base + Z.of_nat k <= Z.of_nat (length result) ->
  0 <= lbs <= 64 ->
  248 + lbs <= Z.of_nat (length buf) ->
  exists result',
    foldl (ref_body blake2s compare_uint256 buf lbs target) (Some result)
          (map (fun j => (nonce_of j, base + j)) (seqZ 0 (Z.of_nat k)))
    = Some result'
    /\ length result' = length result
    /\ (forall j : nat, (j < k)%nat ->
          result' !! (Z.to_nat base + j)%nat
          = Some (wrap8 (compare_uint256 target
                   (blake2s BLAKE2S_OUTBYTES
                      (uint64_bytes (nonce_of (Z.of_nat j))
                         ++ take (Z.to_nat (248 + lbs)) buf)))))
    /\ (forall i : nat, (i < Z.to_nat base \/ Z.to_nat base + k <= i)%nat ->
          result' !! i = result !! i).
Proof.
  intros Hbase Hlen Hl Hb. induction k as [|k IH].
  - exists result. split; [reflexivity|]. split; [reflexivity|].
    split; [intros j Hj; lia|intros; reflexivity].
  - destruct IH as (r & Hr & Hlr & Hin & Hout); [lia|].
    rewrite seqZ_S, map_app, foldl_app, Hr. cbn [map foldl].
    unfold ref_body at 1. cbn [mbind option_bind fst snd].
    rewrite ref_hash_eq by assumption. cbn [mbind option_bind].
    rewrite mem_write_Some by lia.
    eexists. split; [reflexivity|].
    split; [rewrite length_insert; exact Hlr|].
    replace (Z.to_nat (base + (0 + Z.of_nat k))) with (Z.to_nat base + k)%nat by lia.
    split.
    + intros j Hj. destruct (decide (j = k)) as [->|Hne].
      * rewrite list_lookup_insert_eq by lia. rewrite Z.add_0_l. reflexivity.
      * rewrite list_lookup_insert_ne by lia. apply Hin. lia.
    + intros i Hi. rewrite list_lookup_insert_ne by lia. apply Hout. lia.
Qed.

Lemma ref_search_nonce_writes gid start K buf lbs target result :
  0 <= gid -> 0 <= K -> gid * K + K <= 2 ^ 64 ->
  gid * K + K <= Z.of_nat (length result) ->
  0 <= lbs <= 64 ->
  248 + lbs <= Z.of_nat (length buf) ->
  exists result',
    ref_search_nonce blake2s compare_uint256 gid start K buf lbs target result
    = Some result'
    /\ length result' = length result
    /\ (forall j, 0 <= j < K ->
          result' !! Z.to_nat (gid * K + j)
          = Some (wrap8 (compare_uint256 target
                   (blake2s BLAKE2S_OUTBYTES
                      (uint64_bytes (wrap64 (start + (gid * K + j)))
                         ++ take (Z.to_nat (248 + lbs)) buf)))))
    /\ (forall i : nat, ~ (gid * K <= Z.of_nat i < gid * K + K) ->
          result' !! i = result !! i).
Proof.
  intros Hg HK Hw Hr Hl Hb.
  assert (0 <= gid * K) by nia.
  unfold ref_search_nonce. rewrite ref_iterations_eq by assumption.
  destruct (ref_fold_writes (fun j => wrap64 (start + (gid * K + j)))
              (gid * K) buf lbs target result (Z.to_nat K))
    as (r & Hf & Hlr & Hin & Hout); try assumption; [lia|].
  rewrite Z2Nat.id in Hf by assumption.
  exists r. split; [exact Hf|]. split; [exact Hlr|]. split.
  - intros j Hj. specialize (Hin (Z.to_nat j)).
    rewrite Z2Nat.id in Hin by lia.
    replace (Z.to_nat (gid * K + j)) with (Z.to_nat (gid * K) + Z.to_nat j)%nat by lia.
    apply Hin. lia.
  - intros i Hi. apply Hout. lia.
Qed.

(** C6, as the code has it.  For a start nonce [start], positive
    [G] and [K] with [G * K < 2^64] and a lane [gid < G],
    [ref_search_nonce] hashes the nonces [(start + gid*K + j) mod 2^64],
    [j = 0 .. K-1], in this order, and writes the verdict on nonce [j] at
    index [gid*K + j], an index no other lane and no other [j] has; over
    the lanes the nonces are pairwise distinct and are the window
    [start, start + G*K) taken modulo 2^64.  When [start + G*K <= 2^64]
    the lane's nonces are [start + gid*K + j] themselves, in increasing
    order, and the window is [start, start + G*K) without duplicate or
    gap. *)
Theorem ref_search_nonce_covers_window
    (start G K gid : Z) (buf : list Z) (lbs : Z) (target result : list Z) :
  0 <= start < 2 ^ 64 ->
  0 < G -> 0 < K -> G * K < 2 ^ 64 ->
  0 <= gid < G ->
  0 <= lbs <= 64 ->
  248 + lbs <= Z.of_nat (length buf) ->
  G * K <= Z.of_nat (length result) ->
  ref_nonces gid start K
  = map (fun j => wrap64 (start + gid * K + j)) (seqZ 0 K)
  /\ ref_slots gid start K = map (fun j => gid * K + j) (seqZ 0 K)
  /\ (exists result',
        ref_search_nonce blake2s compare_uint256 gid start K buf lbs target result
        = Some result'
        /\ (forall j, 0 <= j < K ->
              result' !! Z.to_nat (gid * K + j)
              = Some (wrap8 (compare_uint256 target
                       (blake2s BLAKE2S_OUTBYTES
                          (uint64_bytes (wrap64 (start + gid * K + j))
                             ++ take (Z.to_nat (248 + lbs)) buf)))))
        /\ (forall i : nat, ~ (gid * K <= Z.of_nat i < gid * K + K) ->
              result' !! i = result !! i))
  /\ (forall gid' j j',
        0 <= gid' < G -> 0 <= j < K -> 0 <= j' < K ->
        gid * K + j = gid' * K + j' -> gid = gid' /\ j = j')
  /\ window_nonces start G K = map (fun t => wrap64 (start + t)) (seqZ 0 (G * K))
  /\ NoDup (window_nonces start G K)
  /\ (forall n, n ∈ window_nonces start G K
                <-> exists t, 0 <= t < G * K /\ n = wrap64 (start + t))
  /\ (start + G * K <= 2 ^ 64 ->
        ref_nonces gid start K = seqZ (start + gid * K) K
        /\ window_nonces start G K = seqZ start (G * K)
        /\ (forall n, n ∈ window_nonces start G K <-> start <= n < start + G * K)).
Proof.
  intros Hs HG HK HGK Hgid Hl Hb Hr.
  assert (Hlane : gid * K + K <= G * K) by nia.
  assert (Hpos : 0 <= gid * K) by nia.
  split.
  { rewrite ref_nonces_eq by lia. apply map_ext. intros j. f_equal. lia. }
  split.
  { rewrite ref_slots_eq by lia. apply seqZ_shift. }
  split.
  { destruct (ref_search_nonce_writes gid start K buf lbs target result)
      as (r & Hf & _ & Hin & Hout); try lia.
    exists r. split; [exact Hf|]. split; [|exact Hout].
    intros j Hj. rewrite <- Z.add_assoc. apply Hin, Hj. }
  split.
  { intros gid' j j' Hg' Hj Hj' E.
    assert (gid = gid') by nia. subst gid'. split; [reflexivity|lia]. }
  split; [apply window_nonces_eq; lia|].
  split; [apply window_nonces_NoDup; lia|].
  split; [intros n; apply elem_of_window_nonces; lia|].
  intros Hnw.
  split.
  { rewrite ref_nonces_eq, (seqZ_shift (start + gid * K)) by lia.
    apply map_ext_in. intros j Hj%list_elem_of_In%elem_of_seqZ.
    rewrite wrap64_small by lia. lia. }
  split; [apply window_nonces_no_wrap; lia|].
  intros n. rewrite window_nonces_no_wrap by lia.
  rewrite elem_of_seqZ. lia.
Qed.

End RefSearch.

(** C6, where the statement without the reduction modulo 2^64 fails:
    from [start = 2^64 - 1] a lane with a work set of 2 hashes
    [2^64 - 1] and then 0, not [2^64 - 1] and [2^64]; the second nonce is
    below the first and outside [start, start + 2). *)
Lemma ref_search_nonce_wraps_at_top :
  ref_nonces 0 (2 ^ 64 - 1) 2 = [2 ^ 64 - 1; 0]
  /\ ref_nonces 0 (2 ^ 64 - 1) 2
     <> map (fun j => 2 ^ 64 - 1 + 0 * 2 + j) (seqZ 0 2)
  /\ 0 ∈ window_nonces (2 ^ 64 - 1) 1 2
  /\ ~ (2 ^ 64 - 1 <= 0 < 2 ^ 64 - 1 + 1 * 2).
Proof.
  split; [vm_compute; reflexivity|].
  split; [vm_compute; intros E; discriminate E|].
  split; [vm_compute; apply list_elem_of_In; right; left; reflexivity|].
  vm_compute. intros [H _]. apply H. reflexivity.
Qed.

(** ** The header intake *)

Lemma fread_buf_count inp :
  snd (fread_buf inp) = Z.min (Z.of_nat (length (stdin inp))) BUF_SIZE.
Proof.
  unfold fread_buf. cbn [snd]. rewrite length_take.
  unfold BUF_SIZE. lia.
Qed.

Lemma fread_buf_length inp :
  Z.of_nat (length (fst (fread_buf inp))) = BUF_SIZE.
Proof.
  unfold fread_buf. cbn [fst].
  rewrite length_app, length_map, length_seq, length_take.
  unfold BUF_SIZE. lia.
Qed.

Lemma fread_buf_lookup inp (i : nat) :
  Z.of_nat i < snd (fread_buf inp) ->
  fst (fread_buf inp) !! i = stdin inp !! i.
Proof.
  intros Hi. rewrite fread_buf_count in Hi. unfold fread_buf. cbn [fst].
  rewrite lookup_app_l by (rewrite length_take; unfold BUF_SIZE in *; lia).
  apply lookup_take_lt. unfold BUF_SIZE in *. lia.
Qed.

Lemma memset_Some mem off v len :
  0 <= off -> 0 <= len -> off + len <= Z.of_nat (length mem) ->
  memset mem off v len
  = Some (take (Z.to_nat off) mem ++ replicate (Z.to_nat len) v
            ++ drop (Z.to_nat (off + len)) mem).
Proof. intros. unfold memset. rewrite decide_True by lia. reflexivity. Qed.

(** The buffer [read_header] hands on when it accepts [n] bytes. *)
Lemma read_header_accepts inp :
  let n := snd (fread_buf inp) in
  257 <= n <= 320 ->
  read_header inp
  = inr (take (Z.to_nat n) (fst (fread_buf inp))
           ++ replicate (Z.to_nat (320 - n)) 0
           ++ drop 320 (fst (fread_buf inp)),
         n, n - 256).
Proof.
  intros n Hn. unfold read_header.
  pose proof (fread_buf_length inp) as Hlen.
  destruct (fread_buf inp) as [buf bufsize] eqn:E. cbn [fst snd] in *.
  subst n. unfold BUF_SIZE in *.
  replace (8 <=? bufsize) with true by lia.
  replace (bufsize <? 4 * 1024) with true by lia.
  replace ((320 - 64 + 1 <=? bufsize) && (bufsize <=? 320)) with true by lia.
  cbn [negb].
  assert (E1 : wrap32 (bufsize - (320 - 64)) = bufsize - 256).
  { unfold wrap32. rewrite Z.mod_small by lia. lia. }
  rewrite E1.
  assert (E2 : wrap32 (64 - (bufsize - 256)) = 320 - bufsize).
  { unfold wrap32. rewrite Z.mod_small by lia. lia. }
  rewrite E2, memset_Some by lia.
  replace (256 + (bufsize - 256)) with bufsize by lia.
  replace (bufsize + (320 - bufsize)) with 320 by lia.
  reflexivity.
Qed.

Lemma read_header_rejects inp :
  ~ (257 <= snd (fread_buf inp) <= 320) ->
  read_header inp = inl AssertFailed.
Proof.
  intros Hn. unfold read_header.
  destruct (fread_buf inp) as [buf bufsize]. cbn [snd] in Hn.
  destruct (8 <=? bufsize) eqn:E1; [|reflexivity].
  destruct (bufsize <? BUF_SIZE) eqn:E2; [|reflexivity].
  destruct ((320 - 64 + 1 <=? bufsize) && (bufsize <=? 320)) eqn:E3; [|reflexivity].
  exfalso. apply Hn. lia.
Qed.

Lemma read_header_inv inp buf bufsize last_block_size :
  read_header inp = inr (buf, bufsize, last_block_size) ->
  bufsize = snd (fread_buf inp)
  /\ 257 <= bufsize <= 320
  /\ last_block_size = bufsize - 256
  /\ Z.of_nat (length buf) = BUF_SIZE
  /\ (forall i : nat, Z.of_nat i < bufsize -> buf !! i = stdin inp !! i)
  /\ (forall i : nat, bufsize <= Z.of_nat i < 320 -> buf !! i = Some 0).
Proof.
  intros H.
  pose proof (fread_buf_length inp) as Hlen.
  pose proof (fread_buf_lookup inp) as Hlk.
  pose proof (read_header_accepts inp) as Ha.
  pose proof (read_header_rejects inp) as Hr.
  cbv zeta in Ha.
  destruct (fread_buf inp) as [b n]. cbn [fst snd] in *.
  unfold BUF_SIZE in *.
  destruct (decide (257 <= n <= 320)) as [Hn|Hn].
  - rewrite Ha in H by exact Hn. injection H as <- <- <-.
    split; [reflexivity|]. split; [exact Hn|]. split; [reflexivity|].
    split; [|split].
    + rewrite !length_app, length_take, length_replicate, length_drop. lia.
    + intros i Hi. rewrite lookup_app_l by (rewrite length_take; lia).
      rewrite lookup_take_lt by lia. apply Hlk, Hi.
    + intros i Hi. rewrite lookup_app_r by (rewrite length_take; lia).
      rewrite length_take.
      rewrite lookup_app_l by (rewrite length_replicate; lia).
      apply lookup_replicate_2. lia.
  - rewrite Hr in H by exact Hn. discriminate H.
Qed.

(** ** The command line *)

Lemma stoi_range str base v :
  stoi str base = inr v -> INT_MIN <= v <= INT_MAX.
Proof.
  unfold stoi. destruct (strtol str base) as [z|]; [|discriminate].
  destruct ((INT_MIN <=? z) && (z <=? INT_MAX)) eqn:E; [|discriminate].
  intros [= <-]. lia.
Qed.

Lemma with_int_cases str base k :
  match with_int str base k with
  | inl t => exists e, stoi str base = inl e /\ t = Uncaught e
  | inr c => exists v, stoi str base = inr v /\ c = k v
  end.
Proof.
  unfold with_int. destruct (stoi str base) as [e|v]; eauto.
Qed.

(** An option ends the run with [usage] or an exception of [stoi], or
    it leaves the nonce override alone or, for [-n], sets it to an [int]
    converted to [uint64_t]. *)
Lemma handle_option_cases c opt optarg :
  match handle_option c opt optarg with
  | inl t => t = Exited 1 \/ exists e, t = Uncaught e
  | inr c' =>
      nonceOverride c' = nonceOverride c
      \/ (opt = "n"%char
          /\ exists v, stoi optarg 16 = inr v
                       /\ nonceOverride c' = Some (size_t_of_int v))
  end.
Proof.
  destruct opt as [b0 b1 b2 b3 b4 b5 b6 b7].
  destruct b0, b1, b2, b3, b4, b5, b6, b7; cbn [handle_option];
    try (left; reflexivity);
    try (pose proof (with_int_cases optarg 10) as Hw;
         match goal with
         | |- context [with_int optarg 10 ?k] =>
             specialize (Hw k); destruct (with_int optarg 10 k);
             [destruct Hw as (e & _ & ->); right; eauto
             |destruct Hw as (v & _ & ->); left; reflexivity]
         end).
  pose proof (with_int_cases optarg 16) as Hw.
  match goal with
  | |- context [with_int optarg 16 ?k] =>
      specialize (Hw k); destruct (with_int optarg 16 k);
      [destruct Hw as (e & _ & ->); right; eauto
      |destruct Hw as (v & Hv & ->); right; split; [reflexivity|]; eauto]
  end.
Qed.

Lemma parse_options_fatal c0 opts t :
  parse_options c0 opts = inl t -> t = Exited 1 \/ exists e, t = Uncaught e.
Proof.
  revert c0. induction opts as [|[opt optarg] opts IH]; intros c0; [discriminate|].
  cbn [parse_options]. pose proof (handle_option_cases c0 opt optarg) as Hh.
  destruct (handle_option c0 opt optarg) as [t'|c']; [|apply IH].
  intros [= <-]. exact Hh.
Qed.

(** Whatever the options, a nonce override is an [int] converted to
    [uint64_t]. *)
Lemma parse_options_nonce c0 opts c :
  parse_options c0 opts = inr c ->
  nonceOverride c = nonceOverride c0
  \/ exists v, INT_MIN <= v <= INT_MAX /\ nonceOverride c = Some (size_t_of_int v).
Proof.
  revert c0. induction opts as [|[opt optarg] opts IH]; intros c0.
  - intros [= <-]. left. reflexivity.
  - cbn [parse_options]. pose proof (handle_option_cases c0 opt optarg) as Hh.
    destruct (handle_option c0 opt optarg) as [t'|c']; [discriminate|].
    intros Hp. destruct (IH _ Hp) as [E|E]; [|right; exact E].
    rewrite E. destruct Hh as [Hh|(_ & v & Hv & Hh)]; [left; exact Hh|].
    right. exists v. split; [eapply stoi_range, Hv|exact Hh].
Qed.

Lemma nonce_override_range opts c n :
  parse_options default_config opts = inr c ->
  nonceOverride c = Some n ->
  0 <= n < 2 ^ 31 \/ 2 ^ 64 - 2 ^ 31 <= n < 2 ^ 64.
Proof.
  intros Hp Hn. destruct (parse_options_nonce _ _ _ Hp) as [E|(v & Hv & E)].
  - rewrite Hn in E. discriminate E.
  - rewrite Hn in E. injection E as ->.
    unfold size_t_of_int, wrap64, INT_MIN, INT_MAX in *.
    destruct (decide (0 <= v)).
    + left. rewrite Z.mod_small by lia. lia.
    + right. replace v with (v + 2 ^ 64 - 1 * 2 ^ 64) by lia.
      rewrite Zminus_mod, Z_mod_mult, Z.sub_0_r, Z.mod_mod, Z.mod_small by lia.
      lia.
Qed.

(** ** A nonce in the program's own output format as an override *)

Lemma hex_digit_cases (P : Z -> Prop) d :
  0 <= d < 16 ->
  P 0 -> P 1 -> P 2 -> P 3 -> P 4 -> P 5 -> P 6 -> P 7 ->
  P 8 -> P 9 -> P 10 -> P 11 -> P 12 -> P 13 -> P 14 -> P 15 -> P d.
Proof.
  intros Hd.
  assert (E : d = 0 \/ d = 1 \/ d = 2 \/ d = 3 \/ d = 4 \/ d = 5 \/ d = 6
              \/ d = 7 \/ d = 8 \/ d = 9 \/ d = 10 \/ d = 11 \/ d = 12
              \/ d = 13 \/ d = 14 \/ d = 15) by lia.
  intros. repeat (destruct E as [->|E]; [assumption|]). subst. assumption.
Qed.

Lemma digit_value_hex_digit d :
  0 <= d < 16 -> digit_value (hex_digit d) = Some d.
Proof. intros Hd. pattern d. apply (hex_digit_cases _ d Hd); reflexivity. Qed.

Lemma isspace_hex_digit d : 0 <= d < 16 -> isspace (hex_digit d) = false.
Proof. intros Hd. pattern d. apply (hex_digit_cases _ d Hd); reflexivity. Qed.

Lemma read_sign_hex_digit d r :
  0 <= d < 16 ->
  read_sign (String (hex_digit d) r) = (false, String (hex_digit d) r).
Proof. intros Hd. pattern d. apply (hex_digit_cases _ d Hd); reflexivity. Qed.

Lemma skip_prefix_hex_digit c d r :
  0 <= d < 16 ->
  skip_prefix 16 (String c (String (hex_digit d) r))
  = String c (String (hex_digit d) r).
Proof.
  intros Hd. unfold skip_prefix.
  destruct c as [[] [] [] [] [] [] [] []]; try reflexivity.
  destruct r as [|x r]; [reflexivity|].
  pattern d. apply (hex_digit_cases _ d Hd); reflexivity.
Qed.

Lemma read_digits_hex ds acc any :
  Forall (fun d => 0 <= d < 16) ds ->
  read_digits 16 (string_of_list_ascii (map hex_digit ds)) acc any
  = if any || negb (Nat.eqb (length ds) 0)
    then Some (fold_left (fun a d => a * 16 + d) ds acc)
    else None.
Proof.
  intros H. revert acc any. induction H as [|d ds Hd _ IH]; intros acc any.
  - cbn. destruct any; reflexivity.
  - cbn [map string_of_list_ascii read_digits length fold_left].
    rewrite digit_value_hex_digit by exact Hd.
    replace (d <? 16) with true by lia.
    rewrite IH. cbn. rewrite orb_true_r. reflexivity.
Qed.

Lemma hex16_digits_range v : Forall (fun d => 0 <= d < 16) (hex16_digits v).
Proof.
  unfold hex16_digits.
  change (rev (seqZ 0 16)) with [15;14;13;12;11;10;9;8;7;6;5;4;3;2;1;0].
  cbn [map]. repeat (constructor; [apply Z.mod_pos_bound; lia|]). constructor.
Qed.

Lemma hex16_digits_value v :
  0 <= v < 2 ^ 64 ->
  fold_left (fun a d => a * 16 + d) (hex16_digits v) 0 = v.
Proof.
  intros Hv. unfold hex16_digits.
  change (rev (seqZ 0 16)) with [15;14;13;12;11;10;9;8;7;6;5;4;3;2;1;0].
  cbn [map fold_left].
  change (2 ^ 64) with 18446744073709551616 in Hv.
  change (16 ^ 0) with 1. change (16 ^ 1) with 16. change (16 ^ 2) with 256.
  change (16 ^ 3) with 4096. change (16 ^ 4) with 65536.
  change (16 ^ 5) with 1048576. change (16 ^ 6) with 16777216.
  change (16 ^ 7) with 268435456. change (16 ^ 8) with 4294967296.
  change (16 ^ 9) with 68719476736. change (16 ^ 10) with 1099511627776.
  change (16 ^ 11) with 17592186044416. change (16 ^ 12) with 281474976710656.
  change (16 ^ 13) with 4503599627370496.
  change (16 ^ 14) with 72057594037927936.
  change (16 ^ 15) with 1152921504606846976.
  Z.div_mod_to_equations. lia.
Qed.

Lemma strtol_hex16 v :
  0 <= v < 2 ^ 64 -> strtol (hex16 v) 16 = Some v.
Proof.
  intros Hv. unfold strtol, hex16.
  pose proof (hex16_digits_range v) as Hr.
  pose proof (hex16_digits_value v Hv) as Hval.
  pose proof (read_digits_hex (hex16_digits v) 0 false Hr) as Hrd.
  assert (Hlen : length (hex16_digits v) = 16%nat) by reflexivity.
  destruct (hex16_digits v) as [|d0 [|d1 ds]]; try discriminate Hlen.
  pose proof (Forall_inv Hr) as Hd0.
  pose proof (Forall_inv (Forall_inv_tail Hr)) as Hd1. cbn beta in Hd0, Hd1.
  cbn [map string_of_list_ascii skip_spaces] in *.
  rewrite isspace_hex_digit, read_sign_hex_digit, skip_prefix_hex_digit
    by assumption.
  rewrite Hrd. cbn -[fold_left]. rewrite Hval. reflexivity.
Qed.

Lemma stoi_hex16 v :
  0 <= v < 2 ^ 64 ->
  stoi (hex16 v) 16 = if v <=? INT_MAX then inr v else inl out_of_range.
Proof.
  intros Hv. unfold stoi. rewrite strtol_hex16 by exact Hv.
  unfold INT_MIN, INT_MAX.
  replace (- 2 ^ 31 <=? v) with true by lia. reflexivity.
Qed.

(** Sizes given as positive [int]s have a product below 2^62: with such
    options [global_size * workset_size] does not pass 2^64. *)
Lemma positive_sizes_product G K :
  0 < G <= INT_MAX -> 0 < K <= INT_MAX ->
  size_t_of_int G * size_t_of_int K < 2 ^ 62
  /\ wrap64 (size_t_of_int G * size_t_of_int K) = G * K.
Proof.
  unfold INT_MAX, size_t_of_int. intros HG HK.
  rewrite (wrap64_small G), (wrap64_small K) by lia.
  assert (G * K < 2 ^ 62) by nia.
  split; [assumption|]. apply wrap64_small. nia.
Qed.

(** ** The start nonce *)

Lemma uint64_bytes_0 : uint64_bytes 0 = replicate 8 0.
Proof. reflexivity. Qed.

Lemma initial_start_nonce_urandom c bytes :
  nonceOverride c = None ->
  initial_start_nonce c (Some bytes)
  = Some (uint64_of_bytes (take 8 bytes ++ replicate (8 - length (take 8 bytes)) 0)).
Proof.
  intros Hn. unfold initial_start_nonce. rewrite Hn, uint64_bytes_0, drop_replicate.
  reflexivity.
Qed.

Lemma initial_start_nonce_range opts c u start :
  parse_options default_config opts = inr c ->
  initial_start_nonce c u = Some start ->
  0 <= start < 2 ^ 64.
Proof.
  intros Hp. unfold initial_start_nonce.
  destruct (nonceOverride c) as [n|] eqn:En.
  - intros [= <-]. destruct (nonce_override_range _ _ _ Hp En); lia.
  - destruct u as [bytes|]; [|discriminate]. intros [= <-].
    match goal with |- 0 <= uint64_of_bytes ?l < _ =>
      pose proof (uint64_of_bytes_range l) as Hr;
      assert (El : length l = 8%nat)
    end.
    { rewrite length_app, length_drop, uint64_bytes_length, length_take. lia. }
    rewrite El in Hr. exact Hr.
Qed.

(** ** The search loop *)

Section Main.

Variable blake2s : Z -> list Z -> list Z.
Variable compare_uint256 : list Z -> list Z -> Z.
Variable hexchar2int : ascii -> Z.
Context {B : Type} {backend_ops : OpenclBackend B}.

Local Abbreviation search_loop' := (search_loop blake2s compare_uint256).
Local Abbreviation setup' := (setup hexchar2int).
Local Abbreviation main' := (main blake2s compare_uint256 hexchar2int).
Local Abbreviation guard_hash' := (guard_hash blake2s).

(** The state a miss leads to. *)
Local Abbreviation advance e s b :=
  {| start_nonce := wrap64 (start_nonce s + env_nonce_step_size e);
     steps := wrap_int (steps s + 1);
     backend := b |}.

(** A window without a candidate: the loop goes on from the next start. *)
Lemma search_loop_miss fuel e s found b :
  continue_search (backend s) (start_nonce s) = (found, b) ->
  wrap64 found = 0 ->
  search_loop' (S fuel) e s
  = let r := search_loop' fuel e (advance e s b) in
    {| windows := (start_nonce s, 0) :: windows r;
       stdout := stdout r;
       ending := ending r |}.
Proof.
  intros Hc Hf. cbn [search_loop]. unfold search_iteration.
  rewrite Hc, Hf. reflexivity.
Qed.

(** A window with a candidate: the guard decides. *)
Lemma search_loop_hit fuel e s found b :
  continue_search (backend s) (start_nonce s) = (found, b) ->
  wrap64 found <> 0 ->
  search_loop' (S fuel) e s
  = match guard_hash' (env_alternativeNonce e) (env_buf e) (env_bufsize e)
                     (wrap64 found) with
    | None =>
        {| windows := [(start_nonce s, wrap64 found)];
           stdout := None; ending := Undefined |}
    | Some hash =>
        if compare_uint256 (env_target_hash e) hash =? -1
        then {| windows := [(start_nonce s, wrap64 found)];
                stdout := None; ending := Exited (-1) |}
        else {| windows := [(start_nonce s, wrap64 found)];
                stdout :=
                  Some (wrap64 found,
                        wrap64 (size_t_of_int (wrap_int (steps s + 1))
                                * env_nonce_step_size e));
                ending := Returned 0 |}
    end.
Proof.
  intros Hc Hf. cbn [search_loop]. unfold search_iteration.
  rewrite Hc. apply Z.eqb_neq in Hf. rewrite Hf. cbn [negb].
  destruct (guard_hash' _ _ _ _) as [hash|]; [|reflexivity].
  destruct (compare_uint256 _ hash =? -1); reflexivity.
Qed.

(** Case analysis on the first window of a loop with fuel left. *)
Ltac first_window e s fuel :=
  let found := fresh "found" in
  let b := fresh "b" in
  let Hc := fresh "Hc" in
  let Hf := fresh "Hf" in
  destruct (continue_search (backend s) (start_nonce s)) as [found b] eqn:Hc;
  destruct (decide (wrap64 found = 0)) as [Hf|Hf];
  [ rewrite (search_loop_miss fuel e s found b Hc Hf); cbv zeta
  | rewrite (search_loop_hit fuel e s found b Hc Hf);
    destruct (guard_hash' (env_alternativeNonce e) (env_buf e) (env_bufsize e)
                         (wrap64 found)) as [hash|] eqn:Hg;
    [ destruct (compare_uint256 (env_target_hash e) hash =? -1) eqn:Hcmp | ] ].

Lemma search_loop_length fuel e s :
  (length (windows (search_loop' fuel e s)) <= fuel)%nat.
Proof.
  revert s. induction fuel as [|fuel IH]; intros s; [cbn; lia|].
  first_window e s fuel; cbn [windows length]; try lia.
  specialize (IH (advance e s b)). lia.
Qed.

Lemma search_loop_running fuel e s :
  ending (search_loop' fuel e s) = Running ->
  length (windows (search_loop' fuel e s)) = fuel.
Proof.
  revert s. induction fuel as [|fuel IH]; intros s; [reflexivity|].
  first_window e s fuel; cbn [windows length ending]; try discriminate.
  intros Hr. rewrite (IH _ Hr). reflexivity.
Qed.

(** The [k]-th window starts [k] steps after the first, modulo 2^64. *)
Lemma search_loop_window_start fuel e s (k : nat) w :
  0 <= start_nonce s < 2 ^ 64 ->
  windows (search_loop' fuel e s) !! k = Some w ->
  fst w = wrap64 (start_nonce s + Z.of_nat k * env_nonce_step_size e).
Proof.
  revert s k. induction fuel as [|fuel IH]; intros s k Hs; [discriminate|].
  assert (E0 : start_nonce s
               = wrap64 (start_nonce s + Z.of_nat 0 * env_nonce_step_size e)).
  { rewrite Z.mul_0_l, Z.add_0_r, wrap64_small by exact Hs. reflexivity. }
  first_window e s fuel; cbn [windows];
    (destruct k as [|k]; [intros [= <-]; exact E0|]); try discriminate.
  cbn [lookup list_lookup]. intros Hk.
  rewrite (IH (advance e s b) k (wrap64_range _) Hk). cbn [start_nonce].
  rewrite wrap64_add_l. f_equal. lia.
Qed.

(** Every window but the last came back with the sentinel. *)
Lemma search_loop_sentinel fuel e s (k : nat) w :
  windows (search_loop' fuel e s) !! k = Some w ->
  (S k < length (windows (search_loop' fuel e s)))%nat ->
  snd w = 0.
Proof.
  revert s k. induction fuel as [|fuel IH]; intros s k; [discriminate|].
  first_window e s fuel; cbn [windows length];
    (destruct k as [|k]; [|cbn [lookup list_lookup]]); try (intros; lia).
  - intros [= <-] _. reflexivity.
  - intros Hk Hl. apply (IH _ k Hk). lia.
Qed.

(** After a window that came back with the sentinel the loop dispatches
    the next one, whatever the addition does. *)
Lemma search_loop_goes_on fuel e s (k : nat) w :
  windows (search_loop' fuel e s) !! k = Some w ->
  snd w = 0 ->
  (S k < fuel)%nat ->
  exists w', windows (search_loop' fuel e s) !! S k = Some w'
             /\ fst w' = wrap64 (fst w + env_nonce_step_size e).
Proof.
  revert s k. induction fuel as [|fuel IH]; intros s k; [discriminate|].
  first_window e s fuel; cbn [windows];
    (destruct k as [|k]; [|cbn [lookup list_lookup]]); try discriminate.
  - intros [= <-] _ Hk. destruct fuel as [|fuel]; [lia|].
    clear Hc Hf. cbn [fst lookup list_lookup].
    set (s' := advance e s b).
    first_window e s' fuel; cbn [windows lookup list_lookup];
      eexists; (split; [reflexivity|reflexivity]).
  - intros Hk Hw Hlt. apply (IH _ k Hk Hw). lia.
  - intros [= <-] Hw. cbn [snd] in Hw. contradiction.
  - intros [= <-] Hw. cbn [snd] in Hw. contradiction.
  - intros [= <-] Hw. cbn [snd] in Hw. contradiction.
Qed.

(** What is printed has passed the guard. *)
Lemma search_loop_stdout fuel e s n h :
  stdout (search_loop' fuel e s) = Some (n, h) ->
  ending (search_loop' fuel e s) = Returned 0
  /\ n <> 0
  /\ (exists start, last (windows (search_loop' fuel e s)) = Some (start, n))
  /\ exists hash,
       guard_hash' (env_alternativeNonce e) (env_buf e) (env_bufsize e) n
       = Some hash
       /\ compare_uint256 (env_target_hash e) hash <> -1.
Proof.
  revert s. induction fuel as [|fuel IH]; intros s; [discriminate|].
  first_window e s fuel; cbn [windows stdout ending]; try discriminate.
  - intros Hr. destruct (IH _ Hr) as (He & Hn & (st & Hl) & Hh).
    split; [exact He|]. split; [exact Hn|]. split; [|exact Hh].
    exists st. rewrite last_cons, Hl. reflexivity.
  - intros [= <- <-]. split; [reflexivity|]. split; [exact Hf|].
    split; [eexists; reflexivity|].
    exists hash. split; [exact Hg|]. apply Z.eqb_neq, Hcmp.
Qed.

(** A candidate that does not pass the guard ends the run. *)
Lemma search_loop_bad_nonce fuel e s start n digest :
  last (windows (search_loop' fuel e s)) = Some (start, n) ->
  n <> 0 ->
  guard_hash' (env_alternativeNonce e) (env_buf e) (env_bufsize e) n = Some digest ->
  compare_uint256 (env_target_hash e) digest = -1 ->
  stdout (search_loop' fuel e s) = None
  /\ ending (search_loop' fuel e s) = Exited (-1).
Proof.
  revert s. induction fuel as [|fuel IH]; intros s; [discriminate|].
  first_window e s fuel; cbn [windows stdout ending].
  - rewrite last_cons.
    destruct (last (windows (search_loop' fuel e (advance e s b)))) as [w|] eqn:El.
    + intros [= ->] Hn Hh Hc'. apply IH; assumption.
    + intros [= _ <-] Hn. contradiction.
  - intros _ _ _ _. split; reflexivity.
  - intros [= _ <-] _ Hh Hc'. rewrite Hh in Hg. injection Hg as <-.
    apply Z.eqb_neq in Hcmp. contradiction.
  - intros [= _ <-] _ Hh. rewrite Hh in Hg. discriminate Hg.
Qed.

(** With a guard that can read its header a loop ends with a printed
    nonce, with [exit(-1)], or has not ended. *)
Lemma search_loop_endings fuel e s :
  (forall n, is_Some (guard_hash' (env_alternativeNonce e) (env_buf e)
                                 (env_bufsize e) n)) ->
  ending (search_loop' fuel e s) = Returned 0
  \/ ending (search_loop' fuel e s) = Exited (-1)
  \/ ending (search_loop' fuel e s) = Running.
Proof.
  intros Hsome. revert s. induction fuel as [|fuel IH]; intros s; [cbn; auto|].
  first_window e s fuel; cbn [ending]; auto.
  destruct (Hsome (wrap64 found)) as [d Hd]. rewrite Hd in Hg. discriminate Hg.
Qed.

(** ** [main] before the loop *)

Lemma main_search fuel inp e s0 :
  setup' inp = inr (e, s0) -> main' fuel inp = search_loop' fuel e s0.
Proof. intros E. unfold main. rewrite E. reflexivity. Qed.

Lemma main_fatal fuel inp t :
  setup' inp = inl t -> main' fuel inp = fatal t.
Proof. intros E. unfold main. rewrite E. reflexivity. Qed.

(** What a run that reaches the loop has gone through. *)
Lemma setup_inv inp e s0 :
  setup' inp = inr (e, s0) ->
  exists c str last_block_size,
    argc inp <> 1
    /\ parse_options default_config (options inp) = inr c
    /\ operand inp = Some str
    /\ read_target_bytes hexchar2int str = inr (env_target_hash e)
    /\ read_header inp = inr (env_buf e, env_bufsize e, last_block_size)
    /\ initial_start_nonce c (urandom inp) = Some (start_nonce s0)
    /\ env_alternativeNonce e = alternativeNonce c
    /\ env_nonce_step_size e
       = wrap64 (size_t_of_int (globalSize c) * size_t_of_int (workSetSize c))
    /\ steps s0 = 0.
Proof.
  unfold setup.
  destruct (argc inp =? 1) eqn:Ea; [discriminate|]. apply Z.eqb_neq in Ea.
  destruct (parse_options default_config (options inp)) as [t|c] eqn:Ep;
    [discriminate|].
  destruct (operand inp) as [str|] eqn:Eo; [|discriminate].
  destruct (read_target_bytes hexchar2int str) as [t|target] eqn:Et;
    [discriminate|].
  destruct (read_header inp) as [t|[[buf bufsize] lbs]] eqn:Eh; [discriminate|].
  destruct (initial_start_nonce c (urandom inp)) as [start|] eqn:Ei;
    [|discriminate].
  intros [= <- <-]. exists c, str, lbs. cbn.
  repeat split; first [assumption|reflexivity].
Qed.

(** With options that parse, a target of 64 characters, a header of
    257 to 320 bytes and a start nonce, [main] reaches the loop. *)
Lemma setup_ok inp c str target start :
  argc inp <> 1 ->
  parse_options default_config (options inp) = inr c ->
  operand inp = Some str ->
  read_target_bytes hexchar2int str = inr target ->
  257 <= snd (fread_buf inp) <= 320 ->
  initial_start_nonce c (urandom inp) = Some start ->
  exists e s0,
    setup' inp = inr (e, s0)
    /\ start_nonce s0 = start
    /\ env_nonce_step_size e
       = wrap64 (size_t_of_int (globalSize c) * size_t_of_int (workSetSize c))
    /\ env_alternativeNonce e = alternativeNonce c
    /\ env_target_hash e = target.
Proof.
  intros Ha Hp Ho Ht Hn Hs. unfold setup.
  apply Z.eqb_neq in Ha. rewrite Ha, Hp, Ho, Ht.
  rewrite read_header_accepts by exact Hn. rewrite Hs.
  eexists _, _. split; [reflexivity|]. repeat split; reflexivity.
Qed.

Lemma read_target_bytes_ok str :
  String.length str = 64%nat ->
  exists target, read_target_bytes hexchar2int str = inr target.
Proof.
  intros Hl. unfold read_target_bytes. rewrite decide_True by lia.
  eexists. reflexivity.
Qed.

Lemma read_target_bytes_fatal str t :
  read_target_bytes hexchar2int str = inl t -> t = AssertFailed.
Proof.
  unfold read_target_bytes. destruct (decide _); [discriminate|].
  intros [= <-]. reflexivity.
Qed.

Lemma read_header_fatal inp t :
  read_header inp = inl t -> t = AssertFailed.
Proof.
  destruct (decide (257 <= snd (fread_buf inp) <= 320)) as [Hn|Hn].
  - rewrite read_header_accepts by exact Hn. discriminate.
  - rewrite read_header_rejects by exact Hn. intros [= <-]. reflexivity.
Qed.

(** The ways [main] ends before the loop. *)
Lemma setup_fatal inp t :
  setup' inp = inl t ->
  t = Exited 1 \/ (exists e, t = Uncaught e) \/ t = Undefined \/ t = AssertFailed.
Proof.
  unfold setup.
  destruct (argc inp =? 1); [intros [= <-]; auto|].
  destruct (parse_options default_config (options inp)) as [t'|c] eqn:Ep.
  { intros [= <-]. destruct (parse_options_fatal _ _ _ Ep); auto. }
  destruct (operand inp) as [str|]; [|intros [= <-]; auto].
  destruct (read_target_bytes hexchar2int str) as [t'|target] eqn:Et.
  { intros [= <-]. rewrite (read_target_bytes_fatal _ _ Et). auto. }
  destruct (read_header inp) as [t'|[[buf bufsize] lbs]] eqn:Eh.
  { intros [= <-]. rewrite (read_header_fatal _ _ Eh). auto. }
  destruct (initial_start_nonce c (urandom inp)); [discriminate|].
  intros [= <-]. auto.
Qed.

(** An override of 2^31 or more, written as the program prints nonces,
    ends the run in [std::stoi]. *)
Lemma override_above_int_max_is_fatal fuel inp v opts :
  2 ^ 31 <= v < 2 ^ 64 ->
  argc inp <> 1 ->
  options inp = ("n"%char, hex16 v) :: opts ->
  main' fuel inp = fatal (Uncaught out_of_range).
Proof.
  intros Hv Ha Ho. apply main_fatal. unfold setup.
  apply Z.eqb_neq in Ha. rewrite Ha, Ho.
  cbn [parse_options handle_option]. unfold with_int.
  rewrite stoi_hex16 by lia. unfold INT_MAX.
  replace (v <=? 2 ^ 31 - 1) with false by lia. reflexivity.
Qed.

(** In a run that reaches the loop the header is what was read from
    standard input, and the guard evaluates the Hash Oracle on it. *)
Lemma setup_header inp e s0 :
  setup' inp = inr (e, s0) ->
  257 <= env_bufsize e <= 320
  /\ env_bufsize e = Z.of_nat (length (stdin inp))
  /\ Z.of_nat (length (env_buf e)) = BUF_SIZE
  /\ take (Z.to_nat (env_bufsize e)) (env_buf e) = stdin inp.
Proof.
  intros Hs. destruct (setup_inv _ _ _ Hs) as (c & str & lbs & _ & _ & _ & _ & Hh & _).
  destruct (read_header_inv _ _ _ _ Hh) as (Hn & Hr & _ & Hl & Hlk & _).
  rewrite fread_buf_count in Hn. unfold BUF_SIZE in *.
  assert (Hlen : env_bufsize e = Z.of_nat (length (stdin inp))) by lia.
  split; [exact Hr|]. split; [exact Hlen|]. split; [exact Hl|].
  apply list_eq. intros i.
  destruct (decide (Z.of_nat i < env_bufsize e)) as [Hi|Hi].
  - rewrite lookup_take_lt by lia. apply Hlk, Hi.
  - rewrite lookup_take_ge by lia. symmetry. apply lookup_ge_None. lia.
Qed.

Lemma setup_guard inp e s0 n :
  setup' inp = inr (e, s0) ->
  guard_hash' (env_alternativeNonce e) (env_buf e) (env_bufsize e) n
  = Some (hash_oracle blake2s (mode_of (env_alternativeNonce e)) n (stdin inp)).
Proof.
  intros Hs. destruct (setup_header _ _ _ Hs) as (Hr & _ & Hl & Hh).
  unfold BUF_SIZE in Hl.
  rewrite guard_hash_oracle by lia. rewrite Hh. reflexivity.
Qed.

Lemma setup_start_range inp e s0 :
  setup' inp = inr (e, s0) -> 0 <= start_nonce s0 < 2 ^ 64.
Proof.
  intros Hs. destruct (setup_inv _ _ _ Hs) as (c & str & lbs & _ & Hp & _ & _ & _ & Hi & _).
  eapply initial_start_nonce_range; eassumption.
Qed.

(** ** The runs of [main] *)

(** C1.  In every run the nonce on standard output is the last answer of
    the backend, is not 0, and its digest, recomputed by the guard as the
    Hash Oracle on the header read from standard input, has passed the
    comparator against the target ([main] reads -1 as not passing); when
    the recomputed digest of the backend's candidate does not pass, the
    run ends with [exit(-1)] and nothing on standard output; and after a
    candidate, passing or not, no further window is dispatched. *)
Theorem candidate_verified_before_print (fuel : nat) (inp : process_input) :
  let r := main' fuel inp in
  (forall n h, stdout r = Some (n, h) ->
     exists e s0 start,
       setup' inp = inr (e, s0)
       /\ last (windows r) = Some (start, n)
       /\ n <> 0
       /\ guard_hash' (env_alternativeNonce e) (env_buf e) (env_bufsize e) n
          = Some (hash_oracle blake2s (mode_of (env_alternativeNonce e)) n
                              (stdin inp))
       /\ compare_uint256 (env_target_hash e)
            (hash_oracle blake2s (mode_of (env_alternativeNonce e)) n (stdin inp))
          <> -1
       /\ ending r = Returned 0)
  /\ (forall e s0 start n,
        setup' inp = inr (e, s0) ->
        last (windows r) = Some (start, n) ->
        n <> 0 ->
        compare_uint256 (env_target_hash e)
          (hash_oracle blake2s (mode_of (env_alternativeNonce e)) n (stdin inp))
        = -1 ->
        stdout r = None /\ ending r = Exited (-1))
  /\ (forall (k : nat) start n,
        windows r !! k = Some (start, n) -> n <> 0 ->
        length (windows r) = S k).
Proof.
  cbv zeta. split; [|split].
  - intros n h Hout.
    destruct (setup' inp) as [t|[e s0]] eqn:Es.
    { rewrite (main_fatal _ _ _ Es) in Hout. discriminate Hout. }
    rewrite (main_search _ _ _ _ Es) in *.
    destruct (search_loop_stdout _ _ _ _ _ Hout)
      as (He & Hn & (start & Hl) & hash & Hg & Hc).
    rewrite (setup_guard _ _ _ n Es) in Hg. injection Hg as <-.
    exists e, s0, start. split; [reflexivity|]. split; [exact Hl|].
    split; [exact Hn|]. split; [apply (setup_guard _ _ _ n Es)|].
    split; [exact Hc|exact He].
  - intros e s0 start n Es Hl Hn Hc.
    rewrite (main_search _ _ _ _ Es) in *.
    eapply search_loop_bad_nonce; [exact Hl|exact Hn| |exact Hc].
    apply (setup_guard _ _ _ n Es).
  - intros k start n Hk Hn.
    destruct (setup' inp) as [t|[e s0]] eqn:Es.
    { rewrite (main_fatal _ _ _ Es) in Hk. discriminate Hk. }
    rewrite (main_search _ _ _ _ Es) in *.
    pose proof (lookup_lt_Some _ _ _ Hk) as Hlt.
    destruct (decide (S k < length (windows (search_loop' fuel e s0)))%nat)
      as [Hmore|Hlast]; [|lia].
    pose proof (search_loop_sentinel _ _ _ _ _ Hk Hmore) as Hz.
    cbn [snd] in Hz. contradiction.
Qed.

(** C3, as the code has it.  With a nonce override of 0 and
    [global_size = workset_size = 1] the first window starts at nonce 0.
    When the backend answers 0 there, which is both its only nonce and
    the sentinel, the next window starts at nonce 1, whether or not
    the digest of nonce 0 satisfies the target; when it answers another
    value, no further window is dispatched and that value is printed if
    it passes the guard.  Nonce 0 is never printed. *)
Theorem zero_answer_advances_to_one
    (fuel : nat) (inp : process_input) (c : config)
    (str : string) (target : list Z) :
  argc inp <> 1 ->
  parse_options default_config (options inp) = inr c ->
  nonceOverride c = Some 0 ->
  globalSize c = 1 ->
  workSetSize c = 1 ->
  operand inp = Some str ->
  read_target_bytes hexchar2int str = inr target ->
  257 <= snd (fread_buf inp) <= 320 ->
  let r := main' (S (S fuel)) inp in
  (forall n h, stdout r = Some (n, h) -> n <> 0)
  /\ exists found,
       windows r !! 0%nat = Some (0, found)
       /\ (found = 0 -> exists found', windows r !! 1%nat = Some (1, found'))
       /\ (found <> 0 ->
             windows r = [(0, found)]
             /\ (compare_uint256 target
                   (hash_oracle blake2s (mode_of (alternativeNonce c)) found
                                (stdin inp)) <> -1 ->
                 exists h, stdout r = Some (found, h))).
Proof.
  intros Ha Hp Hn HG HK Ho Ht Hh. cbv zeta.
  assert (Hi : initial_start_nonce c (urandom inp) = Some 0).
  { unfold initial_start_nonce. rewrite Hn. reflexivity. }
  destruct (setup_ok _ _ _ _ _ Ha Hp Ho Ht Hh Hi)
    as (e & s0 & Es & Hstart & HW & Halt & Htg).
  rewrite HG, HK in HW. change (wrap64 _) with 1 in HW.
  symmetry in Hstart. rewrite <- Halt, <- Htg.
  rewrite (main_search _ _ _ _ Es).
  split.
  { intros n h Hout. apply (search_loop_stdout _ _ _ _ _ Hout). }
  destruct (continue_search (backend s0) (start_nonce s0)) as [found b] eqn:Hc.
  exists (wrap64 found).
  destruct (decide (wrap64 found = 0)) as [Hf|Hf].
  - rewrite (search_loop_miss _ _ _ _ _ Hc Hf). cbv zeta. cbn [windows].
    set (s1 := advance e s0 b).
    split; [rewrite Hf, <- Hstart; reflexivity|].
    split; [|intros []; exact Hf].
    intros _. cbn [lookup list_lookup].
    destruct (windows (search_loop' (S fuel) e s1)) as [|[st a] l] eqn:Ew.
    + exfalso. revert Ew. first_window e s1 fuel; cbn [windows]; discriminate.
    + pose proof (search_loop_window_start (S fuel) e s1 0 (st, a)) as Hst.
      rewrite Ew in Hst. specialize (Hst (wrap64_range _) eq_refl).
      cbn [fst start_nonce s1] in Hst. unfold s1 in Hst. cbn [start_nonce] in Hst.
      rewrite <- Hstart, HW in Hst. change (wrap64 _) with 1 in Hst. subst st.
      exists a. reflexivity.
  - rewrite (search_loop_hit _ _ _ _ _ Hc Hf).
    rewrite (setup_guard _ _ _ _ Es).
    destruct (compare_uint256 _ _ =? -1) eqn:Hcmp; cbn [windows stdout];
      rewrite <- Hstart;
      (split; [reflexivity|]); (split; [intros E; contradiction|]);
      intros _; (split; [reflexivity|]); intros Hpass.
    + apply Z.eqb_eq in Hcmp. contradiction.
    + eexists. reflexivity.
Qed.

(** C4, as the code has it.  No configuration is rejected on account of
    the product: with options that parse, a target of 64 characters, a
    header of valid length and a start nonce, [main] reaches the loop
    whatever [global_size] and [workset_size] are, with
    [nonce_step_size = global_size * workset_size mod 2^64], and
    dispatches.  A window that comes back with the sentinel is followed
    by a window at [start_nonce + nonce_step_size mod 2^64], also when
    the sum passes 2^64; a run ends with a printed nonce, with
    [exit(-1)], or is still searching. *)
Theorem window_increment_wraps
    (inp : process_input) (c : config) (str : string) (start : Z) :
  argc inp <> 1 ->
  parse_options default_config (options inp) = inr c ->
  operand inp = Some str ->
  String.length str = 64%nat ->
  257 <= snd (fread_buf inp) <= 320 ->
  initial_start_nonce c (urandom inp) = Some start ->
  let W := wrap64 (size_t_of_int (globalSize c) * size_t_of_int (workSetSize c)) in
  exists e s0,
    setup' inp = inr (e, s0)
    /\ env_nonce_step_size e = W
    /\ forall fuel,
         let r := main' (S fuel) inp in
         (exists found, windows r !! 0%nat = Some (start, found))
         /\ (forall (k : nat) w,
               windows r !! k = Some w -> snd w = 0 -> (S k < S fuel)%nat ->
               exists w', windows r !! S k = Some w'
                          /\ fst w' = wrap64 (fst w + W))
         /\ (ending r = Returned 0 \/ ending r = Exited (-1) \/ ending r = Running).
Proof.
  intros Ha Hp Ho Hl Hn Hs W.
  destruct (read_target_bytes_ok str Hl) as [target Ht].
  destruct (setup_ok _ _ _ _ _ Ha Hp Ho Ht Hn Hs) as (e & s0 & Es & Hst & HW & _).
  exists e, s0. split; [exact Es|]. split; [exact HW|].
  intros fuel. cbv zeta. rewrite (main_search _ _ _ _ Es).
  split; [|split].
  - rewrite <- Hst. first_window e s0 fuel; cbn [windows]; eexists; reflexivity.
  - intros k w Hk Hw Hlt. fold W in HW. rewrite <- HW.
    eapply search_loop_goes_on; eassumption.
  - apply search_loop_endings. intros n.
    rewrite (setup_guard _ _ _ n Es). eexists. reflexivity.
Qed.

(** C5, as the code has it.  In a run that reaches the loop with start
    nonce [start] and step [W = global_size * workset_size mod 2^64], the
    [k]-th window dispatched starts at [(start + k * W) mod 2^64]; every
    window before the last came back without a candidate; a run that
    finds none in [fuel] windows has dispatched [fuel] windows; and where
    a window's start plus [W] stays below 2^64 the next window starts
    exactly there, so that the two ranges are adjacent. *)
Theorem window_starts_modulo
    (fuel : nat) (inp : process_input) (c : config) (str : string) (start : Z) :
  argc inp <> 1 ->
  parse_options default_config (options inp) = inr c ->
  operand inp = Some str ->
  String.length str = 64%nat ->
  257 <= snd (fread_buf inp) <= 320 ->
  initial_start_nonce c (urandom inp) = Some start ->
  let W := wrap64 (size_t_of_int (globalSize c) * size_t_of_int (workSetSize c)) in
  let r := main' fuel inp in
  (forall (k : nat) w,
     windows r !! k = Some w -> fst w = wrap64 (start + Z.of_nat k * W))
  /\ (forall (k : nat) w,
        windows r !! k = Some w -> (S k < length (windows r))%nat -> snd w = 0)
  /\ (length (windows r) <= fuel)%nat
  /\ (ending r = Running -> length (windows r) = fuel)
  /\ (forall (k : nat) a b,
        windows r !! k = Some a -> windows r !! S k = Some b ->
        fst a + W < 2 ^ 64 ->
        fst b = fst a + W).
Proof.
  intros Ha Hp Ho Hl Hn Hs W r.
  destruct (read_target_bytes_ok str Hl) as [target Ht].
  destruct (setup_ok _ _ _ _ _ Ha Hp Ho Ht Hn Hs) as (e & s0 & Es & Hst & HW & _).
  fold W in HW.
  pose proof (setup_start_range _ _ _ Es) as Hrange.
  subst r. rewrite (main_search _ _ _ _ Es). rewrite <- HW, <- Hst.
  split; [intros k w Hk; apply (search_loop_window_start _ _ _ _ _ Hrange Hk)|].
  split; [intros k w Hk Hlt; apply (search_loop_sentinel _ _ _ _ _ Hk Hlt)|].
  split; [apply search_loop_length|].
  split; [apply search_loop_running|].
  intros k a b Hka Hkb Hlt.
  rewrite (search_loop_window_start _ _ _ _ _ Hrange Hkb).
  pose proof (search_loop_window_start _ _ _ _ _ Hrange Hka) as Ea.
  replace (start_nonce s0 + Z.of_nat (S k) * env_nonce_step_size e)
    with (start_nonce s0 + Z.of_nat k * env_nonce_step_size e
          + env_nonce_step_size e) by lia.
  rewrite <- wrap64_add_l, <- Ea. apply wrap64_small.
  pose proof (wrap64_range (start_nonce s0 + Z.of_nat k * env_nonce_step_size e)).
  rewrite <- Ea in *.
  assert (0 <= env_nonce_step_size e) by (rewrite HW; apply wrap64_range).
  lia.
Qed.


(** C8, as the code has it.  Without a nonce override, when
    [/dev/urandom] opens, [start_nonce] is the little-endian value of the
    bytes the read delivers, at most eight, followed by zero bytes; the
    count the read returns is not looked at.  A read that delivers
    nothing leaves [start_nonce] at 0, and the first window is dispatched
    at that start nonce. *)
Theorem entropy_read_is_unchecked
    (inp : process_input) (c : config) (str : string) (bytes : list Z) :
  argc inp <> 1 ->
  parse_options default_config (options inp) = inr c ->
  nonceOverride c = None ->
  operand inp = Some str ->
  String.length str = 64%nat ->
  257 <= snd (fread_buf inp) <= 320 ->
  urandom inp = Some bytes ->
  let got := take 8 bytes in
  let start := uint64_of_bytes (got ++ replicate (8 - length got) 0) in
  (bytes = [] -> start = 0)
  /\ exists e s0,
       setup' inp = inr (e, s0)
       /\ start_nonce s0 = start
       /\ forall fuel,
            exists found, windows (main' (S fuel) inp) !! 0%nat = Some (start, found).
Proof.
  intros Ha Hp Hno Ho Hl Hn Hu got start.
  split; [intros ->; reflexivity|].
  assert (Hs : initial_start_nonce c (urandom inp) = Some start).
  { rewrite Hu. apply initial_start_nonce_urandom, Hno. }
  destruct (read_target_bytes_ok str Hl) as [target Ht].
  destruct (setup_ok _ _ _ _ _ Ha Hp Ho Ht Hn Hs) as (e & s0 & Es & Hst & _).
  exists e, s0. split; [exact Es|]. split; [exact Hst|].
  intros fuel. rewrite (main_search _ _ _ _ Es), <- Hst.
  first_window e s0 fuel; cbn [windows]; eexists; reflexivity.
Qed.

End Main.

(** * The program run on inputs *)

(** The BLAKE2s instance on the test vector of RFC 7693, appendix B, and
    on the empty message. *)
Example blake2s_abc :
  Blake2s.hash 32 [0x61; 0x62; 0x63]
  = [0x50; 0x8C; 0x5E; 0x8C; 0x32; 0x7C; 0x14; 0xE2;
     0xE1; 0xA7; 0x2B; 0xA3; 0x4E; 0xEB; 0x45; 0x2F;
     0x37; 0x45; 0x8B; 0x20; 0x9E; 0xD6; 0x3A; 0x29;
     0x4D; 0x99; 0x9B; 0x4C; 0x86; 0x67; 0x59; 0x82].
Proof. vm_compute. reflexivity. Qed.

Example blake2s_empty :
  Blake2s.hash 32 []
  = [0x69; 0x21; 0x7A; 0x30; 0x79; 0x90; 0x80; 0x94;
     0xE1; 0x11; 0x21; 0xD0; 0x42; 0x35; 0x4A; 0x7C;
     0x1F; 0x55; 0xB6; 0x48; 0x2C; 0xA1; 0xA5; 0x1E;
     0x1B; 0x25; 0x0D; 0xFD; 0x1E; 0xD0; 0xEE; 0xF9].
Proof. vm_compute. reflexivity. Qed.

Local Abbreviation run_main := (Reference.run_main 257).
Local Abbreviation ref_setup :=
  (@setup Reference.hexchar2int Reference.state (Reference.backend 257)).

(** C3, where the statement fails.  With [-n 0 -g 1 -w 1] and a target
    that every digest satisfies, nonce 0 is a solution: its digest
    passes the comparator, and the backend answers 0 for the window
    [0, 1).  [main] reads the answer as "none found", goes on to the
    window [1, 2) and prints nonce 1. *)
Lemma zero_solution_is_skipped :
  Reference.compare_uint256 (replicate 32 255)
    (hash_oracle Blake2s.hash Prefix 0 Scenario.header) <> -1
  /\ run_main 2 Scenario.zero_override
     = {| windows := [(0, 0); (1, 1)];
          stdout := Some (1, 2);
          ending := Returned 0 |}.
Proof.
  split; [vm_compute; intros E; discriminate E|vm_compute; reflexivity].
Qed.

(** C4, where the statement fails.  From [start_nonce = 2^64 - 1] with a
    step of 1 and no candidate in the first window, the second window is
    dispatched at nonce 0 and the search goes on; and [-g -1 -w 2], a
    [global_size] of [2^64 - 1], is taken with a step of [2^64 - 2]. *)
Lemma start_nonce_wraps_to_zero :
  run_main 2 Scenario.top_entropy
  = {| windows := [(2 ^ 64 - 1, 0); (0, 0)];
       stdout := None;
       ending := Running |}
  /\ 2 ^ 64 - 1 + 1 >= 2 ^ 64
  /\ 2 ^ 64 <= size_t_of_int (-1) * size_t_of_int 2
  /\ match ref_setup Scenario.negative_global_size with
     | inr (e, _) => env_nonce_step_size e = 2 ^ 64 - 2
     | inl _ => False
     end.
Proof.
  split; [vm_compute; reflexivity|].
  split; [lia|].
  split; [vm_compute; intros E; discriminate E|].
  vm_compute. reflexivity.
Qed.

(** C5, where the statement fails.  In the run from
    [start_nonce = 2^64 - 1] with [W = 1] the window number 1 starts at
    0, which is not [start_nonce + 1 * W]. *)
Lemma second_window_below_first :
  windows (run_main 2 Scenario.top_entropy) !! 0%nat = Some (2 ^ 64 - 1, 0)
  /\ windows (run_main 2 Scenario.top_entropy) !! 1%nat = Some (0, 0)
  /\ 0 <> (2 ^ 64 - 1) + 1 * 1.
Proof.
  split; [vm_compute; reflexivity|]. split; [vm_compute; reflexivity|].
  intros E; discriminate E.
Qed.

(** C8, where the statement fails.  Without [-n] and with an entropy
    source that opens and delivers no byte, the run does not end: the
    first window is dispatched at start nonce 0. *)
Lemma empty_entropy_starts_at_zero :
  run_main 1 Scenario.empty_entropy
  = {| windows := [(0, 0)]; stdout := None; ending := Running |}.
Proof. vm_compute. reflexivity. Qed.

(** C9.  The override [-n 80000000], the value 2^31, is not taken:
    [std::stoi] throws [std::out_of_range], which nothing catches, and no
    window is dispatched; so it is for every value from 2^31 on written
    with sixteen digits, as the program prints a nonce.  [7fffffff] is the largest value
    taken, and [-1] starts the search at [2^64 - 1]. *)
Theorem nonce_override_2_31_throws :
  stoi "80000000" 16 = inl out_of_range
  /\ (forall fuel,
        run_main fuel Scenario.override_2_31 = fatal (Uncaught out_of_range))
  /\ hex16 (2 ^ 31) = "0000000080000000"%string
  /\ (forall v, 2 ^ 31 <= v < 2 ^ 64 -> stoi (hex16 v) 16 = inl out_of_range)
  /\ stoi "7fffffff" 16 = inr (2 ^ 31 - 1)
  /\ parse_options default_config [("n"%char, "-1"%string)]
     = inr {| quiet := true; deviceOverride := 0; platformOverride := -1;
              localWorkSize := 256; workSetSize := 64;
              globalSize := 1024 * 1024 * 16;
              nonceOverride := Some (2 ^ 64 - 1);
              kernelPath := None; alternativeNonce := false |}.
Proof.
  split; [vm_compute; reflexivity|].
  split.
  { intros fuel. apply main_fatal. vm_compute. reflexivity. }
  split; [vm_compute; reflexivity|].
  split.
  { intros v Hv. rewrite stoi_hex16 by lia. unfold INT_MAX.
    replace (v <=? 2 ^ 31 - 1) with false by lia. reflexivity. }
  split; vm_compute; reflexivity.
Qed.

(** * The theorems at concrete inputs *)

Local Abbreviation ref_main :=
  (@main Blake2s.hash Reference.compare_uint256 Reference.hexchar2int
         Reference.state (Reference.backend 257)).

Local Abbreviation one_nonce := (Scenario.config_one_nonce None).
Local Abbreviation one_nonce_from_0 := (Scenario.config_one_nonce (Some 0)).
Local Abbreviation all_ff := (replicate 32 255).

Lemma candidate_verified_before_print_witness :
  stdout (ref_main 2 Scenario.zero_override) = Some (1, 2)
  /\ (exists e s0 start,
        ref_setup Scenario.zero_override = inr (e, s0)
        /\ last (windows (ref_main 2 Scenario.zero_override)) = Some (start, 1)
        /\ 1 <> 0
        /\ guard_hash Blake2s.hash (env_alternativeNonce e) (env_buf e)
                      (env_bufsize e) 1
           = Some (hash_oracle Blake2s.hash (mode_of (env_alternativeNonce e)) 1
                               (stdin Scenario.zero_override))
        /\ Reference.compare_uint256 (env_target_hash e)
             (hash_oracle Blake2s.hash (mode_of (env_alternativeNonce e)) 1
                          (stdin Scenario.zero_override))
           <> -1
        /\ ending (ref_main 2 Scenario.zero_override) = Returned 0)
  /\ ending (Reference.run_faulty 5 1 Scenario.top_entropy) = Exited (-1)
  /\ stdout (Reference.run_faulty 5 1 Scenario.top_entropy) = None.
Proof.
  assert (H : stdout (ref_main 2 Scenario.zero_override) = Some (1, 2))
    by (vm_compute; reflexivity).
  split; [exact H|]. split.
  - exact (proj1 (candidate_verified_before_print Blake2s.hash
                    Reference.compare_uint256 Reference.hexchar2int
                    (backend_ops := Reference.backend 257)
                    2 Scenario.zero_override) 1 2 H).
  - split; vm_compute; reflexivity.
Defined.

Lemma guard_matches_hash_oracle_witness :
  257 <= 257 <= 320
  /\ 257 <= Z.of_nat (length Scenario.header)
  /\ guard_hash Blake2s.hash true Scenario.header 257 5
     = Some (hash_oracle Blake2s.hash (mode_of true) 5
                         (take (Z.to_nat 257) Scenario.header))
  /\ exists tail,
       ref_hash Blake2s.hash 5 Scenario.header (257 - 256)
       = Some (Blake2s.hash BLAKE2S_OUTBYTES (uint64_bytes 5 ++ tail))
       /\ Z.of_nat (length tail) = 257 - 8.
Proof.
  assert (H1 : 257 <= 257 <= 320) by lia.
  assert (H2 : 257 <= Z.of_nat (length Scenario.header)) by (cbn; lia).
  split; [exact H1|]. split; [exact H2|].
  destruct (guard_matches_hash_oracle Blake2s.hash true Scenario.header 257 5
              H1 H2) as (Hg & _ & _ & _ & _ & _ & _ & Hr).
  split; [exact Hg|exact Hr].
Defined.

Lemma zero_answer_advances_to_one_witness :
  argc Scenario.zero_override <> 1
  /\ parse_options default_config (options Scenario.zero_override)
     = inr one_nonce_from_0
  /\ nonceOverride one_nonce_from_0 = Some 0
  /\ globalSize one_nonce_from_0 = 1
  /\ workSetSize one_nonce_from_0 = 1
  /\ operand Scenario.zero_override = Some Scenario.target_max
  /\ read_target_bytes Reference.hexchar2int Scenario.target_max = inr all_ff
  /\ 257 <= snd (fread_buf Scenario.zero_override) <= 320
  /\ (let r := ref_main 2 Scenario.zero_override in
      (forall n h, stdout r = Some (n, h) -> n <> 0)
      /\ exists found,
           windows r !! 0%nat = Some (0, found)
           /\ (found = 0 ->
               exists found', windows r !! 1%nat = Some (1, found'))
           /\ (found <> 0 ->
                 windows r = [(0, found)]
                 /\ (Reference.compare_uint256 all_ff
                       (hash_oracle Blake2s.hash
                          (mode_of (alternativeNonce one_nonce_from_0))
                          found (stdin Scenario.zero_override)) <> -1 ->
                     exists h, stdout r = Some (found, h)))).
Proof.
  assert (H1 : argc Scenario.zero_override <> 1) by (vm_compute; discriminate).
  assert (H2 : parse_options default_config (options Scenario.zero_override)
               = inr one_nonce_from_0) by (vm_compute; reflexivity).
  assert (H3 : nonceOverride one_nonce_from_0 = Some 0) by reflexivity.
  assert (H4 : globalSize one_nonce_from_0 = 1) by reflexivity.
  assert (H5 : workSetSize one_nonce_from_0 = 1) by reflexivity.
  assert (H6 : operand Scenario.zero_override = Some Scenario.target_max)
    by reflexivity.
  assert (H7 : read_target_bytes Reference.hexchar2int Scenario.target_max
               = inr all_ff) by (vm_compute; reflexivity).
  assert (H8 : 257 <= snd (fread_buf Scenario.zero_override) <= 320)
    by (vm_compute; split; discriminate).
  exact (conj H1 (conj H2 (conj H3 (conj H4 (conj H5 (conj H6 (conj H7 (conj H8
    (zero_answer_advances_to_one Blake2s.hash Reference.compare_uint256
       Reference.hexchar2int (backend_ops := Reference.backend 257)
       0 Scenario.zero_override one_nonce_from_0 Scenario.target_max all_ff
       H1 H2 H3 H4 H5 H6 H7 H8))))))))).
Defined.

Lemma window_increment_wraps_witness :
  argc Scenario.top_entropy <> 1
  /\ parse_options default_config (options Scenario.top_entropy) = inr one_nonce
  /\ operand Scenario.top_entropy = Some Scenario.target_zero
  /\ String.length Scenario.target_zero = 64%nat
  /\ 257 <= snd (fread_buf Scenario.top_entropy) <= 320
  /\ initial_start_nonce one_nonce (urandom Scenario.top_entropy)
     = Some (2 ^ 64 - 1)
  /\ (let W := wrap64 (size_t_of_int (globalSize one_nonce)
                       * size_t_of_int (workSetSize one_nonce)) in
      exists e s0,
        ref_setup Scenario.top_entropy = inr (e, s0)
        /\ env_nonce_step_size e = W
        /\ forall fuel,
             let r := ref_main (S fuel) Scenario.top_entropy in
             (exists found, windows r !! 0%nat = Some (2 ^ 64 - 1, found))
             /\ (forall (k : nat) w,
                   windows r !! k = Some w -> snd w = 0 ->
                   (S k < S fuel)%nat ->
                   exists w', windows r !! S k = Some w'
                              /\ fst w' = wrap64 (fst w + W))
             /\ (ending r = Returned 0 \/ ending r = Exited (-1)
                 \/ ending r = Running)).
Proof.
  assert (H1 : argc Scenario.top_entropy <> 1) by (vm_compute; discriminate).
  assert (H2 : parse_options default_config (options Scenario.top_entropy)
               = inr one_nonce) by (vm_compute; reflexivity).
  assert (H3 : operand Scenario.top_entropy = Some Scenario.target_zero)
    by reflexivity.
  assert (H4 : String.length Scenario.target_zero = 64%nat) by reflexivity.
  assert (H5 : 257 <= snd (fread_buf Scenario.top_entropy) <= 320)
    by (vm_compute; split; discriminate).
  assert (H6 : initial_start_nonce one_nonce (urandom Scenario.top_entropy)
               = Some (2 ^ 64 - 1)) by (vm_compute; reflexivity).
  exact (conj H1 (conj H2 (conj H3 (conj H4 (conj H5 (conj H6
    (window_increment_wraps Blake2s.hash Reference.compare_uint256
       Reference.hexchar2int (backend_ops := Reference.backend 257)
       Scenario.top_entropy one_nonce Scenario.target_zero (2 ^ 64 - 1)
       H1 H2 H3 H4 H5 H6))))))).
Defined.

Lemma window_starts_modulo_witness :
  argc Scenario.top_entropy <> 1
  /\ parse_options default_config (options Scenario.top_entropy) = inr one_nonce
  /\ operand Scenario.top_entropy = Some Scenario.target_zero
  /\ String.length Scenario.target_zero = 64%nat
  /\ 257 <= snd (fread_buf Scenario.top_entropy) <= 320
  /\ initial_start_nonce one_nonce (urandom Scenario.top_entropy)
     = Some (2 ^ 64 - 1)
  /\ (let W := wrap64 (size_t_of_int (globalSize one_nonce)
                       * size_t_of_int (workSetSize one_nonce)) in
      let r := ref_main 2 Scenario.top_entropy in
      (forall (k : nat) w,
         windows r !! k = Some w ->
         fst w = wrap64 (2 ^ 64 - 1 + Z.of_nat k * W))
      /\ (forall (k : nat) w,
            windows r !! k = Some w -> (S k < length (windows r))%nat ->
            snd w = 0)
      /\ (length (windows r) <= 2)%nat
      /\ (ending r = Running -> length (windows r) = 2%nat)
      /\ (forall (k : nat) a b,
            windows r !! k = Some a -> windows r !! S k = Some b ->
            fst a + W < 2 ^ 64 ->
            fst b = fst a + W)).
Proof.
  assert (H1 : argc Scenario.top_entropy <> 1) by (vm_compute; discriminate).
  assert (H2 : parse_options default_config (options Scenario.top_entropy)
               = inr one_nonce) by (vm_compute; reflexivity).
  assert (H3 : operand Scenario.top_entropy = Some Scenario.target_zero)
    by reflexivity.
  assert (H4 : String.length Scenario.target_zero = 64%nat) by reflexivity.
  assert (H5 : 257 <= snd (fread_buf Scenario.top_entropy) <= 320)
    by (vm_compute; split; discriminate).
  assert (H6 : initial_start_nonce one_nonce (urandom Scenario.top_entropy)
               = Some (2 ^ 64 - 1)) by (vm_compute; reflexivity).
  exact (conj H1 (conj H2 (conj H3 (conj H4 (conj H5 (conj H6
    (window_starts_modulo Blake2s.hash Reference.compare_uint256
       Reference.hexchar2int (backend_ops := Reference.backend 257)
       2 Scenario.top_entropy one_nonce Scenario.target_zero (2 ^ 64 - 1)
       H1 H2 H3 H4 H5 H6))))))).
Defined.

Lemma ref_search_nonce_covers_window_witness :
  0 <= 2 ^ 64 - 2 < 2 ^ 64
  /\ 0 < 2 /\ 0 < 2 /\ 2 * 2 < 2 ^ 64
  /\ 0 <= 1 < 2
  /\ 0 <= 1 <= 64
  /\ 248 + 1 <= Z.of_nat (length Scenario.header)
  /\ 2 * 2 <= Z.of_nat (length [7; 7; 7; 7])
  /\ (ref_nonces 1 (2 ^ 64 - 2) 2
      = map (fun j => wrap64 (2 ^ 64 - 2 + 1 * 2 + j)) (seqZ 0 2)
      /\ ref_slots 1 (2 ^ 64 - 2) 2 = map (fun j => 1 * 2 + j) (seqZ 0 2)
      /\ (exists result',
            ref_search_nonce Blake2s.hash Reference.compare_uint256
              1 (2 ^ 64 - 2) 2 Scenario.header 1 all_ff [7; 7; 7; 7]
            = Some result'
            /\ (forall j, 0 <= j < 2 ->
                  result' !! Z.to_nat (1 * 2 + j)
                  = Some (wrap8 (Reference.compare_uint256 all_ff
                           (Blake2s.hash BLAKE2S_OUTBYTES
                              (uint64_bytes (wrap64 (2 ^ 64 - 2 + 1 * 2 + j))
                                 ++ take (Z.to_nat (248 + 1))
                                         Scenario.header)))))
            /\ (forall i : nat, ~ (1 * 2 <= Z.of_nat i < 1 * 2 + 2) ->
                  result' !! i = [7; 7; 7; 7] !! i))
      /\ (forall gid' j j',
            0 <= gid' < 2 -> 0 <= j < 2 -> 0 <= j' < 2 ->
            1 * 2 + j = gid' * 2 + j' -> 1 = gid' /\ j = j')
      /\ window_nonces (2 ^ 64 - 2) 2 2
         = map (fun t => wrap64 (2 ^ 64 - 2 + t)) (seqZ 0 (2 * 2))
      /\ NoDup (window_nonces (2 ^ 64 - 2) 2 2)
      /\ (forall n, n ∈ window_nonces (2 ^ 64 - 2) 2 2
                    <-> exists t, 0 <= t < 2 * 2 /\ n = wrap64 (2 ^ 64 - 2 + t))
      /\ (2 ^ 64 - 2 + 2 * 2 <= 2 ^ 64 ->
            ref_nonces 1 (2 ^ 64 - 2) 2 = seqZ (2 ^ 64 - 2 + 1 * 2) 2
            /\ window_nonces (2 ^ 64 - 2) 2 2 = seqZ (2 ^ 64 - 2) (2 * 2)
            /\ (forall n, n ∈ window_nonces (2 ^ 64 - 2) 2 2
                          <-> 2 ^ 64 - 2 <= n < 2 ^ 64 - 2 + 2 * 2))).
Proof.
  assert (H1 : 0 <= 2 ^ 64 - 2 < 2 ^ 64) by lia.
  assert (H2 : 0 < 2) by lia.
  assert (H3 : 2 * 2 < 2 ^ 64) by lia.
  assert (H4 : 0 <= 1 < 2) by lia.
  assert (H5 : 0 <= 1 <= 64) by lia.
  assert (H6 : 248 + 1 <= Z.of_nat (length Scenario.header)) by (cbn; lia).
  assert (H7 : 2 * 2 <= Z.of_nat (length [7; 7; 7; 7])) by (cbn; lia).
  exact (conj H1 (conj H2 (conj H2 (conj H3 (conj H4 (conj H5 (conj H6 (conj H7
    (ref_search_nonce_covers_window Blake2s.hash Reference.compare_uint256
       (2 ^ 64 - 2) 2 2 1 Scenario.header 1 all_ff [7; 7; 7; 7]
       H1 H2 H2 H3 H4 H5 H6 H7))))))))).
Defined.


Lemma entropy_read_is_unchecked_witness :
  argc Scenario.empty_entropy <> 1
  /\ parse_options default_config (options Scenario.empty_entropy)
     = inr one_nonce
  /\ nonceOverride one_nonce = None
  /\ operand Scenario.empty_entropy = Some Scenario.target_zero
  /\ String.length Scenario.target_zero = 64%nat
  /\ 257 <= snd (fread_buf Scenario.empty_entropy) <= 320
  /\ urandom Scenario.empty_entropy = Some []
  /\ (let got := take 8 ([] : list Z) in
      let start := uint64_of_bytes (got ++ replicate (8 - length got) 0) in
      (([] : list Z) = [] -> start = 0)
      /\ exists e s0,
           ref_setup Scenario.empty_entropy = inr (e, s0)
           /\ start_nonce s0 = start
           /\ forall fuel,
                exists found,
                  windows (ref_main (S fuel) Scenario.empty_entropy) !! 0%nat
                  = Some (start, found)).
Proof.
  assert (H1 : argc Scenario.empty_entropy <> 1) by (vm_compute; discriminate).
  assert (H2 : parse_options default_config (options Scenario.empty_entropy)
               = inr one_nonce) by (vm_compute; reflexivity).
  assert (H3 : nonceOverride one_nonce = None) by reflexivity.
  assert (H4 : operand Scenario.empty_entropy = Some Scenario.target_zero)
    by reflexivity.
  assert (H5 : String.length Scenario.target_zero = 64%nat) by reflexivity.
  assert (H6 : 257 <= snd (fread_buf Scenario.empty_entropy) <= 320)
    by (vm_compute; split; discriminate).
  assert (H7 : urandom Scenario.empty_entropy = Some []) by reflexivity.
  exact (conj H1 (conj H2 (conj H3 (conj H4 (conj H5 (conj H6 (conj H7
    (entropy_read_is_unchecked Blake2s.hash Reference.compare_uint256
       Reference.hexchar2int (backend_ops := Reference.backend 257)
       Scenario.empty_entropy one_nonce Scenario.target_zero []
       H1 H2 H3 H4 H5 H6 H7)))))))).
Defined.

Lemma nonce_bytes_little_endian_witness :
  257 <= 257 <= 320
  /\ 257 <= Z.of_nat (length Scenario.header)
  /\ 0 <= 1 < 2 ^ 64
  /\ 0 <= 2 < 2 ^ 64
  /\ (exists b0 b1 b2 b3 b4 b5 b6 b7,
        uint64_bytes 1 = [b0; b1; b2; b3; b4; b5; b6; b7]
        /\ Forall (fun b => 0 <= b < 256) [b0; b1; b2; b3; b4; b5; b6; b7]
        /\ 1 = b0 + 2 ^ 8 * b1 + 2 ^ 16 * b2 + 2 ^ 24 * b3 + 2 ^ 32 * b4
                + 2 ^ 40 * b5 + 2 ^ 48 * b6 + 2 ^ 56 * b7)
  /\ guard_hash_state false Scenario.header 257 1 =
     Some {| outlen := BLAKE2S_OUTBYTES;
             absorbed :=
               uint64_bytes 1
                 ++ take (Z.to_nat (257 - 8)) (drop 8 Scenario.header) |}
  /\ ref_hash_state 1 Scenario.header (257 - 256) =
     Some {| outlen := BLAKE2S_OUTBYTES;
             absorbed :=
               uint64_bytes 1 ++ take (Z.to_nat (257 - 8)) Scenario.header |}
  /\ guard_hash Blake2s.hash false Scenario.header 257 1
     = Some (Blake2s.hash BLAKE2S_OUTBYTES
               (uint64_bytes 1
                  ++ take (Z.to_nat (257 - 8)) (drop 8 Scenario.header)))
  /\ ref_hash Blake2s.hash 1 Scenario.header (257 - 256)
     = Some (Blake2s.hash BLAKE2S_OUTBYTES
               (uint64_bytes 1 ++ take (Z.to_nat (257 - 8)) Scenario.header))
  /\ ref_search_nonce Blake2s.hash Reference.compare_uint256 0 1 1
       Scenario.header (257 - 256) (replicate 32 255) [7]
     = mem_write [7] 0
         (wrap8 (Reference.compare_uint256 (replicate 32 255)
                   (Blake2s.hash BLAKE2S_OUTBYTES
                      (uint64_bytes 1
                         ++ take (Z.to_nat (257 - 8)) Scenario.header))))
  /\ (guard_hash_state false Scenario.header 257 1
      = guard_hash_state false Scenario.header 257 2 <-> 1 = 2)
  /\ (ref_hash_state 1 Scenario.header (257 - 256)
      = ref_hash_state 2 Scenario.header (257 - 256) <-> 1 = 2).
Proof.
  assert (H1 : 257 <= 257 <= 320) by lia.
  assert (H2 : 257 <= Z.of_nat (length Scenario.header)) by (cbn; lia).
  assert (H3 : 0 <= 1 < 2 ^ 64) by lia.
  assert (H4 : 0 <= 2 < 2 ^ 64) by lia.
  destruct (nonce_bytes_little_endian Blake2s.hash false Scenario.header 257 1 2
              H1 H2 H3 H4)
    as (Hsum & _ & _ & Hgs & Hrs & Hg & Hr & _ & Hlane & _ & _ & _ & Hgi & Hri & _).
  split; [exact H1|]. split; [exact H2|]. split; [exact H3|]. split; [exact H4|].
  split; [exact Hsum|]. split; [exact Hgs|]. split; [exact Hrs|].
  split; [exact Hg|]. split; [exact Hr|].
  split; [exact (Hlane Reference.compare_uint256 (replicate 32 255) [7])|].
  split; [exact Hgi|exact Hri].
Defined.

(** * Further properties of the code *)

(** ** [print_hash] *)

Lemma hex16_of_bytes bs :
  length bs = 8%nat ->
  Forall (fun b => 0 <= b < 256) bs ->
  hex16 (uint64_of_bytes bs)
  = string_of_list_ascii
      (flat_map (fun b => [hex_digit (b / 16); hex_digit (b mod 16)]) (rev bs)).
Proof.
  intros Hl Hr.
  do 8 (destruct bs as [|? bs]; [discriminate Hl|]).
  destruct bs; [|discriminate Hl]. clear Hl.
  repeat match goal with H : Forall _ (_ :: _) |- _ =>
    let H1 := fresh in let H2 := fresh in
    apply Forall_cons in H; destruct H as [H1 H2] end.
  unfold hex16, hex16_digits.
  change (rev (seqZ 0 16)) with [15;14;13;12;11;10;9;8;7;6;5;4;3;2;1;0].
  cbn [map rev app flat_map uint64_of_bytes].
  rewrite !(fun a => Z.mod_small a 256) by lia.
  f_equal.
  change (16 ^ 0) with 1. change (16 ^ 1) with 16. change (16 ^ 2) with 256.
  change (16 ^ 3) with 4096. change (16 ^ 4) with 65536.
  change (16 ^ 5) with 1048576. change (16 ^ 6) with 16777216.
  change (16 ^ 7) with 268435456. change (16 ^ 8) with 4294967296.
  change (16 ^ 9) with 68719476736. change (16 ^ 10) with 1099511627776.
  change (16 ^ 11) with 17592186044416. change (16 ^ 12) with 281474976710656.
  change (16 ^ 13) with 4503599627370496.
  change (16 ^ 14) with 72057594037927936.
  change (16 ^ 15) with 1152921504606846976.
  repeat (f_equal; [f_equal; Z.div_mod_to_equations; lia|]).
  do 2 f_equal. Z.div_mod_to_equations. lia.
Qed.

Lemma string_of_list_ascii_app l1 l2 :
  string_of_list_ascii (l1 ++ l2)
  = (string_of_list_ascii l1 ++ string_of_list_ascii l2)%string.
Proof.
  induction l1 as [|c l1 IH]; [reflexivity|].
  cbn [app string_of_list_ascii String.append]. rewrite IH. reflexivity.
Qed.

Lemma string_append_assoc (s1 s2 s3 : string) :
  ((s1 ++ s2) ++ s3 = s1 ++ (s2 ++ s3))%string.
Proof.
  induction s1 as [|c s1 IH]; [reflexivity|].
  cbn [String.append]. rewrite IH. reflexivity.
Qed.

Lemma read_uint64_Some mem off :
  0 <= off -> off + 8 <= Z.of_nat (length mem) ->
  read_uint64 mem off = Some (uint64_of_bytes (take 8 (drop (Z.to_nat off) mem))).
Proof.
  intros H1 H2. unfold read_uint64. rewrite mem_read_Some by lia. reflexivity.
Qed.

Lemma print_hash_Some (buf : list Z) :
  (32 <= length buf)%nat ->
  Forall (fun b => 0 <= b < 256) buf ->
  let digits (bs : list Z) :=
    flat_map (fun b => [hex_digit (b / 16); hex_digit (b mod 16)]) bs in
  print_hash buf
  = Some (string_of_list_ascii
            (digits (rev (take 8 (drop 24 buf))) ++ " "%char
             :: digits (rev (take 8 (drop 16 buf))) ++ " "%char
             :: digits (rev (take 8 (drop 8 buf))) ++ " "%char
             :: digits (rev (take 8 buf)) ++ [" "%char; "010"%char])).
Proof.
  intros Hl Hr digits.
  assert (Hw : forall off : nat, (off + 8 <= length buf)%nat ->
            read_uint64 buf (Z.of_nat off)
            = Some (uint64_of_bytes (take 8 (drop off buf)))
            /\ hex16 (uint64_of_bytes (take 8 (drop off buf)))
               = string_of_list_ascii (digits (rev (take 8 (drop off buf))))).
  { intros off Ho. split.
    - rewrite read_uint64_Some by lia. rewrite Nat2Z.id. reflexivity.
    - apply hex16_of_bytes.
      + rewrite length_take, length_drop. lia.
      + apply Forall_take, Forall_drop, Hr. }
  unfold print_hash. cbn [foldl].
  destruct (Hw 24%nat ltac:(lia)) as [R3 E3].
  destruct (Hw 16%nat ltac:(lia)) as [R2 E2].
  destruct (Hw 8%nat ltac:(lia)) as [R1 E1].
  destruct (Hw 0%nat ltac:(lia)) as [R0 E0].
  change (3 * 8) with (Z.of_nat 24). change (2 * 8) with (Z.of_nat 16).
  change (1 * 8) with (Z.of_nat 8). change (0 * 8) with (Z.of_nat 0).
  rewrite R3, R2, R1, R0. cbn [mbind option_bind].
  rewrite E3, E2, E1, E0. rewrite drop_0.
  f_equal.
  generalize (digits (rev (take 8 (drop 24 buf)))) as l3.
  generalize (digits (rev (take 8 (drop 16 buf)))) as l2.
  generalize (digits (rev (take 8 (drop 8 buf)))) as l1.
  generalize (digits (rev (take 8 buf))) as l0.
  intros l0 l1 l2 l3.
  repeat (rewrite string_of_list_ascii_app; cbn [string_of_list_ascii]).
  rewrite !string_append_assoc. cbn [String.append]. reflexivity.
Qed.

Lemma print_hash_short buf : (length buf < 32)%nat -> print_hash buf = None.
Proof.
  intros Hl.
  assert (E : read_uint64 buf (3 * 8) = None).
  { unfold read_uint64, mem_read. rewrite decide_False by lia. reflexivity. }
  unfold print_hash. cbn [foldl mbind option_bind]. rewrite E. reflexivity.
Qed.

(** X2.  [print_hash] on a buffer of at least 32 bytes writes the bytes 31
    down to 0, two lower-case hexadecimal digits each, with a space
    after every eighth byte and a newline at the end: four 64-bit words,
    the most significant first, each read little-endian.  On a shorter
    buffer it reads past the end. *)
Theorem print_hash_shows_bytes_reversed (buf : list Z) :
  Forall (fun b => 0 <= b < 256) buf ->
  let digits (bs : list Z) :=
    flat_map (fun b => [hex_digit (b / 16); hex_digit (b mod 16)]) bs in
  print_hash buf
  = if decide (32 <= length buf)%nat
    then Some (string_of_list_ascii
                 (digits (rev (take 8 (drop 24 buf))) ++ " "%char
                  :: digits (rev (take 8 (drop 16 buf))) ++ " "%char
                  :: digits (rev (take 8 (drop 8 buf))) ++ " "%char
                  :: digits (rev (take 8 buf)) ++ [" "%char; "010"%char]))
    else None.
Proof.
  intros Hr digits. destruct (decide _) as [Hl|Hl].
  - apply print_hash_Some; assumption.
  - apply print_hash_short. lia.
Qed.

(** ** [read_target_bytes] *)

Section Target.
Variable hexchar2int : ascii -> Z.

Lemma nibbles_byte h l :
  0 <= h < 16 -> 0 <= l < 16 ->
  wrap8 (Z.lor (Z.shiftl (wrap8 h) 4) (wrap8 l)) = 16 * h + l.
Proof.
  intros Hh Hl. pattern h. apply (hex_digit_cases _ h Hh);
    pattern l; apply (hex_digit_cases _ l Hl); reflexivity.
Qed.

Lemma read_target_bytes_lookup (str : string) (target : list Z) (i : nat) (h l : Z) :
  read_target_bytes hexchar2int str = inr target ->
  (i < 32)%nat ->
  hexchar2int (char_at str (2 * Z.of_nat i)) = h ->
  hexchar2int (char_at str (2 * Z.of_nat i + 1)) = l ->
  0 <= h < 16 -> 0 <= l < 16 ->
  target !! i = Some (16 * h + l).
Proof.
  unfold read_target_bytes. destruct (decide _) as [Hlen|]; [|discriminate].
  intros E Hi Eh El Hh Hl.
  match type of E with inr (map ?f ?l) = _ =>
    assert (E' : target = map f l) by congruence;
    change (map f l) with (f <$> l) in E' end.
  rewrite E'.
  rewrite list_lookup_fmap, lookup_seqZ_lt by lia. cbn [fmap option_fmap option_map].
  rewrite Z.add_0_l, Eh, El. f_equal. apply nibbles_byte; assumption.
Qed.

(** X1.  [read_target_bytes] checks the length of its string and nothing
    else: a string that is not 64 characters long fails the assertion; a
    string of 64 characters gives 32 bytes, each a [uint8_t], whatever
    the characters are.  Where [hexchar2int] reads the characters [2i]
    and [2i+1] as the digits [h] and [l], byte [i] is [16 h + l]: the
    first character of a pair is the high half. *)
Theorem read_target_bytes_decodes_pairs (str : string) :
  (String.length str <> 64%nat ->
     read_target_bytes hexchar2int str = inl AssertFailed)
  /\ (String.length str = 64%nat ->
        exists target,
          read_target_bytes hexchar2int str = inr target
          /\ length target = 32%nat
          /\ Forall (fun b => 0 <= b < 256) target
          /\ forall (i : nat) (h l : Z),
               (i < 32)%nat ->
               hexchar2int (char_at str (2 * Z.of_nat i)) = h ->
               hexchar2int (char_at str (2 * Z.of_nat i + 1)) = l ->
               0 <= h < 16 -> 0 <= l < 16 ->
               target !! i = Some (16 * h + l)).
Proof.
  split; intros Hl.
  - unfold read_target_bytes. rewrite decide_False by lia. reflexivity.
  - destruct (read_target_bytes hexchar2int str) as [t|target] eqn:E.
    { exfalso. revert E. unfold read_target_bytes.
      rewrite decide_True by lia. discriminate. }
    exists target. split; [reflexivity|].
    assert (E' : target
                 = (fun i => wrap8 (Z.lor
                       (Z.shiftl (wrap8 (hexchar2int (char_at str (2 * i)))) 4)
                       (wrap8 (hexchar2int (char_at str (2 * i + 1))))))
                   <$> seqZ 0 32).
    { revert E. unfold read_target_bytes. rewrite decide_True by lia.
      change (?f <$> ?l) with (map f l). congruence. }
    split; [rewrite E'; reflexivity|]. split.
    + rewrite E'. apply Forall_fmap, Forall_true. intros i.
      apply Z.mod_pos_bound. lia.
    + intros i h l. apply read_target_bytes_lookup. exact E.
Qed.

End Target.

(** ** [ref_search_nonce]: bounds and lanes *)

Section Lanes.
Variable blake2s : Z -> list Z -> list Z.
Variable compare_uint256 : list Z -> list Z -> Z.

Local Abbreviation lane := (ref_search_nonce blake2s compare_uint256).

(** The verdict stored for a nonce. *)
Local Abbreviation verdict buf lbs target nonce :=
  (wrap8 (compare_uint256 target
            (blake2s BLAKE2S_OUTBYTES
               (uint64_bytes nonce ++ take (Z.to_nat (248 + lbs)) buf)))).







Lemma lane_result gid start K buf lbs target result :
  0 <= gid -> 0 <= K -> gid * K + K <= 2 ^ 64 ->
  gid * K + K <= Z.of_nat (length result) ->
  0 <= lbs <= 64 ->
  248 + lbs <= Z.of_nat (length buf) ->
  exists result',
    lane gid start K buf lbs target result = Some result'
    /\ length result' = length result
    /\ forall i : nat,
         result' !! i
         = if decide (gid * K <= Z.of_nat i < gid * K + K)
           then Some (verdict buf lbs target (wrap64 (start + Z.of_nat i)))
           else result !! i.
Proof.
  intros Hg HK Hw Hr Hl Hb.
  destruct (ref_search_nonce_writes blake2s compare_uint256
              gid start K buf lbs target result)
    as (r & Hf & Hlr & Hin & Hout); try assumption.
  exists r. split; [exact Hf|]. split; [exact Hlr|].
  intros i. destruct (decide _) as [Hi|Hi]; [|apply Hout, Hi].
  specialize (Hin (Z.of_nat i - gid * K) ltac:(lia)).
  replace (gid * K + (Z.of_nat i - gid * K)) with (Z.of_nat i) in Hin by lia.
  rewrite Nat2Z.id in Hin. exact Hin.
Qed.

(** X5.  What a lane writes depends neither on what the result array held
    nor on the lanes run before it: running a lane a second time changes
    nothing, and two lanes give the same array in either order. *)
Theorem ref_search_nonce_order_independent
    (g1 g2 start K : Z) (buf : list Z) (lbs : Z) (target result : list Z) :
  0 <= g1 -> 0 <= g2 -> 0 <= K ->
  g1 * K + K <= Z.of_nat (length result) ->
  g2 * K + K <= Z.of_nat (length result) ->
  Z.of_nat (length result) <= 2 ^ 64 ->
  0 <= lbs <= 64 ->
  248 + lbs <= Z.of_nat (length buf) ->
  exists r1 r12,
    ref_search_nonce blake2s compare_uint256 g1 start K buf lbs target result
    = Some r1
    /\ ref_search_nonce blake2s compare_uint256 g1 start K buf lbs target r1
       = Some r1
    /\ ref_search_nonce blake2s compare_uint256 g2 start K buf lbs target r1
       = Some r12
    /\ ref_search_nonce blake2s compare_uint256 g2 start K buf lbs target result
         ≫= ref_search_nonce blake2s compare_uint256 g1 start K buf lbs target
       = Some r12.
Proof.
  intros H1 H2 HK Hr1 Hr2 Hn Hl Hb.
  destruct (lane_result g1 start K buf lbs target result)
    as (r1 & E1 & L1 & V1); try lia.
  destruct (lane_result g1 start K buf lbs target r1)
    as (r11 & E11 & L11 & V11); try lia.
  destruct (lane_result g2 start K buf lbs target result)
    as (r2 & E2 & L2 & V2); try lia.
  destruct (lane_result g2 start K buf lbs target r1)
    as (r12 & E12 & L12 & V12); try lia.
  destruct (lane_result g1 start K buf lbs target r2)
    as (r21 & E21 & L21 & V21); try lia.
  exists r1, r12. split; [exact E1|]. split; [|split; [exact E12|]].
  - rewrite E11. f_equal. apply list_eq. intros i. rewrite V11, V1.
    destruct (decide _); reflexivity.
  - rewrite E2. cbn [mbind option_bind]. rewrite E21. f_equal.
    apply list_eq. intros i. rewrite V12, V21, V1, V2.
    destruct (decide (g1 * K <= Z.of_nat i < g1 * K + K)) as [A|A];
      destruct (decide (g2 * K <= Z.of_nat i < g2 * K + K)) as [C|C];
      reflexivity.
Qed.

(** X6.  After [ref_search_nonce] has run for the lanes [0 .. G-1], entry
    [t] of the result array, for [t < G * K], is the comparator's
    verdict, as a [uint8_t], on the digest of nonce
    [(start + t) mod 2^64]; the entries from [G * K] on are as before. *)
Theorem lanes_fill_the_window
    (start G K : Z) (buf : list Z) (lbs : Z) (target result : list Z) :
  0 <= G -> 0 <= K -> G * K <= 2 ^ 64 ->
  G * K <= Z.of_nat (length result) ->
  0 <= lbs <= 64 ->
  248 + lbs <= Z.of_nat (length buf) ->
  exists result',
    foldl (fun r gid =>
             r ≫= ref_search_nonce blake2s compare_uint256
                    gid start K buf lbs target)
          (Some result) (seqZ 0 G) = Some result'
    /\ length result' = length result
    /\ (forall t, 0 <= t < G * K ->
          result' !! Z.to_nat t
          = Some (wrap8 (compare_uint256 target
                   (blake2s BLAKE2S_OUTBYTES
                      (uint64_bytes (wrap64 (start + t))
                         ++ take (Z.to_nat (248 + lbs)) buf)))))
    /\ (forall i : nat, G * K <= Z.of_nat i -> result' !! i = result !! i).
Proof.
  intros HG HK. rewrite <- (Z2Nat.id G HG). clear HG.
  induction (Z.to_nat G) as [|g IH]; intros Hw Hr Hl Hb.
  - exists result. split; [reflexivity|]. split; [reflexivity|].
    split; [intros t Ht; lia|reflexivity].
  - destruct IH as (r & Ef & Lr & Vin & Vout); try nia.
    destruct (lane_result (Z.of_nat g) start K buf lbs target r)
      as (r' & El & Ll & Vl); try nia.
    exists r'. rewrite seqZ_S, foldl_app, Ef. cbn [foldl mbind option_bind].
    rewrite Z.add_0_l. split; [exact El|]. split; [congruence|].
    split.
    + intros t Ht. rewrite Vl, Z2Nat.id by lia.
      destruct (decide _) as [Hi|Hi]; [reflexivity|].
      apply Vin. nia.
    + intros i Hi. rewrite Vl, decide_False by nia. apply Vout. nia.
Qed.

End Lanes.

(** ** The options *)

(** What one option does to each variable. *)
Lemma handle_option_effect c opt optarg c' :
  handle_option c opt optarg = inr c' ->
  (if (opt =? "d")%char then stoi optarg 10 = inr (deviceOverride c')
   else deviceOverride c' = deviceOverride c)
  /\ (if (opt =? "p")%char then stoi optarg 10 = inr (platformOverride c')
      else platformOverride c' = platformOverride c)
  /\ (if (opt =? "l")%char then stoi optarg 10 = inr (localWorkSize c')
      else localWorkSize c' = localWorkSize c)
  /\ (if (opt =? "w")%char then stoi optarg 10 = inr (workSetSize c')
      else workSetSize c' = workSetSize c)
  /\ (if (opt =? "g")%char then stoi optarg 10 = inr (globalSize c')
      else globalSize c' = globalSize c)
  /\ (if (opt =? "n")%char
      then exists v, stoi optarg 16 = inr v
                     /\ nonceOverride c' = Some (size_t_of_int v)
      else nonceOverride c' = nonceOverride c)
  /\ (kernelPath c' = if (opt =? "k")%char then Some optarg else kernelPath c)
  /\ (alternativeNonce c'
      = if (opt =? "f")%char then true else alternativeNonce c)
  /\ (quiet c' = if (opt =? "v")%char then false else quiet c).
Proof.
  destruct opt as [b0 b1 b2 b3 b4 b5 b6 b7].
  destruct b0, b1, b2, b3, b4, b5, b6, b7;
    cbn [handle_option Ascii.eqb Bool.eqb]; unfold with_int;
    try destruct (stoi optarg 10) as [e|v] eqn:E10;
    try destruct (stoi optarg 16) as [e'|v'] eqn:E16;
    intros E; try discriminate E;
    apply (f_equal (fun x => match x with inr c => c | inl _ => c' end)) in E;
    cbv beta iota in E; subst c';
    cbn [deviceOverride platformOverride localWorkSize workSetSize globalSize
         nonceOverride kernelPath alternativeNonce quiet];
    repeat split; eauto.
Qed.

Lemma parse_options_app c0 l1 l2 :
  parse_options c0 (l1 ++ l2)
  = match parse_options c0 l1 with
    | inl t => inl t
    | inr c1 => parse_options c1 l2
    end.
Proof.
  revert c0. induction l1 as [|[opt optarg] l1 IH]; intros c0; [reflexivity|].
  cbn [app parse_options]. destruct (handle_option c0 opt optarg); [reflexivity|].
  apply IH.
Qed.

Lemma eqb_false_of_not_In (a opt : ascii) (optarg : string) l :
  ~ In a (map fst ((opt, optarg) :: l)) ->
  (opt =? a)%char = false /\ ~ In a (map fst l).
Proof.
  cbn [map fst In]. intros Hn. split.
  - apply Ascii.eqb_neq. intros ->. apply Hn. left. reflexivity.
  - intros Hi. apply Hn. right. exact Hi.
Qed.

(** An option that does not occur leaves its variable alone. *)
Lemma parse_options_frame c0 opts c :
  parse_options c0 opts = inr c ->
  let absent a := ~ In a (map fst opts) in
  (absent "d"%char -> deviceOverride c = deviceOverride c0)
  /\ (absent "p"%char -> platformOverride c = platformOverride c0)
  /\ (absent "l"%char -> localWorkSize c = localWorkSize c0)
  /\ (absent "w"%char -> workSetSize c = workSetSize c0)
  /\ (absent "g"%char -> globalSize c = globalSize c0)
  /\ (absent "n"%char -> nonceOverride c = nonceOverride c0)
  /\ (absent "k"%char -> kernelPath c = kernelPath c0)
  /\ (absent "f"%char -> alternativeNonce c = alternativeNonce c0)
  /\ (absent "v"%char -> quiet c = quiet c0).
Proof.
  cbv zeta. revert c0.
  induction opts as [|[opt optarg] opts IH]; intros c0.
  - intros [= <-]. repeat split; reflexivity.
  - cbn [parse_options].
    destruct (handle_option c0 opt optarg) as [t|c1] eqn:Eh; [discriminate|].
    intros Hp. specialize (IH c1 Hp).
    destruct (handle_option_effect _ _ _ _ Eh)
      as (Ed & Ep & El & Ew & Eg & En & Ek & Ef & Ev).
    destruct IH as (Id & Ip & Il & Iw & Ig & In' & Ik & If & Iv).
    repeat split; intros Ha; apply eqb_false_of_not_In in Ha as [Hne Ha].
    + rewrite Hne in Ed. rewrite Id by exact Ha. exact Ed.
    + rewrite Hne in Ep. rewrite Ip by exact Ha. exact Ep.
    + rewrite Hne in El. rewrite Il by exact Ha. exact El.
    + rewrite Hne in Ew. rewrite Iw by exact Ha. exact Ew.
    + rewrite Hne in Eg. rewrite Ig by exact Ha. exact Eg.
    + rewrite Hne in En. rewrite In' by exact Ha. exact En.
    + rewrite Hne in Ek. rewrite Ik by exact Ha. exact Ek.
    + rewrite Hne in Ef. rewrite If by exact Ha. exact Ef.
    + rewrite Hne in Ev. rewrite Iv by exact Ha. exact Ev.
Qed.

(** Once set, a flag, a kernel path or a nonce override stays set. *)
Lemma parse_options_sticky c0 opts c :
  parse_options c0 opts = inr c ->
  (alternativeNonce c0 = true -> alternativeNonce c = true)
  /\ (quiet c0 = false -> quiet c = false)
  /\ (nonceOverride c0 <> None -> nonceOverride c <> None)
  /\ (kernelPath c0 <> None -> kernelPath c <> None).
Proof.
  revert c0. induction opts as [|[opt optarg] opts IH]; intros c0.
  - intros [= <-]. repeat split; intros H; exact H.
  - cbn [parse_options].
    destruct (handle_option c0 opt optarg) as [t|c1] eqn:Eh; [discriminate|].
    intros Hp. destruct (IH c1 Hp) as (If & Iv & In' & Ik).
    destruct (handle_option_effect _ _ _ _ Eh)
      as (_ & _ & _ & _ & _ & En & Ek & Ef & Ev).
    repeat split; intros H0.
    + apply If. rewrite Ef. destruct (opt =? "f")%char; [reflexivity|exact H0].
    + apply Iv. rewrite Ev. destruct (opt =? "v")%char; [reflexivity|exact H0].
    + apply In'. destruct (opt =? "n")%char.
      * destruct En as (v & _ & ->). discriminate.
      * rewrite En. exact H0.
    + apply Ik. rewrite Ek. destruct (opt =? "k")%char; [discriminate|exact H0].
Qed.

Lemma parse_options_present c0 opts c a :
  parse_options c0 opts = inr c ->
  In a (map fst opts) ->
  (a = "f"%char -> alternativeNonce c = true)
  /\ (a = "v"%char -> quiet c = false)
  /\ (a = "n"%char -> nonceOverride c <> None)
  /\ (a = "k"%char -> kernelPath c <> None).
Proof.
  revert c0. induction opts as [|[opt optarg] opts IH]; intros c0; [intros _ []|].
  cbn [parse_options map fst In].
  destruct (handle_option c0 opt optarg) as [t|c1] eqn:Eh; [discriminate|].
  intros Hp [->|Hi]; [|apply (IH c1 Hp Hi)].
  destruct (parse_options_sticky _ _ _ Hp) as (Sf & Sv & Sn & Sk).
  destruct (handle_option_effect _ _ _ _ Eh)
    as (_ & _ & _ & _ & _ & En & Ek & Ef & Ev).
  repeat split; intros ->.
  - apply Sf. rewrite Ef. reflexivity.
  - apply Sv. rewrite Ev. reflexivity.
  - apply Sn. cbn in En. destruct En as (v & _ & ->). discriminate.
  - apply Sk. rewrite Ek. discriminate.
Qed.

(** X7.  After the options have been read, a variable whose option was not
    given has its initial value: device 0, platform -1, local work size
    256, work set size 64, global size 16777216.  The nonce is
    overridden, and a kernel path set, exactly when [-n], or [-k], was
    given; the alternative embedding and the verbose mode are on exactly
    when [-f], or [-v], was given: no later option undoes them. *)
Theorem options_not_given_keep_defaults (opts : list (ascii * string)) (c : config) :
  parse_options default_config opts = inr c ->
  let given a := In a (map fst opts) in
  (~ given "d"%char -> deviceOverride c = 0)
  /\ (~ given "p"%char -> platformOverride c = -1)
  /\ (~ given "l"%char -> localWorkSize c = 256)
  /\ (~ given "w"%char -> workSetSize c = 64)
  /\ (~ given "g"%char -> globalSize c = 16777216)
  /\ (nonceOverride c = None <-> ~ given "n"%char)
  /\ (kernelPath c = None <-> ~ given "k"%char)
  /\ (alternativeNonce c = true <-> given "f"%char)
  /\ (quiet c = false <-> given "v"%char).
Proof.
  intros Hp given.
  destruct (parse_options_frame _ _ _ Hp)
    as (Fd & Fp & Fl & Fw & Fg & Fn & Fk & Ff & Fv).
  pose proof (parse_options_present _ _ _ "n"%char Hp) as Pn.
  pose proof (parse_options_present _ _ _ "k"%char Hp) as Pk.
  pose proof (parse_options_present _ _ _ "f"%char Hp) as Pf.
  pose proof (parse_options_present _ _ _ "v"%char Hp) as Pv.
  split; [exact Fd|]. split; [exact Fp|]. split; [exact Fl|].
  split; [exact Fw|]. split; [exact Fg|].
  split; [|split; [|split]].
  - split; [|exact Fn]. intros E Hg.
    destruct (Pn Hg) as (_ & _ & Hn & _). apply Hn; [reflexivity|exact E].
  - split; [|exact Fk]. intros E Hg.
    destruct (Pk Hg) as (_ & _ & _ & Hk). apply Hk; [reflexivity|exact E].
  - split; [|intros Hg; apply (Pf Hg); reflexivity].
    intros E. destruct (in_dec ascii_dec "f"%char (map fst opts)) as [Hi|Hn];
      [exact Hi|]. rewrite (Ff Hn) in E. discriminate E.
  - split; [|intros Hg; destruct (Pv Hg) as (_ & Hv & _); apply Hv; reflexivity].
    intros E. destruct (in_dec ascii_dec "v"%char (map fst opts)) as [Hi|Hn];
      [exact Hi|]. rewrite (Fv Hn) in E. discriminate E.
Qed.

(** X8.  When an option is given more than once the last one counts: the
    variable holds what [std::stoi] read from the argument of the last
    occurrence (for [-n] in base 16 and converted to [uint64_t]; for
    [-k] the argument itself). *)
Theorem last_occurrence_of_an_option_counts
    (pre post : list (ascii * string)) (opt : ascii) (optarg : string) (c : config) :
  parse_options default_config (pre ++ (opt, optarg) :: post) = inr c ->
  ~ In opt (map fst post) ->
  (opt = "d"%char -> stoi optarg 10 = inr (deviceOverride c))
  /\ (opt = "p"%char -> stoi optarg 10 = inr (platformOverride c))
  /\ (opt = "l"%char -> stoi optarg 10 = inr (localWorkSize c))
  /\ (opt = "w"%char -> stoi optarg 10 = inr (workSetSize c))
  /\ (opt = "g"%char -> stoi optarg 10 = inr (globalSize c))
  /\ (opt = "n"%char ->
        exists v, stoi optarg 16 = inr v
                  /\ nonceOverride c = Some (size_t_of_int v))
  /\ (opt = "k"%char -> kernelPath c = Some optarg).
Proof.
  rewrite parse_options_app.
  destruct (parse_options default_config pre) as [t|c1]; [discriminate|].
  cbn [parse_options].
  destruct (handle_option c1 opt optarg) as [t|c2] eqn:Eh; [discriminate|].
  intros Hp Hn.
  destruct (parse_options_frame _ _ _ Hp)
    as (Fd & Fp & Fl & Fw & Fg & Fn & Fk & _).
  destruct (handle_option_effect _ _ _ _ Eh)
    as (Ed & Ep & El & Ew & Eg & En & Ek & _).
  repeat split; intros ->.
  - rewrite (Fd Hn). exact Ed.
  - rewrite (Fp Hn). exact Ep.
  - rewrite (Fl Hn). exact El.
  - rewrite (Fw Hn). exact Ew.
  - rewrite (Fg Hn). exact Eg.
  - rewrite (Fn Hn). exact En.
  - rewrite (Fk Hn). exact Ek.
Qed.

(** ** Numeric option arguments *)

Lemma read_digits_stops base ds rest acc any :
  1 < base <= 16 ->
  Forall (fun d => 0 <= d < base) ds ->
  match rest with
  | EmptyString => True
  | String ch _ => is_digit base ch = false
  end ->
  read_digits base (string_of_list_ascii (map hex_digit ds) ++ rest) acc any
  = if any || negb (Nat.eqb (length ds) 0)
    then Some (fold_left (fun a d => a * base + d) ds acc)
    else None.
Proof.
  intros Hb H Hrest. revert acc any. induction H as [|d ds Hd _ IH]; intros acc any.
  - cbn [map string_of_list_ascii String.append length fold_left Nat.eqb negb].
    rewrite orb_false_r.
    destruct rest as [|ch rest]; [reflexivity|].
    cbn [read_digits]. unfold is_digit in Hrest.
    destruct (digit_value ch) as [v|]; [|reflexivity].
    rewrite Hrest. reflexivity.
  - cbn [map string_of_list_ascii String.append read_digits length fold_left].
    rewrite digit_value_hex_digit by lia.
    replace (d <? base) with true by lia.
    rewrite IH. cbn. rewrite orb_true_r. reflexivity.
Qed.

Lemma decimal_digit_cases (P : Z -> Prop) d :
  0 <= d < 10 ->
  P 0 -> P 1 -> P 2 -> P 3 -> P 4 -> P 5 -> P 6 -> P 7 -> P 8 -> P 9 -> P d.
Proof.
  intros Hd.
  assert (E : d = 0 \/ d = 1 \/ d = 2 \/ d = 3 \/ d = 4 \/ d = 5 \/ d = 6
              \/ d = 7 \/ d = 8 \/ d = 9) by lia.
  intros. repeat (destruct E as [->|E]; [assumption|]). subst. assumption.
Qed.

(** X9.  [std::stoi] is called without a position to report where it
    stopped: an argument that starts with decimal digits is taken for
    the number they write, whatever follows them, and throws
    [std::out_of_range] when that number is above [INT_MAX].  So
    ["0x40"] given to [-w] is a work set size of 0.  ([hex_digit d] is
    the decimal digit [d] for [d < 10].) *)
Theorem numeric_option_ignores_trailing_characters
    (ds : list Z) (rest : string) :
  ds <> [] ->
  Forall (fun d => 0 <= d < 10) ds ->
  match rest with
  | EmptyString => True
  | String ch _ => is_digit 10 ch = false
  end ->
  let text := (string_of_list_ascii (map hex_digit ds) ++ rest)%string in
  let value := fold_left (fun a d => a * 10 + d) ds 0 in
  stoi text 10 = (if value <=? INT_MAX then inr value else inl out_of_range)
  /\ (value <= INT_MAX ->
      forall c,
        (exists c', handle_option c "w"%char text = inr c' /\ workSetSize c' = value)
        /\ (exists c', handle_option c "g"%char text = inr c' /\ globalSize c' = value)).
Proof.
  intros Hne Hds Hrest text value.
  assert (Hv : 0 <= value).
  { subst value. assert (G : forall acc, 0 <= acc ->
        0 <= fold_left (fun a d => a * 10 + d) ds acc).
    { clear Hne. induction Hds as [|d ds Hd _ IH]; intros acc Ha; [exact Ha|].
      cbn [fold_left]. apply IH. lia. }
    apply G. lia. }
  assert (Es : strtol text 10 = Some value).
  { unfold strtol, text.
    destruct ds as [|d ds]; [contradiction|].
    pose proof (Forall_inv Hds) as Hd. cbn beta in Hd.
    pose proof (read_digits_stops 10 (d :: ds) rest 0 false ltac:(lia) Hds Hrest)
      as Hrd.
    cbn [map string_of_list_ascii String.append skip_spaces] in *.
    assert (Hsp : isspace (hex_digit d) = false) by (apply isspace_hex_digit; lia).
    rewrite Hsp, read_sign_hex_digit by lia.
    assert (Hpre : forall r, skip_prefix 10 (String (hex_digit d) r)
                             = String (hex_digit d) r).
    { intros r. unfold skip_prefix.
      pattern d. apply (decimal_digit_cases _ d Hd);
        try reflexivity; destruct r as [|x [|y r]]; reflexivity. }
    rewrite Hpre, Hrd. reflexivity. }
  assert (E : stoi text 10
              = if value <=? INT_MAX then inr value else inl out_of_range).
  { unfold stoi. rewrite Es. unfold INT_MIN, INT_MAX in *.
    replace (- 2 ^ 31 <=? value) with true by lia. reflexivity. }
  split; [exact E|].
  intros Hmax c. replace (value <=? INT_MAX) with true in E by lia.
  split; eexists; cbn [handle_option]; unfold with_int; rewrite E;
    (split; [reflexivity|reflexivity]).
Qed.

(** A numeric argument that does not start with a digit. *)
Lemma stoi_without_digits (optarg : string) (base : Z) :
  match optarg with
  | EmptyString => True
  | String ch _ =>
      isspace ch = false /\ ch <> "-"%char /\ ch <> "+"%char
      /\ is_digit base ch = false
  end ->
  stoi optarg base = inl invalid_argument.
Proof.
  intros H.
  unfold stoi, strtol. destruct optarg as [|ch r]; [reflexivity|].
  destruct H as (Hsp & Hm & Hp & Hd).
  cbn [skip_spaces]. rewrite Hsp.
  assert (Es : read_sign (String ch r) = (false, String ch r)).
  { unfold read_sign.
    destruct ch as [[] [] [] [] [] [] [] []]; try reflexivity;
      exfalso; first [apply Hm; reflexivity|apply Hp; reflexivity]. }
  rewrite Es.
  assert (Ep : skip_prefix base (String ch r) = String ch r).
  { unfold skip_prefix, is_digit in *.
    destruct ch as [[] [] [] [] [] [] [] []]; try reflexivity.
    change (digit_value "0") with (Some 0) in Hd. cbv beta iota in Hd.
    destruct r as [|x [|y r]]; try reflexivity.
    destruct ((base =? 16) && _ && _) eqn:Eb; [|reflexivity].
    apply andb_prop in Eb as [Eb _]. apply andb_prop in Eb as [Eb _].
    apply Z.eqb_eq in Eb. apply Z.ltb_ge in Hd. lia. }
  rewrite Ep. cbn [read_digits]. unfold is_digit in Hd.
  destruct (digit_value ch) as [v|]; [rewrite Hd|]; reflexivity.
Qed.

(** ** The runs of [main], continued *)

Section Runs.

Variable blake2s : Z -> list Z -> list Z.
Variable compare_uint256 : list Z -> list Z -> Z.
Variable hexchar2int : ascii -> Z.
Context {B : Type} {backend_ops : OpenclBackend B}.

Local Abbreviation search_loop' := (search_loop blake2s compare_uint256).
Local Abbreviation setup' := (setup hexchar2int).
Local Abbreviation main' := (main blake2s compare_uint256 hexchar2int).
Local Abbreviation guard_hash' := (guard_hash blake2s).

Local Abbreviation advance e s b :=
  {| start_nonce := wrap64 (start_nonce s + env_nonce_step_size e);
     steps := wrap_int (steps s + 1);
     backend := b |}.

Ltac window_cases e s fuel :=
  let found := fresh "found" in
  let b := fresh "b" in
  let Hc := fresh "Hc" in
  let Hf := fresh "Hf" in
  destruct (continue_search (backend s) (start_nonce s)) as [found b] eqn:Hc;
  destruct (decide (wrap64 found = 0)) as [Hf|Hf];
  [ rewrite (search_loop_miss blake2s compare_uint256 fuel e s found b Hc Hf);
    cbv zeta
  | rewrite (search_loop_hit blake2s compare_uint256 fuel e s found b Hc Hf);
    destruct (guard_hash' (env_alternativeNonce e) (env_buf e) (env_bufsize e)
                         (wrap64 found)) as [hash|] eqn:Hg;
    [ destruct (compare_uint256 (env_target_hash e) hash =? -1) eqn:Hcmp | ] ].

(** X10.  [-h], or an option [getopt] does not know (it returns ['?']),
    after options that were read without an exception, ends the run with
    [exit(1)]: no window is dispatched and nothing is printed, whatever
    the operand and the standard input are. *)
Theorem usage_option_ends_the_run
    (fuel : nat) (inp : process_input)
    (pre post : list (ascii * string)) (opt : ascii) (optarg : string) (c : config) :
  options inp = pre ++ (opt, optarg) :: post ->
  opt = "h"%char \/ opt = "?"%char ->
  parse_options default_config pre = inr c ->
  main' fuel inp = {| windows := []; stdout := None; ending := Exited 1 |}.
Proof.
  intros Ho Hopt Hpre. apply (main_fatal blake2s compare_uint256). unfold setup.
  destruct (argc inp =? 1); [reflexivity|].
  rewrite Ho, parse_options_app, Hpre. cbn [parse_options].
  destruct Hopt as [-> | ->]; reflexivity.
Qed.

(** X11.  A numeric option whose argument is empty, or starts with a
    character that is neither white space, a sign nor a digit of the
    option's base, ends the run with an uncaught
    [std::invalid_argument]: no window is dispatched and nothing is
    printed. *)
Theorem numeric_option_without_digits_throws
    (fuel : nat) (inp : process_input)
    (pre post : list (ascii * string)) (opt : ascii) (optarg : string) (c : config) :
  argc inp <> 1 ->
  options inp = pre ++ (opt, optarg) :: post ->
  parse_options default_config pre = inr c ->
  In opt ["d"; "p"; "l"; "w"; "g"; "n"]%char ->
  match optarg with
  | EmptyString => True
  | String ch _ =>
      isspace ch = false /\ ch <> "-"%char /\ ch <> "+"%char
      /\ is_digit (if (opt =? "n")%char then 16 else 10) ch = false
  end ->
  main' fuel inp
  = {| windows := []; stdout := None; ending := Uncaught invalid_argument |}.
Proof.
  intros Ha Ho Hpre Hopt Harg.
  apply (main_fatal blake2s compare_uint256). unfold setup.
  apply Z.eqb_neq in Ha. rewrite Ha, Ho, parse_options_app, Hpre.
  cbn [parse_options].
  pose proof (stoi_without_digits optarg
                (if (opt =? "n")%char then 16 else 10) Harg) as E.
  cbn [In] in Hopt.
  destruct Hopt as [<-|[<-|[<-|[<-|[<-|[<-|[]]]]]]];
    cbn [Ascii.eqb Bool.eqb] in E; cbn [handle_option]; unfold with_int;
    rewrite E; reflexivity.
Qed.

(** How the loop ends, and when it prints. *)
Lemma loop_stdout_iff fuel e s :
  (stdout (search_loop' fuel e s) <> None <-> ending (search_loop' fuel e s) = Returned 0)
  /\ (forall status, ending (search_loop' fuel e s) = Returned status -> status = 0)
  /\ (forall status, ending (search_loop' fuel e s) = Exited status ->
        status = -1 /\ windows (search_loop' fuel e s) <> [])
  /\ ending (search_loop' fuel e s) <> AssertFailed
  /\ (forall x, ending (search_loop' fuel e s) <> Uncaught x).
Proof.
  revert s. induction fuel as [|fuel IH]; intros s.
  - cbn. repeat (split || intros); try discriminate; congruence.
  - window_cases e s fuel; cbn [stdout ending windows].
    + destruct (IH (advance e s b)) as (I1 & I2 & I3 & I4 & I5).
      split; [exact I1|]. split; [exact I2|]. split; [|split; [exact I4|exact I5]].
      intros st Hst. split; [apply (I3 st Hst)|discriminate].
    + repeat (split || intros); try discriminate; congruence.
    + repeat (split || intros); try discriminate; congruence.
    + repeat (split || intros); try discriminate; congruence.
Qed.

(** X12.  [main] prints a result line exactly in the runs that return 0,
    and 0 is the only status it returns.  [exit] is called with 1,
    before any window is dispatched, or with -1, after at least one; a
    run that ends with a failed assertion or an uncaught exception has
    dispatched no window. *)
Theorem result_line_iff_return_0 (fuel : nat) (inp : process_input) :
  let r := main' fuel inp in
  (stdout r <> None <-> ending r = Returned 0)
  /\ (forall status, ending r = Returned status -> status = 0)
  /\ (forall status, ending r = Exited status ->
        (status = 1 /\ windows r = []) \/ (status = -1 /\ windows r <> []))
  /\ (ending r = AssertFailed \/ (exists x, ending r = Uncaught x) ->
        windows r = []).
Proof.
  cbv zeta. destruct (setup' inp) as [t|[e s0]] eqn:Es.
  - rewrite (main_fatal _ _ _ _ _ _ Es). cbn [fatal stdout ending windows].
    destruct (setup_fatal _ _ _ Es) as [->|[[x ->]|[->| ->]]];
      (split; [split; [intros H; contradiction H; reflexivity|discriminate]|]);
      (split; [discriminate|]); (split; [|reflexivity]); try discriminate.
    intros st [= <-]. left. split; reflexivity.
  - rewrite (main_search _ _ _ _ _ _ _ Es).
    destruct (loop_stdout_iff fuel e s0) as (I1 & I2 & I3 & I4 & I5).
    split; [exact I1|]. split; [exact I2|]. split.
    + intros st Hst. right. apply (I3 st Hst).
    + intros [Ha|[x Hx]]; [contradiction|]. contradiction (I5 x).
Qed.

(** [steps] counts the windows dispatched. *)
Lemma wrap_int_add_l a b : wrap_int (wrap_int a + b) = wrap_int (a + b).
Proof.
  unfold wrap_int. f_equal.
  replace ((a + 2 ^ 31) mod 2 ^ 32 - 2 ^ 31 + b + 2 ^ 31)
    with ((a + 2 ^ 31) mod 2 ^ 32 + b) by lia.
  rewrite Zplus_mod_idemp_l. f_equal. lia.
Qed.

Lemma loop_hash_count fuel e s n h :
  stdout (search_loop' fuel e s) = Some (n, h) ->
  h = wrap64 (size_t_of_int
                (wrap_int (steps s + Z.of_nat (length (windows (search_loop' fuel e s)))))
              * env_nonce_step_size e).
Proof.
  revert s. induction fuel as [|fuel IH]; intros s; [discriminate|].
  window_cases e s fuel; cbn [windows stdout length]; try discriminate.
  - intros Hout. rewrite (IH _ Hout). cbn [steps].
    rewrite wrap_int_add_l. do 4 f_equal. lia.
  - intros [= _ <-]. reflexivity.
Qed.

(** X13.  The hash count on the result line is the number of windows
    dispatched times [globalSize * workSetSize], modulo 2^64 (in runs of
    fewer than 2^31 windows, where [steps] does not overflow): the last
    window counts in full, wherever in it the nonce was found. *)
Theorem hash_count_on_result_line
    (fuel : nat) (inp : process_input) (c : config) (n h : Z) :
  parse_options default_config (options inp) = inr c ->
  Z.of_nat fuel < 2 ^ 31 ->
  let r := main' fuel inp in
  stdout r = Some (n, h) ->
  h = (Z.of_nat (length (windows r)) * (globalSize c * workSetSize c)) mod 2 ^ 64.
Proof.
  intros Hp Hfuel r Hout. subst r.
  destruct (setup' inp) as [t|[e s0]] eqn:Es.
  { rewrite (main_fatal _ _ _ _ _ _ Es) in Hout. discriminate Hout. }
  rewrite (main_search _ _ _ _ _ _ _ Es) in *.
  destruct (setup_inv _ _ _ _ Es) as (c' & str & lbs & _ & Hp' & _ & _ & _ & _ & _ & HW & Hs).
  rewrite Hp in Hp'. injection Hp' as <-.
  rewrite (loop_hash_count _ _ _ _ _ Hout), Hs, HW.
  pose proof (search_loop_length blake2s compare_uint256 fuel e s0) as Hlen.
  set (len := length (windows (search_loop' fuel e s0))) in *.
  unfold wrap_int, size_t_of_int, wrap64.
  rewrite Z.add_0_l.
  rewrite (Z.mod_small (Z.of_nat len + 2 ^ 31)) by lia.
  replace (Z.of_nat len + 2 ^ 31 - 2 ^ 31) with (Z.of_nat len) by lia.
  rewrite (Z.mod_small (Z.of_nat len)) by lia.
  rewrite <- (Z.mul_mod (globalSize c)) by lia.
  rewrite Z.mul_mod_idemp_r by lia. reflexivity.
Qed.

(** A loop is still searching when every answer so far was the
    sentinel. *)
Lemma loop_running_iff fuel e s :
  ending (search_loop' fuel e s) = Running
  <-> length (windows (search_loop' fuel e s)) = fuel
      /\ Forall (fun w => snd w = 0) (windows (search_loop' fuel e s)).
Proof.
  revert s. induction fuel as [|fuel IH]; intros s.
  - cbn. split; [intros _; split; [reflexivity|constructor]|reflexivity].
  - window_cases e s fuel; cbn [windows ending length].
    + rewrite IH. split.
      * intros [Hl Hz]. split; [lia|]. constructor; [reflexivity|exact Hz].
      * intros [Hl Hz]. split; [lia|]. exact (Forall_inv_tail Hz).
    + split; [discriminate|]. intros [_ Hz]. apply Forall_inv in Hz.
      cbn [snd] in Hz. contradiction.
    + split; [discriminate|]. intros [_ Hz]. apply Forall_inv in Hz.
      cbn [snd] in Hz. contradiction.
    + split; [discriminate|]. intros [_ Hz]. apply Forall_inv in Hz.
      cbn [snd] in Hz. contradiction.
Qed.

(** X14.  The loop has no way out other than a candidate: a run that has
    reached the loop is still searching after [fuel] windows exactly
    when it has dispatched [fuel] windows and each came back with 0. *)
Theorem search_goes_on_while_answers_are_zero
    (fuel : nat) (inp : process_input) (c : config) (str : string) (start : Z) :
  argc inp <> 1 ->
  parse_options default_config (options inp) = inr c ->
  operand inp = Some str ->
  String.length str = 64%nat ->
  257 <= snd (fread_buf inp) <= 320 ->
  initial_start_nonce c (urandom inp) = Some start ->
  let r := main' fuel inp in
  ending r = Running
  <-> length (windows r) = fuel /\ Forall (fun w => snd w = 0) (windows r).
Proof.
  intros Ha Hp Hs Hl Hh Hi r. subst r.
  destruct (read_target_bytes_ok hexchar2int str Hl) as [target Ht].
  destruct (setup_ok hexchar2int _ _ _ _ _ Ha Hp Hs Ht Hh Hi) as (e & s0 & Es & _).
  rewrite (main_search _ _ _ _ _ _ _ Es).
  apply loop_running_iff.
Qed.

(** X16.  Two null pointers [main] passes on.  With options read without
    an exception and no operand after them, [argv[optind]] is null and
    [read_target_bytes] calls [strlen] on it: undefined behaviour, not
    the usage text.  Without [-n], once the target and the header have
    been accepted, a [/dev/urandom] that cannot be opened gives [fread]
    a null stream.  The accesses to [buf] are in bounds: the [memset]
    that pads the header always is, and in a run that reaches the loop
    the guard reads [bufsize - 8] bytes inside [buf], for every nonce. *)
Theorem null_operand_and_null_stream_are_passed_on
    (fuel : nat) (inp : process_input) (c : config) :
  argc inp <> 1 ->
  parse_options default_config (options inp) = inr c ->
  (operand inp = None ->
     main' fuel inp = {| windows := []; stdout := None; ending := Undefined |})
  /\ (forall str,
        operand inp = Some str ->
        String.length str = 64%nat ->
        257 <= snd (fread_buf inp) <= 320 ->
        nonceOverride c = None ->
        urandom inp = None ->
        main' fuel inp = {| windows := []; stdout := None; ending := Undefined |})
  /\ read_header inp <> inl Undefined
  /\ (forall e s0 found,
        setup' inp = inr (e, s0) ->
        0 <= env_bufsize e - 8
        /\ env_bufsize e <= Z.of_nat (length (env_buf e))
        /\ is_Some (guard_hash' (env_alternativeNonce e) (env_buf e)
                                (env_bufsize e) found)).
Proof.
  intros Ha Hp. pose proof Ha as Ha'. apply Z.eqb_neq in Ha'.
  split; [|split; [|split]].
  - intros Ho. apply (main_fatal blake2s compare_uint256). unfold setup.
    rewrite Ha', Hp, Ho. reflexivity.
  - intros str Ho Hl Hh Hn Hu.
    apply (main_fatal blake2s compare_uint256). unfold setup.
    rewrite Ha', Hp, Ho.
    destruct (read_target_bytes_ok hexchar2int str Hl) as [target Ht].
    rewrite Ht, read_header_accepts by exact Hh.
    unfold initial_start_nonce. rewrite Hn, Hu. reflexivity.
  - intros E. apply read_header_fatal in E. discriminate E.
  - intros e s0 found Es.
    destruct (setup_header hexchar2int _ _ _ Es) as (Hr & _ & Hl & _).
    unfold BUF_SIZE in Hl.
    split; [lia|]. split; [lia|].
    rewrite (setup_guard blake2s hexchar2int _ _ _ found Es). eexists. reflexivity.
Qed.

(** The first window is dispatched at the start nonce. *)
Lemma loop_first_window fuel e s :
  exists found, windows (search_loop' (S fuel) e s) !! 0%nat = Some (start_nonce s, found).
Proof.
  window_cases e s fuel; cbn [windows]; eexists; reflexivity.
Qed.

Lemma override_first_window fuel inp pre optarg post c str :
  argc inp <> 1 ->
  options inp = pre ++ ("n"%char, optarg) :: post ->
  ~ In "n"%char (map fst post) ->
  parse_options default_config (options inp) = inr c ->
  operand inp = Some str ->
  String.length str = 64%nat ->
  257 <= snd (fread_buf inp) <= 320 ->
  exists v found,
    stoi optarg 16 = inr v
    /\ windows (main' (S fuel) inp) !! 0%nat = Some (wrap64 v, found).
Proof.
  intros Ha Ho Hn Hp Hs Hl Hh.
  assert (Hv : exists v, stoi optarg 16 = inr v
                         /\ nonceOverride c = Some (size_t_of_int v)).
  { revert Hp. rewrite Ho, parse_options_app.
    destruct (parse_options default_config pre) as [t|c1]; [discriminate|].
    cbn [parse_options].
    destruct (handle_option c1 "n" optarg) as [t|c2] eqn:Eh; [discriminate|].
    intros Hp.
    destruct (parse_options_frame _ _ _ Hp) as (_ & _ & _ & _ & _ & Fn & _).
    destruct (handle_option_effect _ _ _ _ Eh) as (_ & _ & _ & _ & _ & En & _).
    rewrite (Fn Hn). exact En. }
  destruct Hv as (v & Ev & En).
  destruct (read_target_bytes_ok hexchar2int str Hl) as [target Ht].
  assert (Hi : initial_start_nonce c (urandom inp) = Some (wrap64 v)).
  { unfold initial_start_nonce. rewrite En. reflexivity. }
  destruct (setup_ok hexchar2int _ _ _ _ _ Ha Hp Hs Ht Hh Hi)
    as (e & s0 & Es & Hst & _).
  rewrite (main_search _ _ _ _ _ _ _ Es).
  destruct (loop_first_window fuel e s0) as [found Hw].
  exists v, found. split; [exact Ev|]. rewrite <- Hst. exact Hw.
Qed.

(** X17.  With [-n], the first window starts at the value [std::stoi] read
    in base 16 from the argument of the last [-n], converted to
    [uint64_t]: a negative value [v] starts the search at [2^64 + v].
    [/dev/urandom] is not consulted. *)
Theorem nonce_override_is_the_first_start
    (fuel : nat) (inp : process_input) (pre post : list (ascii * string))
    (optarg : string) (c : config) (str : string) :
  argc inp <> 1 ->
  options inp = pre ++ ("n"%char, optarg) :: post ->
  ~ In "n"%char (map fst post) ->
  parse_options default_config (options inp) = inr c ->
  operand inp = Some str ->
  String.length str = 64%nat ->
  257 <= snd (fread_buf inp) <= 320 ->
  exists v found,
    stoi optarg 16 = inr v
    /\ windows (main' (S fuel) inp) !! 0%nat
       = Some ((if v <? 0 then 2 ^ 64 + v else v), found).
Proof.
  intros Ha Ho Hn Hp Hs Hl Hh.
  destruct (override_first_window fuel inp pre optarg post c str)
    as (v & found & Ev & Hw); try assumption.
  exists v, found. split; [exact Ev|]. rewrite Hw. do 2 f_equal.
  pose proof (stoi_range _ _ _ Ev) as Hr. unfold INT_MIN, INT_MAX, wrap64 in *.
  destruct (v <? 0) eqn:E.
  - replace v with (2 ^ 64 + v - 1 * 2 ^ 64) at 1 by lia.
    rewrite Zminus_mod, Z_mod_mult, Z.sub_0_r, Z.mod_mod, Z.mod_small by lia.
    reflexivity.
  - apply Z.mod_small. lia.
Qed.

(** X18.  A nonce below 2^31, written with sixteen digits as the result
    line writes it, is read back by [strtol] in base 16 as the same
    value; given to [-n], it makes the first window start at that
    nonce. *)
Theorem printed_nonce_below_2_31_resumes_the_search
    (fuel : nat) (inp : process_input) (pre post : list (ascii * string))
    (v : Z) (c : config) (str : string) :
  0 <= v < 2 ^ 31 ->
  argc inp <> 1 ->
  options inp = pre ++ ("n"%char, hex16 v) :: post ->
  ~ In "n"%char (map fst post) ->
  parse_options default_config (options inp) = inr c ->
  operand inp = Some str ->
  String.length str = 64%nat ->
  257 <= snd (fread_buf inp) <= 320 ->
  strtol (hex16 v) 16 = Some v
  /\ exists found, windows (main' (S fuel) inp) !! 0%nat = Some (v, found).
Proof.
  intros Hv Ha Ho Hn Hp Hs Hl Hh.
  split; [apply strtol_hex16; lia|].
  destruct (override_first_window fuel inp pre (hex16 v) post c str)
    as (v' & found & Ev & Hw); try assumption.
  rewrite stoi_hex16 in Ev by lia. unfold INT_MAX in Ev.
  replace (v <=? 2 ^ 31 - 1) with true in Ev by lia.
  injection Ev as Ev. subst v'.
  exists found. rewrite Hw, wrap64_small by lia. reflexivity.
Qed.

(** X19.  A global size or a work set size of 0 is not rejected.  With
    such options, a target of 64 characters, a header of valid length
    and a start nonce, [main] reaches the loop with a step of 0 and
    dispatches; every window is dispatched at the initial start nonce;
    the run ends with a result line, with [exit(-1)], or is still
    searching, and it is still searching after [fuel] windows exactly
    when it has dispatched that same window [fuel] times, each time
    answered with 0; a result line gives a hash count of 0. *)
Theorem zero_size_repeats_the_window
    (inp : process_input) (c : config) (str : string) (start : Z) :
  argc inp <> 1 ->
  parse_options default_config (options inp) = inr c ->
  globalSize c = 0 \/ workSetSize c = 0 ->
  operand inp = Some str ->
  String.length str = 64%nat ->
  257 <= snd (fread_buf inp) <= 320 ->
  initial_start_nonce c (urandom inp) = Some start ->
  exists e s0,
    setup' inp = inr (e, s0)
    /\ env_nonce_step_size e = 0
    /\ start_nonce s0 = start
    /\ forall fuel,
         let r := main' fuel inp in
         (ending r = Returned 0 \/ ending r = Exited (-1) \/ ending r = Running)
         /\ ((0 < fuel)%nat ->
             exists found, windows r !! 0%nat = Some (start, found))
         /\ (forall w, In w (windows r) -> fst w = start)
         /\ (ending r = Running <-> windows r = replicate fuel (start, 0))
         /\ (forall n h, stdout r = Some (n, h) -> h = 0).
Proof.
  intros Ha Hp Hz Hs Hl Hh Hi.
  destruct (read_target_bytes_ok hexchar2int str Hl) as [target Ht].
  destruct (setup_ok hexchar2int _ _ _ _ _ Ha Hp Hs Ht Hh Hi)
    as (e & s0 & Es & Hst & HW & _).
  assert (HW0 : env_nonce_step_size e = 0).
  { rewrite HW. destruct Hz as [-> | ->]; [reflexivity|].
    rewrite Z.mul_0_r. reflexivity. }
  pose proof (setup_start_range _ _ _ _ Es) as Hrange.
  exists e, s0. split; [exact Es|]. split; [exact HW0|]. split; [exact Hst|].
  intros fuel. cbv zeta. rewrite (main_search _ _ _ _ _ _ _ Es).
  assert (Hstart : forall w, In w (windows (search_loop' fuel e s0)) ->
                             fst w = start).
  { intros w Hw. apply list_elem_of_In, list_elem_of_lookup in Hw as [k Hk].
    rewrite (search_loop_window_start _ _ _ _ _ _ _ Hrange Hk), HW0, Z.mul_0_r,
      Z.add_0_r, wrap64_small, Hst by exact Hrange.
    reflexivity. }
  split.
  { apply search_loop_endings. intros n.
    rewrite (setup_guard blake2s _ _ _ _ n Es). eexists. reflexivity. }
  split.
  { intros Hf. destruct fuel as [|fuel]; [lia|].
    rewrite <- Hst. apply loop_first_window. }
  split; [exact Hstart|].
  split.
  { rewrite loop_running_iff. split.
    - intros [Hlen Hzero]. symmetry. apply replicate_as_Forall.
      split; [exact Hlen|].
      apply Forall_forall. intros [a b] Hw.
      pose proof (Hstart (a, b) (proj1 (list_elem_of_In _ _) Hw)) as Ea.
      rewrite Forall_forall in Hzero. pose proof (Hzero _ Hw) as Eb.
      cbn [fst snd] in Ea, Eb. subst. reflexivity.
    - intros E. rewrite E. split; [apply length_replicate|].
      apply Forall_replicate. reflexivity. }
  intros n h Hout. rewrite (loop_hash_count _ _ _ _ _ Hout), HW0, Z.mul_0_r.
  reflexivity.
Qed.

End Runs.

(** ** Bytes to value and back *)

Lemma uint64_bytes_of_bytes bs :
  length bs = 8%nat ->
  Forall (fun b => 0 <= b < 256) bs ->
  uint64_bytes (uint64_of_bytes bs) = bs.
Proof.
  intros Hl Hr.
  do 8 (destruct bs as [|? bs]; [discriminate Hl|]).
  destruct bs; [|discriminate Hl]. clear Hl.
  repeat match goal with H : Forall _ (_ :: _) |- _ =>
    let H1 := fresh in let H2 := fresh in
    apply Forall_cons in H; destruct H as [H1 H2] end.
  cbn [uint64_of_bytes].
  rewrite !(fun a => Z.mod_small a 256) by lia.
  rewrite uint64_bytes_unfold, !uint64_byte_div by lia.
  change (256 ^ 0) with 1. change (256 ^ 1) with 256.
  change (256 ^ 2) with 65536. change (256 ^ 3) with 16777216.
  change (256 ^ 4) with 4294967296. change (256 ^ 5) with 1099511627776.
  change (256 ^ 6) with 281474976710656. change (256 ^ 7) with 72057594037927936.
  repeat (f_equal; [Z.div_mod_to_equations; lia|]).
  f_equal. Z.div_mod_to_equations. lia.
Qed.

(** X20.  With eight bytes from [/dev/urandom] the start nonce is a
    [uint64_t] whose bytes, as [blake2s_update] is given them, are these
    eight bytes in order: reading bytes into the variable and hashing
    the variable's bytes are inverse to each other. *)
Theorem entropy_bytes_are_the_first_nonce_bytes (c : config) (bytes : list Z) :
  nonceOverride c = None ->
  (8 <= length bytes)%nat ->
  Forall (fun b => 0 <= b < 256) (take 8 bytes) ->
  exists start,
    initial_start_nonce c (Some bytes) = Some start
    /\ 0 <= start < 2 ^ 64
    /\ uint64_bytes start = take 8 bytes.
Proof.
  intros Hn Hl Hr.
  assert (Hl8 : length (take 8 bytes) = 8%nat) by (rewrite length_take; lia).
  exists (uint64_of_bytes (take 8 bytes)).
  split.
  { rewrite initial_start_nonce_urandom by exact Hn.
    rewrite Hl8. cbn [Nat.sub replicate]. rewrite app_nil_r. reflexivity. }
  split.
  { pose proof (uint64_of_bytes_range (take 8 bytes)) as H.
    rewrite Hl8 in H. exact H. }
  assert (E : uint64_bytes (uint64_of_bytes (take 8 bytes)) = take 8 bytes)
    by (apply uint64_bytes_of_bytes; assumption).
  exact E.
Qed.

(** ** The nonce field of the header *)

Section Field.
Variable blake2s : Z -> list Z -> list Z.

(** X21.  The guard does not read the nonce field of the header: two
    buffers that agree on bytes [8, bufsize) in prefix mode, on bytes
    [0, bufsize - 8) in suffix mode, give the same digest for every
    nonce, whatever they hold in the field, in the padding and
    beyond. *)
Theorem guard_ignores_the_nonce_field
    (alt : bool) (buf buf' : list Z) (bufsize found : Z) :
  257 <= bufsize <= 320 ->
  bufsize <= Z.of_nat (length buf) ->
  bufsize <= Z.of_nat (length buf') ->
  (forall i : nat,
     (if alt then Z.of_nat i < bufsize - 8 else 8 <= Z.of_nat i < bufsize) ->
     buf !! i = buf' !! i) ->
  guard_hash blake2s alt buf bufsize found
  = guard_hash blake2s alt buf' bufsize found.
Proof.
  intros Hs Hb Hb' Hagree.
  rewrite !guard_hash_oracle by lia.
  unfold hash_oracle. do 2 f_equal.
  destruct alt; cbn [mode_of oracle_message]; f_equal.
  - rewrite !length_take_le by lia. rewrite !take_take.
    apply list_eq. intros i.
    destruct (decide (Z.of_nat i < bufsize - 8)) as [Hi|Hi].
    + rewrite !lookup_take_lt by lia. apply Hagree, Hi.
    + rewrite !lookup_take_ge by lia. reflexivity.
  - apply list_eq. intros i. rewrite !lookup_drop.
    destruct (decide (8 + Z.of_nat i < bufsize)) as [Hi|Hi].
    + rewrite !lookup_take_lt by lia. apply Hagree. lia.
    + rewrite !lookup_take_ge by lia. reflexivity.
Qed.

End Field.

(** ** The target in the diagnostic of a bad nonce *)

Lemma get_string_of_list_ascii (l : list ascii) (i : nat) :
  String.get i (string_of_list_ascii l) = l !! i.
Proof.
  revert i. induction l as [|c l IH]; intros [|i]; try reflexivity.
  cbn [string_of_list_ascii String.get]. apply IH.
Qed.

Lemma length_string_of_list_ascii (l : list ascii) :
  String.length (string_of_list_ascii l) = length l.
Proof. induction l as [|c l IH]; [reflexivity|]. cbn. rewrite IH. reflexivity. Qed.

Lemma byte_nibbles h l :
  0 <= h < 16 -> 0 <= l < 16 ->
  (16 * h + l) / 16 = h /\ (16 * h + l) mod 16 = l.
Proof. intros Hh Hl. split; Z.div_mod_to_equations; lia. Qed.

Section Diagnostic.
Variable hexchar2int : ascii -> Z.
Hypothesis hexchar2int_digit :
  forall d, 0 <= d < 16 -> hexchar2int (hex_digit d) = d.

(** X3.  The target as the diagnostic of a bad nonce shows it.  For a
    target operand of 64 lower-case hexadecimal digits, and a
    [hexchar2int] that gives the value of such a digit, [print_hash] on
    what [read_target_bytes] returns writes the operand's pairs of
    characters in reverse order, pair 31 first. *)
Theorem print_hash_of_target_reverses_the_pairs (ds : list Z) :
  length ds = 64%nat ->
  Forall (fun d => 0 <= d < 16) ds ->
  let str := string_of_list_ascii (map hex_digit ds) in
  let pairs (idx : list Z) :=
    flat_map (fun i => [char_at str (2 * i); char_at str (2 * i + 1)]) idx in
  exists target,
    read_target_bytes hexchar2int str = inr target
    /\ print_hash target
       = Some (string_of_list_ascii
                 (pairs (rev (seqZ 24 8)) ++ " "%char
                  :: pairs (rev (seqZ 16 8)) ++ " "%char
                  :: pairs (rev (seqZ 8 8)) ++ " "%char
                  :: pairs (rev (seqZ 0 8)) ++ [" "%char; "010"%char])).
Proof.
  intros Hl Hr str pairs.
  set (F := fun i : Z =>
              wrap8 (Z.lor (Z.shiftl (wrap8 (hexchar2int (char_at str (2 * i)))) 4)
                           (wrap8 (hexchar2int (char_at str (2 * i + 1)))))).
  assert (Et : read_target_bytes hexchar2int str = inr (F <$> seqZ 0 32)).
  { unfold read_target_bytes. rewrite decide_True; [reflexivity|].
    unfold str. rewrite length_string_of_list_ascii, length_map, Hl. reflexivity. }
  exists (F <$> seqZ 0 32). split; [exact Et|].
  (* the characters of the operand *)
  assert (Hch : forall j : nat, (j < 64)%nat ->
            exists d, ds !! j = Some d /\ 0 <= d < 16
                      /\ char_at str (Z.of_nat j) = hex_digit d).
  { intros j Hj. destruct (lookup_lt_is_Some_2 ds j ltac:(lia)) as [d Hd].
    exists d. split; [exact Hd|]. split.
    - eapply Forall_lookup_1 in Hr; [exact Hr|exact Hd].
    - unfold char_at, str. rewrite Nat2Z.id, get_string_of_list_ascii.
      change (map hex_digit ds) with (hex_digit <$> ds).
      rewrite list_lookup_fmap, Hd. reflexivity. }
  (* one byte *)
  assert (HF : forall i, 0 <= i < 32 ->
            0 <= F i < 256
            /\ [hex_digit (F i / 16); hex_digit (F i mod 16)]
               = [char_at str (2 * i); char_at str (2 * i + 1)]).
  { intros i Hi.
    destruct (Hch (Z.to_nat (2 * i)) ltac:(lia)) as (h & _ & Hh & Eh).
    destruct (Hch (Z.to_nat (2 * i + 1)) ltac:(lia)) as (l & _ & Hlo & El).
    rewrite Z2Nat.id in Eh, El by lia.
    unfold F. rewrite Eh, El, !hexchar2int_digit, nibbles_byte by assumption.
    destruct (byte_nibbles h l Hh Hlo) as [-> ->]. split; [lia|reflexivity]. }
  assert (Hgroup : forall k : nat, (k + 8 <= 32)%nat ->
            take 8 (drop k (F <$> seqZ 0 32)) = F <$> seqZ (Z.of_nat k) 8).
  { intros k Hk. rewrite <- fmap_drop, <- fmap_take. f_equal.
    apply list_eq. intros i.
    destruct (decide (i < 8)%nat) as [Hi|Hi].
    - rewrite lookup_take_lt, lookup_drop, !lookup_seqZ_lt by lia. f_equal. lia.
    - rewrite lookup_take_ge by lia. symmetry. apply lookup_seqZ_ge. lia. }
  rewrite print_hash_Some; cycle 1.
  { rewrite length_fmap, length_seqZ. lia. }
  { apply Forall_fmap, Forall_forall. intros i Hi%elem_of_seqZ.
    apply HF. lia. }
  assert (Hd : forall k : nat, (k + 8 <= 32)%nat ->
            flat_map (fun b => [hex_digit (b / 16); hex_digit (b mod 16)])
                     (rev (take 8 (drop k (F <$> seqZ 0 32))))
            = pairs (rev (seqZ (Z.of_nat k) 8))).
  { intros k Hk. rewrite Hgroup by exact Hk. unfold pairs.
    change (F <$> ?l) with (map F l). rewrite <- map_rev.
    rewrite !flat_map_concat_map, map_map. f_equal.
    apply map_ext_in. intros i Hi. apply in_rev in Hi.
    apply list_elem_of_In, elem_of_seqZ in Hi. apply HF. lia. }
  rewrite (Hd 24%nat), (Hd 16%nat), (Hd 8%nat) by lia.
  pose proof (Hd 0%nat ltac:(lia)) as H0. rewrite drop_0 in H0. rewrite H0.
  reflexivity.
Qed.

End Diagnostic.

(** * The further properties at concrete inputs *)

Local Abbreviation ref_lane :=
  (ref_search_nonce Blake2s.hash Reference.compare_uint256).
Local Abbreviation newline := (String "010" EmptyString).

Lemma print_hash_shows_bytes_reversed_witness :
  Forall (fun b => 0 <= b < 256) (seqZ 0 32)
  /\ print_hash (seqZ 0 32)
     = Some ("1f1e1d1c1b1a1918 1716151413121110 0f0e0d0c0b0a0908 0706050403020100 "
             ++ newline)%string.
Proof.
  assert (H : Forall (fun b => 0 <= b < 256) (seqZ 0 32)).
  { apply Forall_forall. intros b Hb%elem_of_seqZ. lia. }
  exact (conj H (print_hash_shows_bytes_reversed (seqZ 0 32) H)).
Defined.

Lemma reference_hexchar2int_digit d :
  0 <= d < 16 -> Reference.hexchar2int (hex_digit d) = d.
Proof. intros Hd. pattern d. apply (hex_digit_cases _ d Hd); reflexivity. Qed.

Lemma print_hash_of_target_reverses_the_pairs_witness :
  length Scenario.target_counting_digits = 64%nat
  /\ Forall (fun d => 0 <= d < 16) Scenario.target_counting_digits
  /\ string_of_list_ascii (map hex_digit Scenario.target_counting_digits)
     = Scenario.target_counting
  /\ exists target,
       read_target_bytes Reference.hexchar2int Scenario.target_counting
       = inr target
       /\ print_hash target
          = Some ("1f1e1d1c1b1a1918 1716151413121110 0f0e0d0c0b0a0908 0706050403020100 "
                  ++ newline)%string.
Proof.
  assert (H1 : length Scenario.target_counting_digits = 64%nat) by reflexivity.
  assert (H2 : Forall (fun d => 0 <= d < 16) Scenario.target_counting_digits).
  { apply Forall_forall. intros d Hd. vm_compute in Hd.
    repeat (apply elem_of_cons in Hd as [->|Hd]; [lia|]).
    apply elem_of_nil in Hd. contradiction. }
  split; [exact H1|]. split; [exact H2|]. split; [reflexivity|].
  exact (print_hash_of_target_reverses_the_pairs Reference.hexchar2int
           reference_hexchar2int_digit Scenario.target_counting_digits H1 H2).
Defined.


Lemma ref_search_nonce_order_independent_witness :
  0 <= 0
  /\ 0 <= 1
  /\ 0 <= 1
  /\ 0 * 1 + 1 <= Z.of_nat (length [7; 7])
  /\ 1 * 1 + 1 <= Z.of_nat (length [7; 7])
  /\ Z.of_nat (length [7; 7]) <= 2 ^ 64
  /\ 0 <= 1 <= 64
  /\ 248 + 1 <= Z.of_nat (length Scenario.header)
  /\ exists r1 r12,
       ref_lane 0 0 1 Scenario.header 1 (replicate 32 255) [7; 7] = Some r1
       /\ ref_lane 0 0 1 Scenario.header 1 (replicate 32 255) r1 = Some r1
       /\ ref_lane 1 0 1 Scenario.header 1 (replicate 32 255) r1 = Some r12
       /\ ref_lane 1 0 1 Scenario.header 1 (replicate 32 255) [7; 7]
            ≫= ref_lane 0 0 1 Scenario.header 1 (replicate 32 255)
          = Some r12.
Proof.
  assert (H1 : 0 <= 0) by lia.
  assert (H2 : 0 <= 1) by lia.
  assert (H4 : 0 * 1 + 1 <= Z.of_nat (length [7; 7])) by (cbn; lia).
  assert (H5 : 1 * 1 + 1 <= Z.of_nat (length [7; 7])) by (cbn; lia).
  assert (H6 : Z.of_nat (length [7; 7]) <= 2 ^ 64) by (cbn; lia).
  assert (H7 : 0 <= 1 <= 64) by lia.
  assert (H8 : 248 + 1 <= Z.of_nat (length Scenario.header)) by (cbn; lia).
  exact (conj H1 (conj H2 (conj H2 (conj H4 (conj H5 (conj H6 (conj H7 (conj H8
    (ref_search_nonce_order_independent Blake2s.hash Reference.compare_uint256
       0 1 0 1 Scenario.header 1 (replicate 32 255) [7; 7]
       H1 H2 H2 H4 H5 H6 H7 H8))))))))).
Defined.

Lemma lanes_fill_the_window_witness :
  0 <= 2
  /\ 0 <= 1
  /\ 2 * 1 <= 2 ^ 64
  /\ 2 * 1 <= Z.of_nat (length [7; 7; 7])
  /\ 0 <= 1 <= 64
  /\ 248 + 1 <= Z.of_nat (length Scenario.header)
  /\ exists result',
       foldl (fun r gid =>
                r ≫= ref_lane gid 0 1 Scenario.header 1 (replicate 32 255))
             (Some [7; 7; 7]) (seqZ 0 2) = Some result'
       /\ length result' = length [7; 7; 7]
       /\ (forall t, 0 <= t < 2 * 1 ->
             result' !! Z.to_nat t
             = Some (wrap8 (Reference.compare_uint256 (replicate 32 255)
                      (Blake2s.hash BLAKE2S_OUTBYTES
                         (uint64_bytes (wrap64 (0 + t))
                            ++ take (Z.to_nat (248 + 1)) Scenario.header)))))
       /\ (forall i : nat, 2 * 1 <= Z.of_nat i -> result' !! i = [7; 7; 7] !! i).
Proof.
  assert (H1 : 0 <= 2) by lia.
  assert (H2 : 0 <= 1) by lia.
  assert (H3 : 2 * 1 <= 2 ^ 64) by lia.
  assert (H4 : 2 * 1 <= Z.of_nat (length [7; 7; 7])) by (cbn; lia).
  assert (H5 : 0 <= 1 <= 64) by lia.
  assert (H6 : 248 + 1 <= Z.of_nat (length Scenario.header)) by (cbn; lia).
  exact (conj H1 (conj H2 (conj H3 (conj H4 (conj H5 (conj H6
    (lanes_fill_the_window Blake2s.hash Reference.compare_uint256
       0 2 1 Scenario.header 1 (replicate 32 255) [7; 7; 7]
       H1 H2 H3 H4 H5 H6))))))).
Defined.

Lemma options_not_given_keep_defaults_witness :
  parse_options default_config Scenario.one_nonce_windows = inr one_nonce
  /\ deviceOverride one_nonce = 0
  /\ platformOverride one_nonce = -1
  /\ localWorkSize one_nonce = 256
  /\ (nonceOverride one_nonce = None
      <-> ~ In "n"%char (map fst Scenario.one_nonce_windows))
  /\ (alternativeNonce one_nonce = true
      <-> In "f"%char (map fst Scenario.one_nonce_windows)).
Proof.
  assert (H : parse_options default_config Scenario.one_nonce_windows
              = inr one_nonce) by reflexivity.
  destruct (options_not_given_keep_defaults Scenario.one_nonce_windows one_nonce H)
    as (Hd & Hp & Hl & _ & _ & Hn & _ & Hf & _).
  assert (N : forall a, a <> "g"%char -> a <> "w"%char ->
                        ~ In a (map fst Scenario.one_nonce_windows)).
  { intros a Hg Hw [E|[E|[]]]; [apply Hg|apply Hw]; symmetry; exact E. }
  split; [exact H|].
  split; [apply Hd, N; discriminate|].
  split; [apply Hp, N; discriminate|].
  split; [apply Hl, N; discriminate|].
  split; [exact Hn|exact Hf].
Defined.

Lemma last_occurrence_of_an_option_counts_witness :
  parse_options default_config
    ([("w"%char, "5"%string)] ++ ("w"%char, "7"%string) :: [("g"%char, "1"%string)])
  = inr {| quiet := true; deviceOverride := 0; platformOverride := -1;
           localWorkSize := 256; workSetSize := 7; globalSize := 1;
           nonceOverride := None; kernelPath := None; alternativeNonce := false |}
  /\ ~ In "w"%char (map fst [("g"%char, "1"%string)])
  /\ stoi "7" 10 = inr 7.
Proof.
  assert (H1 : parse_options default_config
                 ([("w"%char, "5"%string)] ++ ("w"%char, "7"%string)
                    :: [("g"%char, "1"%string)])
               = inr {| quiet := true; deviceOverride := 0; platformOverride := -1;
                        localWorkSize := 256; workSetSize := 7; globalSize := 1;
                        nonceOverride := None; kernelPath := None;
                        alternativeNonce := false |}) by reflexivity.
  assert (H2 : ~ In "w"%char (map fst [("g"%char, "1"%string)])).
  { intros [E|[]]. discriminate E. }
  split; [exact H1|]. split; [exact H2|].
  exact (proj1 (proj2 (proj2 (proj2
    (last_occurrence_of_an_option_counts _ _ _ _ _ H1 H2)))) eq_refl).
Defined.

Lemma usage_option_ends_the_run_witness :
  options Scenario.verbose_then_help
  = [("v"%char, ""%string)] ++ ("h"%char, ""%string) :: []
  /\ ("h"%char = "h"%char \/ "h"%char = "?"%char)
  /\ parse_options default_config [("v"%char, ""%string)]
     = inr {| quiet := false; deviceOverride := 0; platformOverride := -1;
              localWorkSize := 256; workSetSize := 64;
              globalSize := 1024 * 1024 * 16;
              nonceOverride := None; kernelPath := None;
              alternativeNonce := false |}
  /\ ref_main 3 Scenario.verbose_then_help
     = {| windows := []; stdout := None; ending := Exited 1 |}.
Proof.
  assert (H1 : options Scenario.verbose_then_help
               = [("v"%char, ""%string)] ++ ("h"%char, ""%string) :: [])
    by reflexivity.
  assert (H2 : "h"%char = "h"%char \/ "h"%char = "?"%char) by (left; reflexivity).
  assert (H3 : parse_options default_config [("v"%char, ""%string)]
     = inr {| quiet := false; deviceOverride := 0; platformOverride := -1;
              localWorkSize := 256; workSetSize := 64;
              globalSize := 1024 * 1024 * 16;
              nonceOverride := None; kernelPath := None;
              alternativeNonce := false |}) by reflexivity.
  exact (conj H1 (conj H2 (conj H3
    (usage_option_ends_the_run Blake2s.hash Reference.compare_uint256
       Reference.hexchar2int (backend_ops := Reference.backend 257)
       3 Scenario.verbose_then_help _ _ _ _ _ H1 H2 H3)))).
Defined.

Lemma numeric_option_ignores_trailing_characters_witness :
  [0] <> []
  /\ Forall (fun d => 0 <= d < 10) [0]
  /\ is_digit 10 "x" = false
  /\ stoi "0x40" 10 = inr 0
  /\ exists c', handle_option default_config "w" "0x40" = inr c'
                /\ workSetSize c' = 0.
Proof.
  assert (H1 : [0] <> []) by discriminate.
  assert (H2 : Forall (fun d => 0 <= d < 10) [0]) by (repeat constructor; lia).
  assert (H3 : is_digit 10 "x" = false) by reflexivity.
  destruct (numeric_option_ignores_trailing_characters [0] "x40" H1 H2 H3)
    as [Hs Hw].
  split; [exact H1|]. split; [exact H2|]. split; [exact H3|].
  split; [exact Hs|].
  exact (proj1 (Hw ltac:(vm_compute; discriminate) default_config)).
Defined.

Lemma nonce_override_is_the_first_start_witness :
  argc Scenario.override_minus_one <> 1
  /\ options Scenario.override_minus_one
     = [] ++ ("n"%char, "-1"%string) :: Scenario.one_nonce_windows
  /\ ~ In "n"%char (map fst Scenario.one_nonce_windows)
  /\ parse_options default_config (options Scenario.override_minus_one)
     = inr (Scenario.config_one_nonce (Some (2 ^ 64 - 1)))
  /\ operand Scenario.override_minus_one = Some Scenario.target_zero
  /\ String.length Scenario.target_zero = 64%nat
  /\ 257 <= snd (fread_buf Scenario.override_minus_one) <= 320
  /\ urandom Scenario.override_minus_one = None
  /\ exists v found,
       stoi "-1" 16 = inr v
       /\ windows (ref_main 1 Scenario.override_minus_one) !! 0%nat
          = Some ((if v <? 0 then 2 ^ 64 + v else v), found).
Proof.
  assert (H1 : argc Scenario.override_minus_one <> 1) by (vm_compute; discriminate).
  assert (H2 : options Scenario.override_minus_one
               = [] ++ ("n"%char, "-1"%string) :: Scenario.one_nonce_windows)
    by reflexivity.
  assert (H3 : ~ In "n"%char (map fst Scenario.one_nonce_windows)).
  { intros [E|[E|[]]]; discriminate E. }
  assert (H4 : parse_options default_config (options Scenario.override_minus_one)
               = inr (Scenario.config_one_nonce (Some (2 ^ 64 - 1))))
    by (vm_compute; reflexivity).
  assert (H5 : operand Scenario.override_minus_one = Some Scenario.target_zero)
    by reflexivity.
  assert (H6 : String.length Scenario.target_zero = 64%nat) by reflexivity.
  assert (H7 : 257 <= snd (fread_buf Scenario.override_minus_one) <= 320)
    by (vm_compute; split; discriminate).
  exact (conj H1 (conj H2 (conj H3 (conj H4 (conj H5 (conj H6 (conj H7 (conj eq_refl
    (nonce_override_is_the_first_start Blake2s.hash Reference.compare_uint256
       Reference.hexchar2int (backend_ops := Reference.backend 257)
       0 Scenario.override_minus_one [] Scenario.one_nonce_windows "-1"
       (Scenario.config_one_nonce (Some (2 ^ 64 - 1))) Scenario.target_zero
       H1 H2 H3 H4 H5 H6 H7))))))))).
Defined.

Lemma printed_nonce_below_2_31_resumes_the_search_witness :
  0 <= 255 < 2 ^ 31
  /\ argc Scenario.override_printed <> 1
  /\ options Scenario.override_printed
     = [] ++ ("n"%char, hex16 255) :: Scenario.one_nonce_windows
  /\ hex16 255 = "00000000000000ff"%string
  /\ ~ In "n"%char (map fst Scenario.one_nonce_windows)
  /\ parse_options default_config (options Scenario.override_printed)
     = inr (Scenario.config_one_nonce (Some 255))
  /\ operand Scenario.override_printed = Some Scenario.target_zero
  /\ String.length Scenario.target_zero = 64%nat
  /\ 257 <= snd (fread_buf Scenario.override_printed) <= 320
  /\ strtol (hex16 255) 16 = Some 255
  /\ exists found,
       windows (ref_main 1 Scenario.override_printed) !! 0%nat = Some (255, found).
Proof.
  assert (H0 : 0 <= 255 < 2 ^ 31) by lia.
  assert (H1 : argc Scenario.override_printed <> 1) by (vm_compute; discriminate).
  assert (H2 : options Scenario.override_printed
               = [] ++ ("n"%char, hex16 255) :: Scenario.one_nonce_windows)
    by reflexivity.
  assert (H3 : ~ In "n"%char (map fst Scenario.one_nonce_windows)).
  { intros [E|[E|[]]]; discriminate E. }
  assert (H4 : parse_options default_config (options Scenario.override_printed)
               = inr (Scenario.config_one_nonce (Some 255)))
    by (vm_compute; reflexivity).
  assert (H5 : operand Scenario.override_printed = Some Scenario.target_zero)
    by reflexivity.
  assert (H6 : String.length Scenario.target_zero = 64%nat) by reflexivity.
  assert (H7 : 257 <= snd (fread_buf Scenario.override_printed) <= 320)
    by (vm_compute; split; discriminate).
  exact (conj H0 (conj H1 (conj H2 (conj eq_refl (conj H3 (conj H4 (conj H5
    (conj H6 (conj H7
    (printed_nonce_below_2_31_resumes_the_search Blake2s.hash
       Reference.compare_uint256 Reference.hexchar2int
       (backend_ops := Reference.backend 257)
       0 Scenario.override_printed [] Scenario.one_nonce_windows 255
       (Scenario.config_one_nonce (Some 255)) Scenario.target_zero
       H0 H1 H2 H3 H4 H5 H6 H7)))))))))).
Defined.

Lemma zero_size_repeats_the_window_witness :
  argc Scenario.zero_global_size <> 1
  /\ parse_options default_config (options Scenario.zero_global_size)
     = inr Scenario.config_zero_global_size
  /\ (globalSize Scenario.config_zero_global_size = 0
      \/ workSetSize Scenario.config_zero_global_size = 0)
  /\ operand Scenario.zero_global_size = Some Scenario.target_zero
  /\ String.length Scenario.target_zero = 64%nat
  /\ 257 <= snd (fread_buf Scenario.zero_global_size) <= 320
  /\ initial_start_nonce Scenario.config_zero_global_size
       (urandom Scenario.zero_global_size) = Some 5
  /\ ref_main 3 Scenario.zero_global_size
     = {| windows := [(5, 0); (5, 0); (5, 0)];
          stdout := None;
          ending := Running |}
  /\ exists e s0,
       ref_setup Scenario.zero_global_size = inr (e, s0)
       /\ env_nonce_step_size e = 0
       /\ start_nonce s0 = 5
       /\ forall fuel,
            let r := ref_main fuel Scenario.zero_global_size in
            (ending r = Returned 0 \/ ending r = Exited (-1)
             \/ ending r = Running)
            /\ ((0 < fuel)%nat ->
                exists found, windows r !! 0%nat = Some (5, found))
            /\ (forall w, In w (windows r) -> fst w = 5)
            /\ (ending r = Running <-> windows r = replicate fuel (5, 0))
            /\ (forall n h, stdout r = Some (n, h) -> h = 0).
Proof.
  assert (H1 : argc Scenario.zero_global_size <> 1) by (vm_compute; discriminate).
  assert (H2 : parse_options default_config (options Scenario.zero_global_size)
               = inr Scenario.config_zero_global_size)
    by (vm_compute; reflexivity).
  assert (H3 : globalSize Scenario.config_zero_global_size = 0
               \/ workSetSize Scenario.config_zero_global_size = 0)
    by (left; reflexivity).
  assert (H4 : operand Scenario.zero_global_size = Some Scenario.target_zero)
    by reflexivity.
  assert (H5 : String.length Scenario.target_zero = 64%nat) by reflexivity.
  assert (H6 : 257 <= snd (fread_buf Scenario.zero_global_size) <= 320)
    by (vm_compute; split; discriminate).
  assert (H7 : initial_start_nonce Scenario.config_zero_global_size
                 (urandom Scenario.zero_global_size) = Some 5) by reflexivity.
  assert (H8 : ref_main 3 Scenario.zero_global_size
               = {| windows := [(5, 0); (5, 0); (5, 0)];
                    stdout := None;
                    ending := Running |}) by (vm_compute; reflexivity).
  exact (conj H1 (conj H2 (conj H3 (conj H4 (conj H5 (conj H6 (conj H7 (conj H8
    (zero_size_repeats_the_window Blake2s.hash Reference.compare_uint256
       Reference.hexchar2int (backend_ops := Reference.backend 257)
       Scenario.zero_global_size Scenario.config_zero_global_size
       Scenario.target_zero 5 H1 H2 H3 H4 H5 H6 H7))))))))).
Defined.

Lemma hash_count_on_result_line_witness :
  parse_options default_config (options Scenario.zero_override)
  = inr one_nonce_from_0
  /\ Z.of_nat 2 < 2 ^ 31
  /\ stdout (ref_main 2 Scenario.zero_override) = Some (1, 2)
  /\ 2 = (Z.of_nat (length (windows (ref_main 2 Scenario.zero_override)))
          * (globalSize one_nonce_from_0 * workSetSize one_nonce_from_0))
         mod 2 ^ 64.
Proof.
  assert (H1 : parse_options default_config (options Scenario.zero_override)
               = inr one_nonce_from_0) by (vm_compute; reflexivity).
  assert (H2 : Z.of_nat 2 < 2 ^ 31) by (cbn; lia).
  assert (H3 : stdout (ref_main 2 Scenario.zero_override) = Some (1, 2))
    by (vm_compute; reflexivity).
  exact (conj H1 (conj H2 (conj H3
    (hash_count_on_result_line Blake2s.hash Reference.compare_uint256
       Reference.hexchar2int (backend_ops := Reference.backend 257)
       2 Scenario.zero_override one_nonce_from_0 1 2 H1 H2 H3)))).
Defined.

Lemma search_goes_on_while_answers_are_zero_witness :
  argc Scenario.top_entropy <> 1
  /\ parse_options default_config (options Scenario.top_entropy) = inr one_nonce
  /\ operand Scenario.top_entropy = Some Scenario.target_zero
  /\ String.length Scenario.target_zero = 64%nat
  /\ 257 <= snd (fread_buf Scenario.top_entropy) <= 320
  /\ initial_start_nonce one_nonce (urandom Scenario.top_entropy)
     = Some (2 ^ 64 - 1)
  /\ (ending (ref_main 2 Scenario.top_entropy) = Running
      <-> length (windows (ref_main 2 Scenario.top_entropy)) = 2%nat
          /\ Forall (fun w => snd w = 0)
                    (windows (ref_main 2 Scenario.top_entropy))).
Proof.
  assert (H1 : argc Scenario.top_entropy <> 1) by (vm_compute; discriminate).
  assert (H2 : parse_options default_config (options Scenario.top_entropy)
               = inr one_nonce) by (vm_compute; reflexivity).
  assert (H3 : operand Scenario.top_entropy = Some Scenario.target_zero)
    by reflexivity.
  assert (H4 : String.length Scenario.target_zero = 64%nat) by reflexivity.
  assert (H5 : 257 <= snd (fread_buf Scenario.top_entropy) <= 320)
    by (vm_compute; split; discriminate).
  assert (H6 : initial_start_nonce one_nonce (urandom Scenario.top_entropy)
               = Some (2 ^ 64 - 1)) by (vm_compute; reflexivity).
  exact (conj H1 (conj H2 (conj H3 (conj H4 (conj H5 (conj H6
    (search_goes_on_while_answers_are_zero Blake2s.hash
       Reference.compare_uint256 Reference.hexchar2int
       (backend_ops := Reference.backend 257)
       2 Scenario.top_entropy one_nonce Scenario.target_zero (2 ^ 64 - 1)
       H1 H2 H3 H4 H5 H6))))))).
Defined.


Lemma entropy_bytes_are_the_first_nonce_bytes_witness :
  nonceOverride default_config = None
  /\ (8 <= length (seqZ 1 9))%nat
  /\ Forall (fun b => 0 <= b < 256) (take 8 (seqZ 1 9))
  /\ exists start,
       initial_start_nonce default_config (Some (seqZ 1 9)) = Some start
       /\ 0 <= start < 2 ^ 64
       /\ uint64_bytes start = [1; 2; 3; 4; 5; 6; 7; 8].
Proof.
  assert (H1 : nonceOverride default_config = None) by reflexivity.
  assert (H2 : (8 <= length (seqZ 1 9))%nat) by (rewrite length_seqZ; lia).
  assert (H3 : Forall (fun b => 0 <= b < 256) (take 8 (seqZ 1 9))).
  { apply Forall_take, Forall_forall. intros b Hb%elem_of_seqZ. lia. }
  exact (conj H1 (conj H2 (conj H3
    (entropy_bytes_are_the_first_nonce_bytes default_config (seqZ 1 9)
       H1 H2 H3)))).
Defined.

Lemma guard_ignores_the_nonce_field_witness :
  257 <= 257 <= 320
  /\ 257 <= Z.of_nat (length Scenario.header)
  /\ 257 <= Z.of_nat (length (replicate 8 1 ++ replicate 249 0))
  /\ (forall i : nat,
        8 <= Z.of_nat i < 257 ->
        Scenario.header !! i = (replicate 8 1 ++ replicate 249 0) !! i)
  /\ guard_hash Blake2s.hash false Scenario.header 257 5
     = guard_hash Blake2s.hash false (replicate 8 1 ++ replicate 249 0) 257 5.
Proof.
  assert (H1 : 257 <= 257 <= 320) by lia.
  assert (H2 : 257 <= Z.of_nat (length Scenario.header)) by (cbn; lia).
  assert (H3 : 257 <= Z.of_nat (length (replicate 8 1 ++ replicate 249 0)))
    by (cbn; lia).
  assert (H4 : forall i : nat,
             (if false then Z.of_nat i < 257 - 8 else 8 <= Z.of_nat i < 257) ->
             Scenario.header !! i = (replicate 8 1 ++ replicate 249 0) !! i).
  { intros i Hi. unfold Scenario.header.
    rewrite lookup_app_r by (rewrite length_replicate; lia).
    rewrite length_replicate, !lookup_replicate_2 by lia. reflexivity. }
  exact (conj H1 (conj H2 (conj H3 (conj H4
    (guard_ignores_the_nonce_field Blake2s.hash false Scenario.header
       (replicate 8 1 ++ replicate 249 0) 257 5 H1 H2 H3 H4))))).
Defined.

Lemma numeric_option_without_digits_throws_witness :
  argc Scenario.work_set_abc <> 1
  /\ [("w"%char, "abc"%string)] = [] ++ ("w"%char, "abc"%string) :: []
  /\ In "w"%char ["d"; "p"; "l"; "w"; "g"; "n"]%char
  /\ (isspace "a" = false /\ "a"%char <> "-"%char /\ "a"%char <> "+"%char
      /\ is_digit 10 "a" = false)
  /\ ref_main 3 Scenario.work_set_abc
     = {| windows := []; stdout := None; ending := Uncaught invalid_argument |}.
Proof.
  assert (H1 : argc Scenario.work_set_abc <> 1)
    by (vm_compute; discriminate).
  assert (H2 : options Scenario.work_set_abc
               = [] ++ ("w"%char, "abc"%string) :: []) by reflexivity.
  assert (H3 : parse_options default_config [] = inr default_config)
    by reflexivity.
  assert (H4 : In "w"%char ["d"; "p"; "l"; "w"; "g"; "n"]%char)
    by (do 3 right; left; reflexivity).
  assert (H5 : isspace "a" = false /\ "a"%char <> "-"%char /\ "a"%char <> "+"%char
               /\ is_digit 10 "a" = false)
    by (repeat split; discriminate).
  exact (conj H1 (conj H2 (conj H4 (conj H5
    (numeric_option_without_digits_throws Blake2s.hash Reference.compare_uint256
       Reference.hexchar2int (backend_ops := Reference.backend 257)
       3 Scenario.work_set_abc
       [] [] "w" "abc" default_config H1 H2 H3 H4 H5))))).
Defined.

Lemma read_target_bytes_decodes_pairs_witness :
  String.length Scenario.target_counting = 64%nat
  /\ exists target,
       read_target_bytes Reference.hexchar2int Scenario.target_counting
       = inr target
       /\ length target = 32%nat
       /\ target !! 31%nat = Some (16 * 1 + 15).
Proof.
  assert (H : String.length Scenario.target_counting = 64%nat) by reflexivity.
  destruct (proj2 (read_target_bytes_decodes_pairs Reference.hexchar2int
                     Scenario.target_counting) H)
    as (target & Ht & Hl & _ & Hb).
  split; [exact H|]. exists target. split; [exact Ht|]. split; [exact Hl|].
  apply (Hb 31%nat 1 15); [lia|reflexivity|reflexivity|lia|lia].
Defined.

Lemma null_operand_and_null_stream_are_passed_on_witness :
  argc Scenario.no_operand <> 1
  /\ parse_options default_config (options Scenario.no_operand)
     = inr {| quiet := false; deviceOverride := 0; platformOverride := -1;
              localWorkSize := 256; workSetSize := 64;
              globalSize := 1024 * 1024 * 16;
              nonceOverride := None; kernelPath := None;
              alternativeNonce := false |}
  /\ operand Scenario.no_operand = None
  /\ ref_main 3 Scenario.no_operand
     = {| windows := []; stdout := None; ending := Undefined |}.
Proof.
  assert (H1 : argc Scenario.no_operand <> 1) by (vm_compute; discriminate).
  assert (H2 : parse_options default_config (options Scenario.no_operand)
     = inr {| quiet := false; deviceOverride := 0; platformOverride := -1;
              localWorkSize := 256; workSetSize := 64;
              globalSize := 1024 * 1024 * 16;
              nonceOverride := None; kernelPath := None;
              alternativeNonce := false |}) by reflexivity.
  assert (H3 : operand Scenario.no_operand = None) by reflexivity.
  exact (conj H1 (conj H2 (conj H3
    (proj1 (null_operand_and_null_stream_are_passed_on Blake2s.hash
              Reference.compare_uint256 Reference.hexchar2int
              (backend_ops := Reference.backend 257)
              3 Scenario.no_operand _ H1 H2) H3)))).
Defined.
